(** * Auto-Update-Film: the auto-update polling engine and the TMDB rate limiter

    A shallow embedding of
      - [src/cogs/auto_update.py]   (class [AutoUpdate]: [update_check],
        [_check_for_updates], [_send_notification]),
      - [src/services/tmdb_client.py] (class [TMDBRateLimiter], and the
        query parameters of [TMDBClient._request]),
      - the columns of [src/core/database.py] and the settings of
        [src/core/config.py] that those read, with
        [Database.add_subscription] and [Database.remove_subscription],
      - the part of [subscribe] ([src/cogs/subscriptions.py]) that decides
        whether a row is added,
    together with the properties the specification states about them, and
    further properties of the same code.

    Conventions of the embedding.
      - A Python [datetime] is the number of microseconds since
        0001-01-01T00:00:00 (an integer); a [timedelta] is a number of
        microseconds; [timedelta.days] is the floor of the quotient by one
        day, as Python normalises it.
      - A Python [float] is the rational a double holds. The arithmetic of
        the rate limiter rounds every result with [Float.binary64]: to the
        nearest multiple of the unit of the result, the even one of two that
        are as near, with 53 significant bits and no unit below
        [2 ** -1074]. The same code is also read over the rationals, with no
        rounding ([Float.unrounded]). Infinities and NaN are left out:
        [Float.binary64] has no largest exponent, and is the arithmetic of
        the code as long as no result is beyond the largest double; the
        properties about doubles are stated for limiters that stay far
        within that range ([moderate]).
      - Code that may raise returns [Ok] or [Raise]; effects on the world
        (the database, the clock, the network, the log) are threaded through a
        state-and-exception monad in which the state survives a raise, as it
        does in Python.
      - Strings are byte strings; [\d] of Python's [re] is read as an ASCII
        digit.
      - Integers and durations are unbounded: the [OverflowError] of a
        [timedelta] beyond 999999999 days, or of an integer quotient beyond
        the range of floats, needs an interval of millions of years and is
        left out. *)

From Stdlib Require Import ZArith QArith Qminmax Qround Qpower.
From Stdlib Require Import List String Ascii Bool Lia Lqa.
Import ListNotations.
Local Open Scope string_scope.
Local Open Scope list_scope.
Local Open Scope Z_scope.

Set Implicit Arguments.

(** ** Python values: results, truthiness *)

Inductive Exn : Type :=
| ValueError
| ZeroDivisionError
| ClientError        (* aiohttp: network failure or raise_for_status *)
| DatabaseError      (* sqlalchemy: the statement could not be executed *)
| DiscordError.      (* discord: Forbidden / HTTPException on send *)

Inductive Res (A : Type) : Type :=
| Ok (a : A)
| Raise (e : Exn).
Arguments Ok {A} a.
Arguments Raise {A} e.

(** [if x:] for a value that is [None] or a string. *)
Definition truthy_str (x : option string) : bool :=
  match x with
  | Some s => negb (String.eqb s "")
  | None => false
  end.

(** [if x:] for a nullable Boolean column. *)
Definition truthy_bool (x : option bool) : bool :=
  match x with
  | Some b => b
  | None => false
  end.

(** [if x:] for a nullable integer column: [None] and [0] are falsy. *)
Definition truthy_int (x : option Z) : bool :=
  match x with
  | Some n => negb (n =? 0)
  | None => false
  end.

(** ** Python's [datetime]: ordinals, [strptime] with ['%Y-%m-%d'] *)

Module DateTime.

Definition us_per_day : Z := 86400000000.
Definition us_per_hour : Z := 3600000000.

(** [timedelta(hours=h)] *)
Definition timedelta_hours (h : Z) : Z := h * us_per_hour.

(** [td.days] *)
Definition days (td : Z) : Z := td / us_per_day.

Definition _is_leap (year : Z) : bool :=
  (year mod 4 =? 0) && (negb (year mod 100 =? 0) || (year mod 400 =? 0)).

Definition _days_before_year (year : Z) : Z :=
  let y := year - 1 in y * 365 + y / 4 - y / 100 + y / 400.

Definition _DAYS_IN_MONTH : list Z :=
  [-1; 31; 28; 31; 30; 31; 30; 31; 31; 30; 31; 30; 31].

Definition _DAYS_BEFORE_MONTH : list Z :=
  [-1; 0; 31; 59; 90; 120; 151; 181; 212; 243; 273; 304; 334].

Definition _days_in_month (year month : Z) : Z :=
  if (month =? 2) && _is_leap year then 29
  else nth (Z.to_nat month) _DAYS_IN_MONTH (-1).

Definition _days_before_month (year month : Z) : Z :=
  nth (Z.to_nat month) _DAYS_BEFORE_MONTH (-1)
  + (if (2 <? month) && _is_leap year then 1 else 0).

Definition _ymd2ord (year month day : Z) : Z :=
  _days_before_year year + _days_before_month year month + day.

(** [datetime(year, month, day)]: midnight of that day, or [ValueError]
    when the year is below [MINYEAR] or the day does not exist. *)
Definition datetime (year month day : Z) : Res Z :=
  if (1 <=? year) && (year <=? 9999)
     && (1 <=? month) && (month <=? 12)
     && (1 <=? day) && (day <=? _days_in_month year month)
  then Ok ((_ymd2ord year month day - 1) * us_per_day)
  else Raise ValueError.

(** *** The regular expression [_strptime] builds for ['%Y-%m-%d']

    [(?P<Y>\d\d\d\d)-(?P<m>1[0-2]|0[1-9]|[1-9])-(?P<d>3[01]|[12]\d|0[1-9]|[1-9]| [1-9])]

    Each group is the list of its possible matches at the head of the
    input, in the order in which the backtracking matcher tries them; a
    match is the value read and the input that remains. *)

Definition digit_in (lo hi : Z) (c : ascii) : option Z :=
  let n := Z.of_nat (nat_of_ascii c) - 48 in
  if (lo <=? n) && (n <=? hi) then Some n else None.

Definition two_digits (l1 h1 l2 h2 : Z) (s : list ascii)
  : list (Z * list ascii) :=
  match s with
  | a :: b :: rest =>
      match digit_in l1 h1 a, digit_in l2 h2 b with
      | Some x, Some y => [(10 * x + y, rest)]
      | _, _ => []
      end
  | _ => []
  end.

Definition one_digit (lo hi : Z) (s : list ascii) : list (Z * list ascii) :=
  match s with
  | a :: rest =>
      match digit_in lo hi a with
      | Some x => [(x, rest)]
      | None => []
      end
  | _ => []
  end.

Definition literal (c : ascii) (s : list ascii) : list (list ascii) :=
  match s with
  | a :: rest => if Ascii.eqb a c then [rest] else []
  | [] => []
  end.

Definition re_Y (s : list ascii) : list (Z * list ascii) :=
  flat_map (fun '(hi, r) =>
              map (fun '(lo, r') => (100 * hi + lo, r'))
                  (two_digits 0 9 0 9 r))
           (two_digits 0 9 0 9 s).

Definition re_m (s : list ascii) : list (Z * list ascii) :=
  two_digits 1 1 0 2 s ++ two_digits 0 0 1 9 s ++ one_digit 1 9 s.

Definition re_d (s : list ascii) : list (Z * list ascii) :=
  two_digits 3 3 0 1 s ++ two_digits 1 2 0 9 s ++ two_digits 0 0 1 9 s
  ++ one_digit 1 9 s
  ++ flat_map (one_digit 1 9) (literal " " s).

(** [format_regex.match(data_string)]: the first match in backtracking
    order, with what the match left unread. *)
Definition format_regex_match (s : list ascii)
  : option (Z * Z * Z * list ascii) :=
  hd_error
    (flat_map (fun '(y, s1) =>
     flat_map (fun s2 =>
     flat_map (fun '(m, s3) =>
     flat_map (fun s4 =>
     map (fun '(d, s5) => (y, m, d, s5)) (re_d s4))
       (literal "-" s3))
       (re_m s2))
       (literal "-" s1))
       (re_Y s)).

(** [datetime.strptime(data_string, '%Y-%m-%d')] *)
Definition strptime (data_string : string) : Res Z :=
  match format_regex_match (list_ascii_of_string data_string) with
  | None => Raise ValueError                 (* does not match format *)
  | Some (_, _, _, _ :: _) => Raise ValueError (* unconverted data remains *)
  | Some (y, m, d, []) => datetime y m d
  end.

End DateTime.

(** ** The data model *)

(** Rows of the [subscriptions] table ([core/database.py], class
    [Subscription]); the Boolean columns are nullable. *)
Record Subscription : Type := {
  sub_id : Z;
  sub_guild_id : Z;
  tmdb_id : Z;
  media_type : string;
  sub_title : string;
  poster_path : option string;
  last_checked : option Z;
  notify_on_release : option bool;
  notify_on_update : option bool
}.

(** Rows of the [guilds] table (class [Guild]). *)
Record GuildData : Type := {
  guild_id : Z;
  guild_name : string;
  notification_channel_id : option Z;
  notification_role_id : option Z;
  auto_update_enabled : option bool
}.

(** A guild as the Discord client caches it: what [guild.system_channel],
    [guild.get_channel] and [guild.get_role] answer. *)
Record DiscordGuild : Type := {
  dg_id : Z;
  dg_name : string;
  system_channel : option Z;
  channels : list Z;
  roles : list Z
}.

Definition get_channel (g : DiscordGuild) (channel_id : Z) : option Z :=
  if existsb (Z.eqb channel_id) (channels g) then Some channel_id else None.

Definition get_role (g : DiscordGuild) (role_id : Z) : option Z :=
  if existsb (Z.eqb role_id) (roles g) then Some role_id else None.

(** The object under the key [next_episode_to_air] of a TV snapshot: what
    [get] returns for the four keys the code reads ([None] for a key that
    is missing or null), and whether the object has anything else (another
    key, or one of the four with the value null). The empty object has
    nothing under the four keys and nothing else. *)
Record Episode : Type := {
  air_date : option string;
  season_number : option Z;
  episode_number : option Z;
  episode_name : option string;
  other_keys : bool
}.

(** [k in obj and obj[k] is not None] *)
Definition has {A} (x : option A) : bool :=
  match x with
  | Some _ => true
  | None => false
  end.

(** The keys of the TMDB snapshot ([details]) the evaluator reads with
    [details.get]; [None] is a missing key or a JSON null. The object
    under [next_episode_to_air] may be the empty one, which is falsy. *)
Record Details : Type := {
  release_date : option string;
  status : option string;
  d_title : option string;
  d_name : option string;
  last_air_date : option string;
  next_episode_to_air : option Episode
}.

Inductive NotificationType : Type :=
| release | upcoming | new_episode | episode_aired.

(** The dictionary [notification] once it has a ['type']. *)
Record Notification : Type := {
  n_type : NotificationType;
  n_date : string;
  n_title : option string;
  n_episode : option Episode
}.

(** The embed [_send_notification] composes: the template chosen, its
    parameters, the thumbnail, the link target and the timestamp. *)
Record Embed : Type := {
  e_template : NotificationType;
  e_title : option string;
  e_date : string;
  e_episode : option Episode;
  e_thumbnail : option string;
  e_link : string * Z;
  e_timestamp : Z
}.

(** ** Settings ([core/config.py]) *)

Record Config : Type := {
  UPDATE_INTERVAL_HOURS : Z;
  NOTIFICATION_PING_ROLE : bool
}.

(** [Config.UPDATE_INTERVAL_HOURS / 24]: true division. *)
Definition interval_in_days (cfg : Config) : Q :=
  (inject_Z (UPDATE_INTERVAL_HOURS cfg) / inject_Z 24)%Q.

(** [0 <= d <= Config.UPDATE_INTERVAL_HOURS / 24] for an integer [d]. Python
    compares the integer with the float quotient exactly; the quotient is
    correctly rounded and a day count is far below [2^52], so the rounding
    never moves the quotient across an integer and the comparison is the one
    of the exact quotient. *)
Definition within_interval (cfg : Config) (d : Z) : bool :=
  (0 <=? d) && Qle_bool (inject_Z d) (interval_in_days cfg).

(** ** The world around the cog, and the monad of its code *)

Inductive LogRecord : Type :=
| InfoStarting
| InfoChecking (n : nat) (name : string)
| InfoSent (title : option string) (guild : Z)
| InfoComplete (total : nat)
| WarningNoChannel (guild : Z)
| ErrorSending (e : Exn)
| ErrorSubscription (subscription : Z) (e : Exn)
| ErrorGuild (guild : Z) (e : Exn)
| ErrorTask (e : Exn).

(** What the cog does to the outside, in the order it does it. [EvEvaluate]
    and [EvDispatch] mark the calls of [_check_for_updates] and
    [_send_notification]; every event about one subscription carries that
    subscription's primary key. *)
Inductive Event : Type :=
| EvSelectGuilds
| EvGetSubscriptions (guild : Z)
| EvFetch (subscription : Z) (endpoint : string) (tmdb : Z)
| EvEvaluate (subscription : Z)
| EvDispatch (subscription : Z)
| EvSend (subscription : Z) (channel : Z) (content : option Z) (embed : Embed)
| EvUpdateLastChecked (subscription : Z) (timestamp : Z)
| EvSleep
| EvLog (r : LogRecord).

(** The answers of the outside. Every consultation of the clock, the
    network, the database or Discord advances a counter, and the answer may
    depend on it, so that two calls need not agree. *)
Record Env : Type := {
  config : Config;
  utcnow : nat -> Z;                               (* datetime.utcnow() *)
  tmdb_request : nat -> string -> Z -> Res Details; (* TMDBClient._request *)
  db_fails : nat -> bool;                          (* a statement raises *)
  send_fails : nat -> bool;                        (* channel.send raises *)
  get_guild : Z -> option DiscordGuild             (* bot.get_guild *)
}.

Record World : Type := {
  guilds : list GuildData;
  subscriptions : list Subscription;
  tick : nat;
  trace : list Event;
  total_updates : nat          (* the local variable of [update_check] *)
}.

Definition M (A : Type) : Type := World -> Res A * World.

Definition ret {A} (a : A) : M A := fun w => (Ok a, w).

Definition bind {A B} (m : M A) (k : A -> M B) : M B :=
  fun w =>
    match m w with
    | (Ok a, w') => k a w'
    | (Raise e, w') => (Raise e, w')
    end.

Definition raise {A} (e : Exn) : M A := fun w => (Raise e, w).

Definition lift {A} (r : Res A) : M A := fun w => (r, w).

(** [try: m except Exception as e: handler(e)] *)
Definition try_except {A} (m : M A) (handler : Exn -> M A) : M A :=
  fun w =>
    match m w with
    | (Ok a, w') => (Ok a, w')
    | (Raise e, w') => handler e w'
    end.

Declare Scope monad_scope.
Delimit Scope monad_scope with monad.
Notation "x <- c ;; k" := (bind c (fun x => k))
  (at level 61, c at next level, right associativity) : monad_scope.
Notation "c ;; k" := (bind c (fun _ => k))
  (at level 61, right associativity) : monad_scope.
Local Open Scope monad_scope.

(** [for x in xs: body(x)] *)
Fixpoint for_each {A} (xs : list A) (body : A -> M unit) : M unit :=
  match xs with
  | [] => ret tt
  | x :: rest => body x ;; for_each rest body
  end.

Definition emit (e : Event) : M unit :=
  fun w =>
    (Ok tt, {| guilds := guilds w; subscriptions := subscriptions w;
               tick := tick w; trace := trace w ++ [e];
               total_updates := total_updates w |}).

Definition log (r : LogRecord) : M unit := emit (EvLog r).

(** Consult the outside: read the counter and advance it. *)
Definition consult : M nat :=
  fun w =>
    (Ok (tick w), {| guilds := guilds w; subscriptions := subscriptions w;
                     tick := S (tick w); trace := trace w;
                     total_updates := total_updates w |}).

Definition set_subscriptions (subs : list Subscription) : M unit :=
  fun w =>
    (Ok tt, {| guilds := guilds w; subscriptions := subs;
               tick := tick w; trace := trace w;
               total_updates := total_updates w |}).

Definition set_total_updates (n : nat) : M unit :=
  fun w =>
    (Ok tt, {| guilds := guilds w; subscriptions := subscriptions w;
               tick := tick w; trace := trace w;
               total_updates := n |}).

Definition read {A} (f : World -> A) : M A := fun w => (Ok (f w), w).

Definition with_last_checked (t : option Z) (s : Subscription) : Subscription :=
  {| sub_id := sub_id s; sub_guild_id := sub_guild_id s; tmdb_id := tmdb_id s;
     media_type := media_type s; sub_title := sub_title s;
     poster_path := poster_path s; last_checked := t;
     notify_on_release := notify_on_release s;
     notify_on_update := notify_on_update s |}.

Section AutoUpdate.

Variable env : Env.

(** [datetime.utcnow()] *)
Definition now : M Z :=
  k <- consult ;; ret (utcnow env k).

(** [select(Guild).where(Guild.auto_update_enabled == True)]; a NULL flag
    does not satisfy the comparison. *)
Definition select_enabled_guilds : M (list GuildData) :=
  k <- consult ;;
  emit EvSelectGuilds ;;
  if db_fails env k then raise DatabaseError
  else
    gs <- read guilds ;;
    ret (filter (fun g => match auto_update_enabled g with
                          | Some true => true
                          | _ => false
                          end) gs).

(** [Database.get_subscriptions(guild_id)] *)
Definition get_subscriptions (guild : Z) : M (list Subscription) :=
  k <- consult ;;
  emit (EvGetSubscriptions guild) ;;
  if db_fails env k then raise DatabaseError
  else
    subs <- read subscriptions ;;
    ret (filter (fun s => sub_guild_id s =? guild) subs).

(** [update(Subscription).where(Subscription.id == subscription.id)
      .values(last_checked=datetime.utcnow())], then [commit]. *)
Definition update_last_checked (subscription : Subscription) : M unit :=
  t <- now ;;
  k <- consult ;;
  if db_fails env k then raise DatabaseError
  else
    subs <- read subscriptions ;;
    set_subscriptions
      (map (fun s => if sub_id s =? sub_id subscription
                     then with_last_checked (Some t) s else s) subs) ;;
    emit (EvUpdateLastChecked (sub_id subscription) t).

(** [TMDBClient.get_movie_details], [TMDBClient.get_tv_details] *)
Definition get_movie_details (subscription : Subscription) : M Details :=
  k <- consult ;;
  emit (EvFetch (sub_id subscription) "movie" (tmdb_id subscription)) ;;
  lift (tmdb_request env k "movie" (tmdb_id subscription)).

Definition get_tv_details (subscription : Subscription) : M Details :=
  k <- consult ;;
  emit (EvFetch (sub_id subscription) "tv" (tmdb_id subscription)) ;;
  lift (tmdb_request env k "tv" (tmdb_id subscription)).

(** [await channel.send(content=content, embed=embed)] *)
Definition channel_send (subscription channel : Z) (content : option Z)
           (embed : Embed) : M unit :=
  k <- consult ;;
  emit (EvSend subscription channel content embed) ;;
  if send_fails env k then raise DiscordError else ret tt.

(** [await asyncio.sleep(0.5)] *)
Definition sleep : M unit := emit EvSleep.

(** *** [AutoUpdate._check_for_updates] *)

(** The string behind a value that passed [if x:]. *)
Definition str_of (x : option string) : string :=
  match x with
  | Some s => s
  | None => ""
  end.

(** [if next_air_date]: [None] and the empty object are falsy. *)
Definition truthy_episode (x : option Episode) : bool :=
  match x with
  | Some ep =>
      has (air_date ep) || has (season_number ep) || has (episode_number ep)
      || has (episode_name ep) || other_keys ep
  | None => false
  end.

(** [next_air_date.get('air_date')] *)
Definition get_air_date (x : option Episode) : option string :=
  match x with
  | Some ep => air_date ep
  | None => None
  end.

Definition status_is (details : Details) (name : string) : bool :=
  match status details with
  | Some s => String.eqb s name
  | None => false
  end.

Definition _check_for_updates (subscription : Subscription)
           (details : Details) : M (option Notification) :=
  if String.eqb (media_type subscription) "movie" then
    let release_date := release_date details in
    if truthy_str release_date
       && truthy_bool (notify_on_release subscription) then
      release_dt <- lift (DateTime.strptime (str_of release_date)) ;;
      if status_is details "Released" then
        t <- now ;;
        let days_since_release := DateTime.days (t - release_dt) in
        if within_interval (config env) days_since_release then
          ret (Some {| n_type := release;
                       n_date := str_of release_date;
                       n_title := d_title details;
                       n_episode := None |})
        else ret None
      else if status_is details "Post Production"
              || status_is details "In Production" then
        t <- now ;;
        let days_until_release := DateTime.days (release_dt - t) in
        if (0 <=? days_until_release) && (days_until_release <=? 7) then
          ret (Some {| n_type := upcoming;
                       n_date := str_of release_date;
                       n_title := d_title details;
                       n_episode := None |})
        else ret None
      else ret None
    else ret None
  else if String.eqb (media_type subscription) "tv" then
    let last_air_date := last_air_date details in
    let next_air_date := next_episode_to_air details in
    if truthy_episode next_air_date
       && truthy_bool (notify_on_update subscription) then
      let air_date := get_air_date next_air_date in
      if truthy_str air_date then
        air_dt <- lift (DateTime.strptime (str_of air_date)) ;;
        t <- now ;;
        let days_until_air := DateTime.days (air_dt - t) in
        if days_until_air =? 1 then
          ret (Some {| n_type := new_episode;
                       n_date := str_of air_date;
                       n_title := d_name details;
                       n_episode := next_air_date |})
        else ret None
      else ret None
    else if truthy_str last_air_date
            && truthy_bool (notify_on_update subscription) then
      last_dt <- lift (DateTime.strptime (str_of last_air_date)) ;;
      t <- now ;;
      let days_since_air := DateTime.days (t - last_dt) in
      if within_interval (config env) days_since_air then
        ret (Some {| n_type := episode_aired;
                     n_date := str_of last_air_date;
                     n_title := d_name details;
                     n_episode := None |})
      else ret None
    else ret None
  else ret None.

(** *** [AutoUpdate._send_notification] *)

Definition _send_notification (guild : DiscordGuild) (guild_data : GuildData)
           (subscription : Subscription) (notification : Notification)
  : M unit :=
  try_except
    (let channel_id := notification_channel_id guild_data in
     let channel :=
       if negb (truthy_int channel_id) then system_channel guild
       else match channel_id with
            | Some c => get_channel guild c
            | None => None
            end in
     match channel with
     | None => log (WarningNoChannel (dg_id guild))
     | Some channel =>
         (* the four templates; [create_embed_base] stamps the embed *)
         timestamp <- now ;;
         let embed :=
           {| e_template := n_type notification;
              e_title := n_title notification;
              e_date := n_date notification;
              e_episode := n_episode notification;
              e_thumbnail := if truthy_str (poster_path subscription)
                             then poster_path subscription else None;
              e_link := (media_type subscription, tmdb_id subscription);
              e_timestamp := timestamp |} in
         let content :=
           if truthy_int (notification_role_id guild_data)
              && NOTIFICATION_PING_ROLE (config env)
           then match notification_role_id guild_data with
                | Some r => get_role guild r
                | None => None
                end
           else None in
         channel_send (sub_id subscription) channel content embed ;;
         log (InfoSent (n_title notification) (dg_id guild))
     end)
    (fun e => log (ErrorSending e)).

(** *** [AutoUpdate.update_check] *)

(** The second half of the body of [for subscription in subscriptions]:
    what it does with the snapshot once fetched ([# Check for updates] to
    [# Rate limiting]). *)
Definition evaluate_and_record (guild : DiscordGuild) (guild_data : GuildData)
           (subscription : Subscription) (details : Details) : M unit :=
  emit (EvEvaluate (sub_id subscription)) ;;
  notification <- _check_for_updates subscription details ;;
  match notification with
  | Some n =>
      emit (EvDispatch (sub_id subscription)) ;;
      _send_notification guild guild_data subscription n ;;
      total <- read total_updates ;;
      set_total_updates (S total)
  | None => ret tt
  end ;;
  update_last_checked subscription ;;
  sleep.

(** The body of [for subscription in subscriptions], inside its [try]. *)
Definition check_subscription (guild : DiscordGuild) (guild_data : GuildData)
           (subscription : Subscription) : M unit :=
  fresh <- match last_checked subscription with
           | Some checked =>
               t <- now ;;
               let time_since_check := t - checked in
               ret (time_since_check
                    <? DateTime.timedelta_hours
                         (UPDATE_INTERVAL_HOURS (config env)))
           | None => ret false
           end ;;
  if fresh : bool then ret tt                       (* continue *)
  else
    details <- (if String.eqb (media_type subscription) "movie"
                then get_movie_details subscription
                else get_tv_details subscription) ;;
    evaluate_and_record guild guild_data subscription details.

(** One turn of [for subscription in subscriptions]: the body and its
    [except Exception]. *)
Definition subscription_iteration (guild : DiscordGuild)
           (guild_data : GuildData) (subscription : Subscription) : M unit :=
  try_except (check_subscription guild guild_data subscription)
             (fun e => log (ErrorSubscription (sub_id subscription) e)).

(** The body of [for guild_data in guilds], inside its [try]. *)
Definition check_guild (guild_data : GuildData) : M unit :=
  match get_guild env (guild_id guild_data) with
  | None => ret tt                                   (* continue *)
  | Some guild =>
      subs <- get_subscriptions (guild_id guild_data) ;;
      match subs with
      | [] => ret tt                                 (* continue *)
      | _ =>
          log (InfoChecking (List.length subs) (dg_name guild)) ;;
          for_each subs (subscription_iteration guild guild_data)
      end
  end.

Definition guild_iteration (guild_data : GuildData) : M unit :=
  try_except (check_guild guild_data)
             (fun e => log (ErrorGuild (guild_id guild_data) e)).

(** The body of [update_check], inside its [try]. *)
Definition update_check_body : M unit :=
  log InfoStarting ;;
  gs <- select_enabled_guilds ;;
  set_total_updates 0 ;;
  for_each gs guild_iteration ;;
  total <- read total_updates ;;
  log (InfoComplete total).

Definition update_check : M unit :=
  try_except update_check_body (fun e => log (ErrorTask e)).

End AutoUpdate.

(** ** The arithmetic of [float] *)

Module Float.

(** [2 ** e] *)
Definition pow2 (e : Z) : Q := (2 ^ e)%Q.

(** The integer part of the binary logarithm of a positive number. *)
Definition ilog2 (q : Q) : Z :=
  let e := Z.log2 (Qnum q) - Z.log2 (Zpos (Qden q)) in
  if Qle_bool (pow2 e) q then e else e - 1.

(** The nearest integer, the even one of two that are as near. *)
Definition rne (x : Q) : Z :=
  let f := Qfloor x in
  match (x - inject_Z f ?= 1 # 2)%Q with
  | Lt => f
  | Gt => f + 1
  | Eq => if Z.even f then f else f + 1
  end.

(** The exponent of the unit in which a positive number is rounded: 53
    significant bits, and no unit below [2 ** -1074]. *)
Definition exponent (q : Q) : Z := Z.max (ilog2 q - 52) (-1074).

(** A positive number rounded to a multiple of its unit. *)
Definition round_pos (q : Q) : Q :=
  (inject_Z (rne (q / pow2 (exponent q))) * pow2 (exponent q))%Q.

(** [float(q)], and the result of a [float] operation whose real result is
    [q]: the nearest double, the one with the even significand of two that
    are as near. *)
Definition binary64 (q : Q) : Q :=
  match Qnum q with
  | Z0 => 0%Q
  | Zpos _ => round_pos q
  | Zneg _ => (- round_pos (- q))%Q
  end.

(** The numbers a double holds: [m * 2 ** e] with less than 53 bits in [m]
    and [e] not below [-1074]. *)
Definition representable (q : Q) : Prop :=
  exists m e : Z,
    Z.abs m < 2 ^ 53 /\ -1074 <= e /\ (q == inject_Z m * pow2 e)%Q.

(** No rounding: the arithmetic of the rationals. *)
Definition unrounded (q : Q) : Q := q.

End Float.

Import Float.

(** ** [TMDBRateLimiter] ([services/tmdb_client.py]) *)

Module TMDBRateLimiter.

Record t : Type := {
  rate : Z;
  period : Z;
  allowance : Q;          (* an [int] or a [float] *)
  last_check : Z          (* a [datetime], in microseconds *)
}.

(** [TMDBRateLimiter(rate, period)] built at the instant [t0]. *)
Definition init (rate period t0 : Z) : t :=
  {| rate := rate; period := period;
     allowance := inject_Z rate; last_check := t0 |}.

Definition Qlt_bool (a b : Q) : bool := negb (Qle_bool b a).

Definition with_state (self : t) (a : Q) (c : Z) : t :=
  {| rate := rate self; period := period self;
     allowance := a; last_check := c |}.

Section Arithmetic.

(** The rounding of every [float] result: [Float.binary64] for the code as
    it runs, [Float.unrounded] for the same code over the rationals. *)
Variable rnd : Q -> Q.

(** [td.total_seconds()]: the microseconds over [10**6]. *)
Definition total_seconds (td : Z) : Q :=
  rnd (inject_Z td / inject_Z 1000000)%Q.

(** [a / b] on two [int]s. *)
Definition true_div (a b : Z) : Res Q :=
  if b =? 0 then Raise ZeroDivisionError
  else Ok (rnd (inject_Z a / inject_Z b))%Q.

(** [acquire], called when [datetime.now()] reads [current]. The result
    is the time slept ([None] when the call does not sleep), or the
    exception, and the limiter as the call leaves it. The comparisons of a
    [float] with the [int] [self.rate] and with [1.0] are exact; after the
    cap [self.allowance] is the [int] [self.rate], which the subtraction
    converts. *)
Definition acquire (self : t) (current : Z) : Res (option Q) * t :=
  let time_passed := total_seconds (current - last_check self) in
  match true_div (rate self) (period self) with
  | Raise e => (Raise e, with_state self (allowance self) current)
  | Ok per_second =>
      let a1 := rnd (rnd (allowance self) + rnd (time_passed * per_second))%Q in
      let capped := Qlt_bool (inject_Z (rate self)) a1 in
      let a2 := if capped then inject_Z (rate self) else a1 in
      let a2_float := if capped then rnd (inject_Z (rate self)) else a1 in
      if Qlt_bool a2 1 then
        match true_div (period self) (rate self) with
        | Raise e => (Raise e, with_state self a2 current)
        | Ok seconds_each =>
            let sleep_time := rnd (rnd (1 - a2_float) * seconds_each)%Q in
            (Ok (Some sleep_time), with_state self 0%Q current)
        end
      else (Ok None, with_state self (rnd (a2_float - 1))%Q current)
  end.

End Arithmetic.

End TMDBRateLimiter.

(** ** [TMDBClient._request]: the query parameters ([services/tmdb_client.py]) *)

Module TMDBClient.

(** The values the methods of the client put in a parameter dictionary. *)
Inductive Value : Type :=
| VNone
| VBool (b : bool)
| VInt (n : Z)
| VStr (s : string).

(** A [dict]: its items in insertion order. *)
Definition dict : Type := list (string * Value).

(** [d.get(k)] *)
Fixpoint get (d : dict) (k : string) : option Value :=
  match d with
  | [] => None
  | (k', v) :: rest => if String.eqb k' k then Some v else get rest k
  end.

(** [d[k] = v]: the item of an existing key is replaced where it is, a new
    key is added at the end. *)
Fixpoint set_item (d : dict) (k : string) (v : Value) : dict :=
  match d with
  | [] => [(k, v)]
  | (k', v') :: rest =>
      if String.eqb k' k then (k', v) :: rest
      else (k', v') :: set_item rest k v
  end.

(** [d.setdefault(k, v)] *)
Definition setdefault (d : dict) (k : string) (v : Value) : dict :=
  match get d k with
  | Some _ => d
  | None => d ++ [(k, v)]
  end.

(** [str(value).lower()] on a [bool]. *)
Definition str_lower (b : bool) : string := if b then "true" else "false".

(** One turn of the loop over [params.items()]. *)
Definition stringify (v : Value) : Value :=
  match v with
  | VBool b => VStr (str_lower b)
  | _ => v
  end.

(** The dictionary [_request] hands to [session.get], from the key of the
    client, the setting [TMDB_LANGUAGE] and the dictionary of the caller
    ([None] when the caller gives none). *)
Definition _request_params (api_key language : string) (params : option dict)
  : dict :=
  let params := match params with Some d => d | None => [] end in
  let params := set_item params "api_key" (VStr api_key) in
  let params := setdefault params "language" (VStr language) in
  map (fun item => (fst item, stringify (snd item))) params.

End TMDBClient.

(** ** [Database]: the subscription table ([core/database.py]) and the
    [subscribe] command ([cogs/subscriptions.py]) *)

Module Database.

(** What a method that calls [scalar_one_or_none] does: it returns, or
    raises [MultipleResultsFound]. *)
Inductive Outcome (A : Type) : Type :=
| Return (a : A)
| MultipleResultsFound.
Arguments Return {A} a.
Arguments MultipleResultsFound {A}.

(** [result.scalar_one_or_none()] *)
Definition scalar_one_or_none {A} (rows : list A) : Outcome (option A) :=
  match rows with
  | [] => Return None
  | [r] => Return (Some r)
  | _ => MultipleResultsFound
  end.

(** The [where] clause of [remove_subscription]. *)
Definition selects (guild tmdb : Z) (media : string) (s : Subscription) : bool :=
  (sub_guild_id s =? guild) && (tmdb_id s =? tmdb)
  && String.eqb (media_type s) media.

(** [Database.add_subscription], for an insert the database accepts: [key]
    is the primary key the database gives the row. The columns the call does
    not set take their defaults: [last_checked] is NULL, both flags are
    true. *)
Definition add_subscription (key : Z) (table : list Subscription)
           (guild tmdb : Z) (media title : string) (poster : option string)
  : Subscription * list Subscription :=
  let subscription :=
    {| sub_id := key; sub_guild_id := guild; tmdb_id := tmdb;
       media_type := media; sub_title := title; poster_path := poster;
       last_checked := None;
       notify_on_release := Some true; notify_on_update := Some true |} in
  (subscription, table ++ [subscription]).

(** [Database.remove_subscription]: the row is deleted by its primary
    key. *)
Definition remove_subscription (table : list Subscription)
           (guild tmdb : Z) (media : string)
  : Outcome bool * list Subscription :=
  match scalar_one_or_none (filter (selects guild tmdb media) table) with
  | MultipleResultsFound => (MultipleResultsFound, table)
  | Return None => (Return false, table)
  | Return (Some subscription) =>
      (Return true,
       filter (fun r => negb (sub_id r =? sub_id subscription)) table)
  end.

(** [subscribe], from the selection on: the test for an existing
    subscription, then the insert. The result tells whether a row was
    added. *)
Definition subscribe (key : Z) (table : list Subscription)
           (guild tmdb : Z) (media title : string) (poster : option string)
  : bool * list Subscription :=
  let existing := filter (fun s => sub_guild_id s =? guild) table in
  if existsb (fun s => (tmdb_id s =? tmdb) && String.eqb (media_type s) media)
             existing
  then (false, table)
  else (true, snd (add_subscription key table guild tmdb media title poster)).

End Database.

(** ** The vocabulary of the properties *)

(** *** Outcomes of the evaluator and of the dispatcher *)

(** The evaluator emits an outcome of kind [k]. *)
Definition emits (k : NotificationType) (r : Res (option Notification)) : Prop :=
  exists n, r = Ok (Some n) /\ n_type n = k.

(** The upper bound of the window as the specification words it:
    [ceil(update_interval_hours / 24)]. *)
Definition ceil_interval_days (cfg : Config) : Z :=
  - ((- UPDATE_INTERVAL_HOURS cfg) / 24).

(** The upper bound the code compares against, on integers:
    [floor(update_interval_hours / 24)]. *)
Definition floor_interval_days (cfg : Config) : Z :=
  UPDATE_INTERVAL_HOURS cfg / 24.

(** No [datetime] is the reading of the string. *)
Definition unparseable (x : string) : Prop :=
  forall dt, DateTime.strptime x <> Ok dt.

(** The dispatcher sent one message, to channel [c], and logged how the
    send ended. *)
Definition sent_to (w w' : World) (subscription c : Z) : Prop :=
  exists content embed outcome,
    trace w' = trace w ++ [EvSend subscription c content embed; EvLog outcome].

(** The dispatcher sent nothing and logged the warning. *)
Definition skipped_with_warning (w w' : World) (guild : Z) : Prop :=
  trace w' = trace w ++ [EvLog (WarningNoChannel guild)].

(** *** The rate limiter *)

(** The allowance after the refill and before the cap: the old allowance
    plus [elapsed * (rate / period)], every result rounded by [rnd]. *)
Definition refilled (rnd : Q -> Q) (self : TMDBRateLimiter.t) (current : Z)
  : Q :=
  rnd (rnd (TMDBRateLimiter.allowance self)
       + rnd (TMDBRateLimiter.total_seconds
                rnd (current - TMDBRateLimiter.last_check self)
              * rnd (inject_Z (TMDBRateLimiter.rate self)
                     / inject_Z (TMDBRateLimiter.period self))))%Q.

(** The allowance after the refill, in the words of the specification: the
    old allowance plus [elapsed * (rate / period)], capped at [rate]. *)
Definition replenished (rnd : Q -> Q) (self : TMDBRateLimiter.t) (current : Z)
  : Q :=
  Qmin (refilled rnd self current) (inject_Z (TMDBRateLimiter.rate self)).

(** *** One turn of the loop over the subscriptions *)

(** The staleness test of [update_check], as the clock answers it in [w]. *)
Definition is_fresh (env : Env) (s : Subscription) (w : World) : bool :=
  match last_checked s with
  | Some checked =>
      utcnow env (tick w) - checked
      <? DateTime.timedelta_hours (UPDATE_INTERVAL_HOURS (config env))
  | None => false
  end.

(** The value of the counter when the fetch for [s] is issued. *)
Definition fetch_tick (s : Subscription) (w : World) : nat :=
  match last_checked s with
  | Some _ => S (tick w)
  | None => tick w
  end.

Definition endpoint (s : Subscription) : string :=
  if String.eqb (media_type s) "movie" then "movie" else "tv".

(** The world once the fetch for [s] has been issued from [w]. *)
Definition after_fetch (s : Subscription) (w : World) : World :=
  {| guilds := guilds w; subscriptions := subscriptions w;
     tick := S (fetch_tick s w);
     trace := trace w ++ [EvFetch (sub_id s) (endpoint s) (tmdb_id s)];
     total_updates := total_updates w |}.

(** A subscription that is due whenever its turn comes: in particular one
    that was never checked. *)
Definition due (env : Env) (s : Subscription) : Prop :=
  forall w, is_fresh env s w = false.

(** The element [x] had its turn: the loop ran [body x] in some world, and
    what the trace was after that turn is the beginning of the trace [w']
    ends with. *)
Definition turn_taken {X} (body : X -> M unit) (x : X) (w' : World) : Prop :=
  exists w1 rest, trace w' = trace (snd (body x w1)) ++ rest.

(** *** Frames: what a piece of the poll loop may touch *)

(** The subscription an event is about, and the guild whose subscriptions
    an event loads. *)
Definition event_subscription (e : Event) : option Z :=
  match e with
  | EvFetch s _ _ | EvEvaluate s | EvDispatch s | EvSend s _ _ _
  | EvUpdateLastChecked s _ => Some s
  | _ => None
  end.

Definition event_guild (e : Event) : option Z :=
  match e with
  | EvGetSubscriptions g => Some g
  | _ => None
  end.

(** An event that concerns at most the subscription [sid]. *)
Definition local_to (sid : Z) (e : Event) : Prop :=
  event_guild e = None
  /\ (event_subscription e = None \/ event_subscription e = Some sid).

(** A row after a step: untouched, or, if [P] allows its key, the same row
    with another [last_checked]. *)
Definition row_rel (P : Z -> Prop) (r r' : Subscription) : Prop :=
  r' = r \/ (P (sub_id r) /\ exists t, r' = with_last_checked t r).

(** [frame A P w w']: from [w] to [w'] the guild table is the same, the
    counter did not go back, the trace grew by events that satisfy [A], and
    the subscription table has the same rows in the same order, up to the
    [last_checked] of rows whose key satisfies [P]. *)
Record frame (A : Event -> Prop) (P : Z -> Prop) (w w' : World) : Prop := {
  frame_guilds : guilds w' = guilds w;
  frame_tick : (tick w <= tick w')%nat;
  frame_trace : exists new, trace w' = trace w ++ new /\ Forall A new;
  frame_rows : Forall2 (row_rel P) (subscriptions w) (subscriptions w')
}.

(** A computation that stays within the frame, whatever it returns. *)
Definition framed (A : Event -> Prop) (P : Z -> Prop) {X} (m : M X) : Prop :=
  forall w, frame A P w (snd (m w)).

(** Invariants: [keeps I m] when [m] leads from a world in [I] to a world
    in [I], whatever it returns; [returns I m Q] when, from a world in [I],
    what [m] returns satisfies [Q]. *)
Definition keeps (I : World -> Prop) {X} (m : M X) : Prop :=
  forall w, I w -> I (snd (m w)).

Definition returns (I : World -> Prop) {X} (m : M X) (Q : X -> Prop) : Prop :=
  forall w x, I w -> fst (m w) = Ok x -> Q x.

(** From [w] to [w'] nothing happened to the guild [g]: its subscriptions
    were not loaded, no event is about one of them, and its rows of the
    subscription table are what they were. *)
Definition guild_left_alone (g : Z) (w w' : World) : Prop :=
  filter (fun s => sub_guild_id s =? g) (subscriptions w')
  = filter (fun s => sub_guild_id s =? g) (subscriptions w)
  /\ exists new,
      trace w' = trace w ++ new
      /\ forall e, In e new ->
                   event_guild e <> Some g
                   /\ forall s, In s (subscriptions w) -> sub_guild_id s = g ->
                                event_subscription e <> Some (sub_id s).

(** [sid] is the key of a subscription of the guild [g] in [w]. *)
Definition in_guild (w : World) (g : Z) (sid : Z) : Prop :=
  exists r, In r (subscriptions w) /\ sub_id r = sid /\ sub_guild_id r = g.

(** *** The trace of one turn *)

(** The calls of the dispatcher among some events. *)
Fixpoint count_dispatch (evs : list Event) : nat :=
  match evs with
  | [] => O
  | EvDispatch _ :: rest => S (count_dispatch rest)
  | _ :: rest => count_dispatch rest
  end.

(** What the dispatch of one decided notification adds to the trace: the
    call, then the warning, or one send and the log of how it ended. *)
Inductive dispatch_trace (s : Subscription) : list Event -> Prop :=
| dispatch_none : dispatch_trace s []
| dispatch_warned (g : Z) :
    dispatch_trace s [EvDispatch (sub_id s); EvLog (WarningNoChannel g)]
| dispatch_delivered (c : Z) (content : option Z) (embed : Embed)
                     (title : option string) (g : Z) :
    dispatch_trace s [EvDispatch (sub_id s);
                      EvSend (sub_id s) c content embed;
                      EvLog (InfoSent title g)]
| dispatch_failed (c : Z) (content : option Z) (embed : Embed) (e : Exn) :
    dispatch_trace s [EvDispatch (sub_id s);
                      EvSend (sub_id s) c content embed;
                      EvLog (ErrorSending e)].

(** What one turn of the loop over the subscriptions adds to the trace. *)
Inductive turn_trace (s : Subscription) : list Event -> Prop :=
| turn_skipped : turn_trace s []
| turn_fetch_failed (e : Exn) :
    turn_trace s [EvFetch (sub_id s) (endpoint s) (tmdb_id s);
                  EvLog (ErrorSubscription (sub_id s) e)]
| turn_recorded (disp : list Event) (t : Z) :
    dispatch_trace s disp ->
    turn_trace s ([EvFetch (sub_id s) (endpoint s) (tmdb_id s);
                   EvEvaluate (sub_id s)]
                  ++ disp
                  ++ [EvUpdateLastChecked (sub_id s) t; EvSleep])
| turn_interrupted (disp : list Event) (e : Exn) :
    (* the evaluator, or the write of [last_checked], raised *)
    dispatch_trace s disp ->
    turn_trace s ([EvFetch (sub_id s) (endpoint s) (tmdb_id s);
                   EvEvaluate (sub_id s)]
                  ++ disp
                  ++ [EvLog (ErrorSubscription (sub_id s) e)]).

(** [w] after [dt] more consultations, the events [evs] and [du] more
    notifications counted. *)
Definition extend (w : World) (dt : nat) (evs : list Event) (du : nat) : World :=
  {| guilds := guilds w; subscriptions := subscriptions w;
     tick := tick w + dt; trace := trace w ++ evs;
     total_updates := total_updates w + du |}.

(** [w] after [last_checked] of the rows with key [sid] is set to [t]. *)
Definition write_last_checked (sid t : Z) (w : World) : World :=
  {| guilds := guilds w;
     subscriptions :=
       map (fun r => if sub_id r =? sid then with_last_checked (Some t) r
                     else r) (subscriptions w);
     tick := tick w; trace := trace w; total_updates := total_updates w |}.

(** *** What a whole cycle may do *)

(** Among the events [evs], whatever concerns a subscription comes after a
    fetch for that subscription, or is such a fetch. *)
Definition fetched_before (evs : list Event) : Prop :=
  forall pre e post sid,
    evs = pre ++ e :: post ->
    event_subscription e = Some sid ->
    (exists ep tm, e = EvFetch sid ep tm)
    \/ (exists ep tm, In (EvFetch sid ep tm) pre).

(** The messages handed to Discord among some events. *)
Fixpoint count_send (evs : list Event) : nat :=
  match evs with
  | [] => O
  | EvSend _ _ _ _ :: rest => S (count_send rest)
  | _ :: rest => count_send rest
  end.

(** Fetches come first, and no more messages are handed to Discord than the
    dispatcher was called. *)
Definition orderly (evs : list Event) : Prop :=
  fetched_before evs /\ (count_send evs <= count_dispatch evs)%nat.

(** A row after some steps: the same, or the same with [last_checked] set
    to a reading of the clock taken at a consultation from [lo] on and
    before [hi]. *)
Definition row_checked (env : Env) (lo hi : nat) (r r' : Subscription) : Prop :=
  r' = r
  \/ exists k, (lo <= k < hi)%nat
               /\ r' = with_last_checked (Some (utcnow env k)) r.

(** From [w] to [w']: the guild table is the same; the trace grew by
    orderly events; the count of notifications grew by the
    number of dispatches among them; the subscription table has the same
    rows in the same order, some with a new [last_checked]. *)
Record cycle_step (env : Env) (w w' : World) : Prop := {
  step_guilds : guilds w' = guilds w;
  step_tick : (tick w <= tick w')%nat;
  step_trace :
    exists new, trace w' = trace w ++ new
                /\ total_updates w'
                   = (total_updates w + count_dispatch new)%nat
                /\ orderly new;
  step_rows :
    Forall2 (row_checked env (tick w) (tick w'))
            (subscriptions w) (subscriptions w')
}.

(** A computation all of whose runs are related by [R]. *)
Definition respects (R : World -> World -> Prop) {X} (m : M X) : Prop :=
  forall w, R w (snd (m w)).

(** *** Successive calls of the rate limiter *)

(** A limiter and an instant of a call with which no result of [acquire]
    comes near the largest double: the period and the allowance are at most
    [2 ** 53] in magnitude, and the instant is less than [2 ** 63]
    microseconds from the last check, as any two [datetime]s are. *)
Definition moderate (self : TMDBRateLimiter.t) (current : Z) : Prop :=
  Z.abs (TMDBRateLimiter.period self) <= 2 ^ 53
  /\ (- inject_Z (2 ^ 53) <= TMDBRateLimiter.allowance self
      <= inject_Z (2 ^ 53))%Q
  /\ Z.abs (current - TMDBRateLimiter.last_check self) <= 2 ^ 63.

(** The calls of [acquire] at the instants [instants], one after the other
    as the lock orders them: what each call returned, and the limiter as the
    last one leaves it. *)
Fixpoint acquire_each (rnd : Q -> Q) (self : TMDBRateLimiter.t)
         (instants : list Z) : list (Res (option Q)) * TMDBRateLimiter.t :=
  match instants with
  | [] => ([], self)
  | current :: rest =>
      let (r, self1) := TMDBRateLimiter.acquire rnd self current in
      let (rs, self2) := acquire_each rnd self1 rest in
      (r :: rs, self2)
  end.

(** A call that returned without sleeping. *)
Definition immediate (r : Res (option Q)) : bool :=
  match r with
  | Ok None => true
  | _ => false
  end.


(** Tokens per second. *)
Definition per_second (self : TMDBRateLimiter.t) : Q :=
  (inject_Z (TMDBRateLimiter.rate self)
   / inject_Z (TMDBRateLimiter.period self))%Q.

(** *** The subscription table *)

(** What identifies a subscription for the commands: the guild, the TMDB
    identifier and the media type. *)
Definition title_key (s : Subscription) : Z * Z * string :=
  (sub_guild_id s, tmdb_id s, media_type s).

(** [w] with another subscription table. *)
Definition with_subscriptions (table : list Subscription) (w : World) : World :=
  {| guilds := guilds w; subscriptions := table; tick := tick w;
     trace := trace w; total_updates := total_updates w |}.

(** *** What a run adds to the trace *)

(** Among what [w'] added to the trace of [w] there is an event that
    satisfies [Q]. *)
Definition adds (Q : Event -> Prop) (w w' : World) : Prop :=
  exists pre e post, Q e /\ trace w' = trace w ++ pre ++ e :: post.

(** The channel the dispatcher posts in: the system channel of the guild
    when no channel is configured, the configured channel when the guild
    has it. *)
Definition destination (g : DiscordGuild) (gd : GuildData) : option Z :=
  if negb (truthy_int (notification_channel_id gd)) then system_channel g
  else match notification_channel_id gd with
       | Some c => get_channel g c
       | None => None
       end.

(** The event [e] is a message about the subscription [s] posted in the
    channel [c], with the type, the title and the date of the notification
    [n]. *)
Definition message_for (s : Subscription) (n : Notification) (c : Z)
           (e : Event) : Prop :=
  exists content embed,
    e = EvSend (sub_id s) c content embed
    /\ e_template embed = n_type n
    /\ e_title embed = n_title n
    /\ e_date embed = n_date n.

(** *** A cycle with nothing to do *)

(** From [w] to [w'], if the subscription table was [table]: it still is,
    as many notifications are counted, and the trace grew by events that are
    about no subscription. *)
Definition quiet_step (table : list Subscription) (w w' : World) : Prop :=
  subscriptions w = table ->
  subscriptions w' = table
  /\ total_updates w' = total_updates w
  /\ exists new, trace w' = trace w ++ new
                 /\ Forall (fun e => event_subscription e = None) new.

(** *** The cycle as turns *)

(** The turns of a loop, one after the other: each starts in the world the
    one before it left, whatever that one returned or raised. *)
Fixpoint turns {X} (body : X -> M unit) (xs : list X) (w : World) : World :=
  match xs with
  | [] => w
  | x :: rest => turns body rest (snd (body x w))
  end.

(** The rows the query of the cycle selects. *)
Definition enabled_guilds (gs : list GuildData) : list GuildData :=
  filter (fun g => match auto_update_enabled g with
                   | Some true => true
                   | _ => false
                   end) gs.

(** The world in which the loop over the guilds starts: the start of the
    cycle is logged, the guilds are selected, nothing is counted. *)
Definition after_select (w : World) : World :=
  {| guilds := guilds w; subscriptions := subscriptions w;
     tick := S (tick w);
     trace := trace w ++ [EvLog InfoStarting; EvSelectGuilds];
     total_updates := 0 |}.

(** [w] with the closing line of the cycle logged. *)
Definition closing (w : World) : World :=
  extend w 0 [EvLog (InfoComplete (total_updates w))] 0.

(** The subscriptions of the guild [gd] in the table of [w]. *)
Definition loaded (gd : GuildData) (w : World) : list Subscription :=
  filter (fun s => sub_guild_id s =? guild_id gd) (subscriptions w).

(** The world in which the loop over the subscriptions of [gd] starts, when
    the turn of [gd] starts in [w]: the subscriptions are loaded, and their
    number is logged when there are some. *)
Definition after_load (g : DiscordGuild) (gd : GuildData) (w : World) : World :=
  match loaded gd w with
  | [] => extend w 1 [EvGetSubscriptions (guild_id gd)] 0
  | _ :: _ =>
      extend (extend w 1 [EvGetSubscriptions (guild_id gd)] 0) 0
             [EvLog (InfoChecking (List.length (loaded gd w)) (dg_name g))] 0
  end.

(** The turn of the subscription [s] from [w] survives what its body does:
    it returns; an exception of its body is logged after what the body did;
    and when [s] is due its metadata are requested, the failure of the
    request is logged, and the metadata it returns are evaluated. *)
Definition subscription_turn_survives (env : Env) (g : DiscordGuild)
           (gd : GuildData) (s : Subscription) (w : World) : Prop :=
  fst (subscription_iteration env g gd s w) = Ok tt
  /\ (forall e,
         fst (check_subscription env g gd s w) = Raise e ->
         snd (subscription_iteration env g gd s w)
         = extend (snd (check_subscription env g gd s w)) 0
                  [EvLog (ErrorSubscription (sub_id s) e)] 0)
  /\ (is_fresh env s w = false ->
      match tmdb_request env (fetch_tick s w) (endpoint s) (tmdb_id s) with
      | Raise e =>
          trace (snd (subscription_iteration env g gd s w))
          = trace w ++ [EvFetch (sub_id s) (endpoint s) (tmdb_id s);
                        EvLog (ErrorSubscription (sub_id s) e)]
      | Ok _ =>
          exists rest,
            trace (snd (subscription_iteration env g gd s w))
            = trace w ++ EvFetch (sub_id s) (endpoint s) (tmdb_id s)
                      :: EvEvaluate (sub_id s) :: rest
      end).

(** The turn of the guild [gd] from [w] survives what its body does: it
    returns; an exception of its body is logged after what the body did;
    and when the client resolves the guild and the database answers the
    load, the turn is the turns of all the subscriptions of the guild, each
    of which survives. *)
Definition guild_turn_survives (env : Env) (gd : GuildData) (w : World) : Prop :=
  fst (guild_iteration env gd w) = Ok tt
  /\ (forall e,
         fst (check_guild env gd w) = Raise e ->
         snd (guild_iteration env gd w)
         = extend (snd (check_guild env gd w)) 0
                  [EvLog (ErrorGuild (guild_id gd) e)] 0)
  /\ (forall g,
         get_guild env (guild_id gd) = Some g ->
         db_fails env (tick w) = false ->
         snd (guild_iteration env gd w)
         = turns (subscription_iteration env g gd) (loaded gd w)
                 (after_load g gd w)
         /\ forall pre s post,
             loaded gd w = pre ++ s :: post ->
             subscription_turn_survives
               env g gd s
               (turns (subscription_iteration env g gd) pre
                      (after_load g gd w))).

(** ** Concrete data for the examples *)

Module Examples.

Definition cfg6 : Config :=
  {| UPDATE_INTERVAL_HOURS := 6; NOTIFICATION_PING_ROLE := true |}.

(** 2024-03-10T00:00:00 and later instants of the same week. *)
Definition mar10 : Z := 63845625600000000.
Definition mar10_noon : Z := mar10 + 12 * DateTime.us_per_hour.
Definition mar11_noon : Z := mar10 + 36 * DateTime.us_per_hour.

(** An outside in which the clock stands at [clock], every fetch answers
    [answer], the database works, and sends fail when [send_down]. *)
Definition env_of (clock : Z) (answer : Res Details) (send_down : bool)
           (g : option DiscordGuild) : Env :=
  {| config := cfg6;
     utcnow := fun _ => clock;
     tmdb_request := fun _ _ _ => answer;
     db_fails := fun _ => false;
     send_fails := fun _ => send_down;
     get_guild := fun _ => g |}.

Definition matrix : Subscription :=
  {| sub_id := 1; sub_guild_id := 10; tmdb_id := 603;
     media_type := "movie"; sub_title := "The Matrix";
     poster_path := Some "/m.jpg"; last_checked := None;
     notify_on_release := Some true; notify_on_update := Some true |}.

Definition matrix_details (date : string) : Details :=
  {| release_date := Some date; status := Some "Released";
     d_title := Some "The Matrix"; d_name := None;
     last_air_date := None; next_episode_to_air := None |}.

Definition severance : Subscription :=
  {| sub_id := 2; sub_guild_id := 10; tmdb_id := 95396;
     media_type := "tv"; sub_title := "Severance";
     poster_path := None; last_checked := None;
     notify_on_release := Some true; notify_on_update := Some true |}.

Definition episode_on (date : string) : Episode :=
  {| air_date := Some date; season_number := Some 2;
     episode_number := Some 4; episode_name := Some "Woe's Hollow";
     other_keys := true |}.

(** The object [{}]. *)
Definition empty_object : Episode :=
  {| air_date := None; season_number := None; episode_number := None;
     episode_name := None; other_keys := false |}.

Definition severance_details (last : option string) (next : option Episode)
  : Details :=
  {| release_date := None; status := Some "Returning Series";
     d_title := None; d_name := Some "Severance";
     last_air_date := last; next_episode_to_air := next |}.

(** The last episode aired on 2024-03-10, and the snapshot has the empty
    object under [next_episode_to_air]. *)
Definition severance_after_finale : Details :=
  severance_details (Some "2024-03-10") (Some empty_object).

Definition severance_aired : Notification :=
  {| n_type := episode_aired; n_date := "2024-03-10";
     n_title := Some "Severance"; n_episode := None |}.

Definition home : DiscordGuild :=
  {| dg_id := 10; dg_name := "Film Club"; system_channel := Some 100;
     channels := [100; 200]; roles := [7] |}.

Definition home_data (channel : option Z) (enabled : option bool) : GuildData :=
  {| guild_id := 10; guild_name := "Film Club";
     notification_channel_id := channel; notification_role_id := Some 7;
     auto_update_enabled := enabled |}.

Definition matrix_released : Notification :=
  {| n_type := release; n_date := "2024-03-10";
     n_title := Some "The Matrix"; n_episode := None |}.

(** A second guild, which the bot is no longer a member of. *)
Definition other_data (enabled : option bool) : GuildData :=
  {| guild_id := 20; guild_name := "Series Night";
     notification_channel_id := None; notification_role_id := None;
     auto_update_enabled := enabled |}.

Definition severance_of_other : Subscription :=
  {| sub_id := 3; sub_guild_id := 20; tmdb_id := 95396;
     media_type := "tv"; sub_title := "Severance";
     poster_path := None; last_checked := None;
     notify_on_release := Some true; notify_on_update := Some true |}.

(** As [env_of], with a client that knows the guild 10 only. *)
Definition env_home (clock : Z) (answer : Res Details) (send_down : bool) : Env :=
  {| config := cfg6;
     utcnow := fun _ => clock;
     tmdb_request := fun _ _ _ => answer;
     db_fails := fun _ => false;
     send_fails := fun _ => send_down;
     get_guild := fun id => if id =? 10 then Some home else None |}.

(** A client that resolves every guild, and a database that is down at the
    consultations [down] selects. *)
Definition env_db_down (down : nat -> bool) : Env :=
  {| config := cfg6;
     utcnow := fun _ => mar10_noon;
     tmdb_request := fun _ _ _ => Ok (matrix_details "2024-03-10");
     db_fails := down;
     send_fails := fun _ => false;
     get_guild := fun _ => Some home |}.

(** [n] acquisitions in a row at the same instant. *)
Fixpoint burst (n : nat) (self : TMDBRateLimiter.t) (current : Z)
  : TMDBRateLimiter.t :=
  match n with
  | O => self
  | S n' =>
      burst n' (snd (TMDBRateLimiter.acquire binary64 self current)) current
  end.

(** A movie snapshot with the given status and release date. *)
Definition movie_details (st date : string) : Details :=
  {| release_date := Some date; status := Some st;
     d_title := Some "Dune: Part Two"; d_name := None;
     last_air_date := None; next_episode_to_air := None |}.

Definition mar17 : Z := mar10 + 7 * DateTime.us_per_day.

(** The second guild, as the client resolves it. *)
Definition series_night : DiscordGuild :=
  {| dg_id := 20; dg_name := "Series Night"; system_channel := None;
     channels := []; roles := [] |}.

(** A client that resolves both guilds, a database that is down at the
    second consultation only, and a network that fails for the title 603
    and answers for the others. *)
Definition env_flaky : Env :=
  {| config := cfg6;
     utcnow := fun _ => mar10_noon;
     tmdb_request := fun _ _ id => if id =? 603 then Raise ClientError
                                   else Ok severance_after_finale;
     db_fails := fun k => Nat.eqb k 1;
     send_fails := fun _ => false;
     get_guild := fun id => if id =? 10 then Some home
                            else Some series_night |}.

Definition world_of (gs : list GuildData) (subs : list Subscription) : World :=
  {| guilds := gs; subscriptions := subs; tick := 0; trace := [];
     total_updates := 0 |}.

End Examples.

(** * Properties *)

(** ** The evaluator's windows *)

Lemma within_interval_spec (cfg : Config) (d : Z) :
  within_interval cfg d = true <-> 0 <= d <= floor_interval_days cfg.
Proof.
  unfold within_interval, floor_interval_days, interval_in_days.
  rewrite andb_true_iff, Z.leb_le, Qle_bool_iff.
  assert (E : (inject_Z d <= inject_Z (UPDATE_INTERVAL_HOURS cfg) / inject_Z 24)%Q
              <-> d * 24 <= UPDATE_INTERVAL_HOURS cfg).
  { unfold Qle, Qdiv, Qmult, Qinv, inject_Z. simpl. lia. }
  rewrite E. split; intros [H0 H1]; split; try assumption.
  - apply Z.div_le_lower_bound; lia.
  - pose proof (Z.mul_div_le (UPDATE_INTERVAL_HOURS cfg) 24). lia.
Qed.

Lemma within_interval_false (cfg : Config) (d : Z) :
  within_interval cfg d = false <-> ~ (0 <= d <= floor_interval_days cfg).
Proof.
  rewrite <- within_interval_spec. destruct (within_interval cfg d); split;
    intros; try congruence; try tauto.
Qed.

Lemma strptime_ok_truthy (s : string) (dt : Z) :
  DateTime.strptime s = Ok dt -> truthy_str (Some s) = true.
Proof.
  intros H. unfold truthy_str. destruct (String.eqb_spec s ""); [|reflexivity].
  subst s. discriminate H.
Qed.

Lemma strptime_raises_ValueError (s : string) (e : Exn) :
  DateTime.strptime s = Raise e -> e = ValueError.
Proof.
  unfold DateTime.strptime, DateTime.datetime.
  destruct (DateTime.format_regex_match _) as [[[[y m] dd] [|c r]]|];
    try (intros H; congruence).
  destruct (_ && _); intros H; congruence.
Qed.

Lemma emits_inv (k : NotificationType) (n : Notification) :
  emits k (Ok (Some n)) <-> n_type n = k.
Proof.
  split.
  - intros [n' [E T]]. inversion E; subst; reflexivity.
  - intros T. exists n. split; [reflexivity | exact T].
Qed.

Lemma emits_none (k : NotificationType) : ~ emits k (Ok None).
Proof. intros [n [E _]]. discriminate E. Qed.

Lemma emits_raise (k : NotificationType) (e : Exn) : ~ emits k (Raise e).
Proof. intros [n [E _]]. discriminate E. Qed.

Section EvaluatorWindows.

Variable env : Env.
Variable w : World.
Variable s : Subscription.
Variable d : Details.

Let clock : Z := utcnow env (tick w).

Lemma release_branch (rel : string) (dt : Z) :
  media_type s = "movie" ->
  notify_on_release s = Some true ->
  status d = Some "Released" ->
  release_date d = Some rel ->
  DateTime.strptime rel = Ok dt ->
  fst (_check_for_updates env s d w)
  = if within_interval (config env) (DateTime.days (clock - dt))
    then Ok (Some {| n_type := release; n_date := rel;
                     n_title := d_title d; n_episode := None |})
    else Ok None.
Proof.
  intros Hm Hn Hs Hr Hp.
  unfold _check_for_updates, status_is.
  rewrite Hm, Hn, Hs, Hr. cbn [String.eqb Ascii.eqb Bool.eqb truthy_bool str_of].
  rewrite (strptime_ok_truthy _ Hp). cbn [andb].
  unfold bind, lift, now, consult, ret. rewrite Hp. cbn.
  fold clock.
  destruct (within_interval (config env) (DateTime.days (clock - dt)));
    reflexivity.
Qed.

(** A series whose snapshot has no [next_episode_to_air], or an empty
    one. *)
Lemma episode_aired_branch (last : string) (dt : Z) :
  media_type s = "tv" ->
  notify_on_update s = Some true ->
  truthy_episode (next_episode_to_air d) = false ->
  last_air_date d = Some last ->
  DateTime.strptime last = Ok dt ->
  fst (_check_for_updates env s d w)
  = if within_interval (config env) (DateTime.days (clock - dt))
    then Ok (Some {| n_type := episode_aired; n_date := last;
                     n_title := d_name d; n_episode := None |})
    else Ok None.
Proof.
  intros Hm Hn Hx Hl Hp.
  unfold _check_for_updates.
  rewrite Hm, Hn, Hx, Hl.
  cbn [String.eqb Ascii.eqb Bool.eqb truthy_bool str_of andb].
  rewrite (strptime_ok_truthy _ Hp). cbn [andb].
  unfold bind, lift, now, consult, ret. rewrite Hp. cbn.
  fold clock.
  destruct (within_interval (config env) (DateTime.days (clock - dt)));
    reflexivity.
Qed.

(** A series whose snapshot has a [next_episode_to_air] that is not empty:
    only the [new_episode] rule is tried. *)
Lemma next_episode_branch (ep : Episode) :
  media_type s = "tv" ->
  notify_on_update s = Some true ->
  next_episode_to_air d = Some ep ->
  truthy_episode (Some ep) = true ->
  fst (_check_for_updates env s d w)
  = if truthy_str (air_date ep) then
      match DateTime.strptime (str_of (air_date ep)) with
      | Ok air_dt =>
          if DateTime.days (air_dt - clock) =? 1
          then Ok (Some {| n_type := new_episode;
                           n_date := str_of (air_date ep);
                           n_title := d_name d; n_episode := Some ep |})
          else Ok None
      | Raise e => Raise e
      end
    else Ok None.
Proof.
  intros Hm Hn Hx Ht.
  unfold _check_for_updates.
  rewrite Hm, Hn, Hx, Ht.
  cbn [String.eqb Ascii.eqb Bool.eqb truthy_bool andb get_air_date].
  destruct (truthy_str (air_date ep)); [|reflexivity].
  unfold bind, lift, now, consult, ret.
  destruct (DateTime.strptime (str_of (air_date ep))); [|reflexivity].
  cbn. fold clock.
  destruct (DateTime.days (a - clock) =? 1); reflexivity.
Qed.

End EvaluatorWindows.

(** C1 (amended). For a movie subscription with [notify_on_release] true, a
    fetched status "Released" and a parseable [release_date], the evaluator
    emits a [release] outcome exactly when the whole days from the release
    date to now satisfy [0 <= days <= floor(update_interval_hours / 24)],
    and returns no notification otherwise; with the default interval of 6
    hours the window is the single value [days = 0]. *)
Theorem release_window_is_floor (env : Env) (w : World) (s : Subscription)
        (d : Details) (rel : string) (dt : Z) :
  media_type s = "movie" ->
  notify_on_release s = Some true ->
  status d = Some "Released" ->
  release_date d = Some rel ->
  DateTime.strptime rel = Ok dt ->
  (emits release (fst (_check_for_updates env s d w))
   <-> 0 <= DateTime.days (utcnow env (tick w) - dt)
            <= floor_interval_days (config env))
  /\ (~ 0 <= DateTime.days (utcnow env (tick w) - dt)
            <= floor_interval_days (config env) ->
      fst (_check_for_updates env s d w) = Ok None)
  /\ (UPDATE_INTERVAL_HOURS (config env) = 6 ->
      (emits release (fst (_check_for_updates env s d w))
       <-> DateTime.days (utcnow env (tick w) - dt) = 0)).
Proof.
  intros Hm Hn Hs Hr Hp.
  rewrite (release_branch env w s d Hm Hn Hs Hr Hp).
  assert (D : UPDATE_INTERVAL_HOURS (config env) = 6 ->
              floor_interval_days (config env) = 0).
  { intros H. unfold floor_interval_days. rewrite H. reflexivity. }
  destruct (within_interval (config env)
              (DateTime.days (utcnow env (tick w) - dt))) eqn:E.
  - apply within_interval_spec in E.
    split; [|split].
    + split; [intros _; exact E | intros _; apply emits_inv; reflexivity].
    + intros N. contradiction.
    + intros H. rewrite (D H) in E.
      split; [intros _; lia | intros _; apply emits_inv; reflexivity].
  - apply within_interval_false in E.
    split; [|split].
    + split; [intros X; destruct (emits_none X) | intros X; contradiction].
    + intros _. reflexivity.
    + intros H. rewrite (D H) in E.
      split; [intros X; destruct (emits_none X) | intros X; exfalso; lia].
Qed.

Lemma release_window_is_floor_witness :
  emits release
    (fst (_check_for_updates
            (Examples.env_of Examples.mar10_noon
               (Ok (Examples.matrix_details "2024-03-10")) false None)
            Examples.matrix (Examples.matrix_details "2024-03-10")
            (Examples.world_of [] []))).
Proof.
  apply (proj1 (release_window_is_floor
                  (Examples.env_of Examples.mar10_noon
                     (Ok (Examples.matrix_details "2024-03-10")) false None)
                  (Examples.world_of [] []) Examples.matrix
                  (Examples.matrix_details "2024-03-10")
                  (rel := "2024-03-10") (dt := Examples.mar10)
                  eq_refl eq_refl eq_refl eq_refl eq_refl)).
  vm_compute. split; discriminate.
Defined.

(** C1, as stated, fails: one day and a half after the release date, with
    the default interval of 6 hours, [days = 1] lies in the window
    [0 <= days <= ceil(6 / 24) = 1], and no release outcome is emitted. *)
Lemma release_window_ceil_counterexample :
  DateTime.strptime "2024-03-10" = Ok Examples.mar10
  /\ ~ (emits release
         (fst (_check_for_updates
                 (Examples.env_of Examples.mar11_noon
                    (Ok (Examples.matrix_details "2024-03-10")) false None)
                 Examples.matrix (Examples.matrix_details "2024-03-10")
                 (Examples.world_of [] [])))
       <-> 0 <= DateTime.days (Examples.mar11_noon - Examples.mar10)
             <= ceil_interval_days Examples.cfg6).
Proof.
  split; [reflexivity|].
  intros [_ H].
  assert (W : 0 <= DateTime.days (Examples.mar11_noon - Examples.mar10)
              <= ceil_interval_days Examples.cfg6)
    by (vm_compute; split; discriminate).
  destruct (H W) as [n [E _]]. vm_compute in E. discriminate E.
Qed.

(** C2 (amended). For a series subscription with [notify_on_update] true:
    when the snapshot has no [next_episode_to_air], or an empty one, and a
    parseable [last_air_date], the evaluator emits an [episode_aired]
    outcome exactly when
    [0 <= (now - last_air_date).days <= floor(update_interval_hours / 24)];
    when the snapshot has a [next_episode_to_air] that is not empty, no
    [episode_aired] outcome is emitted, whatever the air date of that
    episode. *)
Theorem episode_aired_only_without_next_episode
        (env : Env) (w : World) (s : Subscription) (d : Details) :
  media_type s = "tv" ->
  notify_on_update s = Some true ->
  (forall last dt,
      truthy_episode (next_episode_to_air d) = false ->
      last_air_date d = Some last ->
      DateTime.strptime last = Ok dt ->
      (emits episode_aired (fst (_check_for_updates env s d w))
       <-> 0 <= DateTime.days (utcnow env (tick w) - dt)
             <= floor_interval_days (config env)))
  /\ (truthy_episode (next_episode_to_air d) = true ->
      ~ emits episode_aired (fst (_check_for_updates env s d w))).
Proof.
  intros Hm Hn. split.
  - intros last dt Hx Hl Hp.
    rewrite (episode_aired_branch env w s d Hm Hn Hx Hl Hp).
    destruct (within_interval (config env)
                (DateTime.days (utcnow env (tick w) - dt))) eqn:E.
    + apply within_interval_spec in E.
      split; [intros _; exact E | intros _; apply emits_inv; reflexivity].
    + apply within_interval_false in E.
      split; [intros X; destruct (emits_none X) | intros X; contradiction].
  - intros Ht.
    destruct (next_episode_to_air d) as [ep|] eqn:Hx; [|discriminate Ht].
    rewrite (next_episode_branch env w s d Hm Hn Hx Ht).
    destruct (truthy_str (air_date ep)); [|apply emits_none].
    destruct (DateTime.strptime (str_of (air_date ep))); [|apply emits_raise].
    destruct (_ =? 1); [|apply emits_none].
    intros X. apply emits_inv in X. discriminate X.
Qed.

(** The snapshot of the witness has the empty object under
    [next_episode_to_air]. *)
Lemma episode_aired_only_without_next_episode_witness :
  emits episode_aired
    (fst (_check_for_updates
            (Examples.env_of Examples.mar10_noon (Raise ClientError) false None)
            Examples.severance Examples.severance_after_finale
            (Examples.world_of [] []))).
Proof.
  apply (proj1 (episode_aired_only_without_next_episode
                  (Examples.env_of Examples.mar10_noon (Raise ClientError)
                                   false None)
                  (Examples.world_of [] []) Examples.severance
                  Examples.severance_after_finale
                  eq_refl eq_refl)
               "2024-03-10" Examples.mar10 eq_refl eq_refl eq_refl).
  vm_compute. split; discriminate.
Defined.

(** With the empty object under [next_episode_to_air] the evaluator goes on
    to the [last_air_date]. *)
Example episode_aired_after_empty_next_episode :
  fst (_check_for_updates
         (Examples.env_of Examples.mar10_noon (Raise ClientError) false None)
         Examples.severance Examples.severance_after_finale
         (Examples.world_of [] []))
  = Ok (Some Examples.severance_aired).
Proof. reflexivity. Qed.

(** Without a next episode, the window is not the ceiling either: a day and
    a half after the last episode, with the default 6 hours, [days = 1] is
    within [ceil(6 / 24) = 1] and nothing is emitted. *)
Example episode_aired_window_is_not_ceil :
  0 <= DateTime.days (Examples.mar11_noon - Examples.mar10)
    <= ceil_interval_days Examples.cfg6
  /\ fst (_check_for_updates
            (Examples.env_of Examples.mar11_noon (Raise ClientError) false None)
            Examples.severance
            (Examples.severance_details (Some "2024-03-10") None)
            (Examples.world_of [] []))
     = Ok None.
Proof. split; [vm_compute; split; discriminate | reflexivity]. Qed.

(** C2, as stated, fails: the last episode aired today (0 days ago, inside
    the window for either bound), the next one airs in a week (not one day
    ahead), and the evaluator returns no notification. *)
Lemma episode_aired_with_next_episode_counterexample :
  media_type Examples.severance = "tv"
  /\ notify_on_update Examples.severance = Some true
  /\ DateTime.strptime "2024-03-10" = Ok Examples.mar10
  /\ 0 <= DateTime.days (Examples.mar10_noon - Examples.mar10)
       <= ceil_interval_days Examples.cfg6
  /\ DateTime.strptime "2024-03-17"
     = Ok (Examples.mar10 + 7 * DateTime.us_per_day)
  /\ DateTime.days (Examples.mar10 + 7 * DateTime.us_per_day
                    - Examples.mar10_noon) <> 1
  /\ ~ emits episode_aired
       (fst (_check_for_updates
               (Examples.env_of Examples.mar10_noon (Raise ClientError)
                                false None)
               Examples.severance
               (Examples.severance_details
                  (Some "2024-03-10")
                  (Some (Examples.episode_on "2024-03-17")))
               (Examples.world_of [] []))).
Proof.
  repeat split; try reflexivity; try (vm_compute; discriminate).
  intros [n [E _]]. vm_compute in E. discriminate E.
Qed.

(** ** Failures and who catches them *)

(** A [try] whose handler only logs returns normally. *)
Lemma try_except_log_ok (m : M unit) (r : Exn -> LogRecord) (w : World) :
  fst (try_except m (fun e => log (r e)) w) = Ok tt.
Proof.
  unfold try_except. destruct (m w) as [[[]|e] w']; reflexivity.
Qed.

Lemma subscription_iteration_ok (env : Env) (g : DiscordGuild) (gd : GuildData)
      (s : Subscription) (w : World) :
  fst (subscription_iteration env g gd s w) = Ok tt.
Proof. apply try_except_log_ok. Qed.

Lemma send_notification_ok (env : Env) (g : DiscordGuild) (gd : GuildData)
      (s : Subscription) (n : Notification) (w : World) :
  fst (_send_notification env g gd s n w) = Ok tt.
Proof. apply try_except_log_ok. Qed.

Lemma guild_iteration_ok (env : Env) (gd : GuildData) (w : World) :
  fst (guild_iteration env gd w) = Ok tt.
Proof. apply try_except_log_ok. Qed.

Lemma unparseable_raises (x : string) :
  unparseable x -> DateTime.strptime x = Raise ValueError.
Proof.
  intros U. destruct (DateTime.strptime x) eqn:E.
  - destruct (U a E).
  - rewrite (strptime_raises_ValueError x E). reflexivity.
Qed.

(** C3 (amended). A date string the evaluator reads and cannot parse makes
    it raise [ValueError] to its caller instead of returning: the
    [release_date] of a movie when [notify_on_release] is true, the
    [air_date] of [next_episode_to_air] of a series when [notify_on_update]
    is true and the object is not empty, the [last_air_date] of a series
    without [next_episode_to_air], or with an empty one, when
    [notify_on_update] is true. A missing or empty string, or a flag
    that is off, returns normally with no notification. In no case is a
    notification produced, and the exception stops at [update_check]'s
    handler for the subscription: the loop's turn for it returns
    normally. *)
Theorem malformed_date_raises_to_caller
        (env : Env) (w : World) (s : Subscription) (d : Details) :
  (media_type s = "movie" ->
   unparseable (str_of (release_date d)) ->
   fst (_check_for_updates env s d w)
   = if truthy_str (release_date d) && truthy_bool (notify_on_release s)
     then Raise ValueError else Ok None)
  /\ (media_type s = "tv" ->
      notify_on_update s = Some true ->
      forall ep, next_episode_to_air d = Some ep ->
      truthy_episode (Some ep) = true ->
      unparseable (str_of (air_date ep)) ->
      fst (_check_for_updates env s d w)
      = if truthy_str (air_date ep) then Raise ValueError else Ok None)
  /\ (media_type s = "tv" ->
      truthy_episode (next_episode_to_air d) = false ->
      unparseable (str_of (last_air_date d)) ->
      fst (_check_for_updates env s d w)
      = if truthy_str (last_air_date d) && truthy_bool (notify_on_update s)
        then Raise ValueError else Ok None)
  /\ (forall g gd, fst (subscription_iteration env g gd s w) = Ok tt).
Proof.
  split; [|split; [|split]].
  - intros Hm U. unfold _check_for_updates. rewrite Hm.
    cbn [String.eqb Ascii.eqb Bool.eqb].
    destruct (truthy_str (release_date d) && truthy_bool (notify_on_release s));
      [|reflexivity].
    unfold bind, lift. rewrite (unparseable_raises U). reflexivity.
  - intros Hm Hn ep Hx Ht U.
    rewrite (next_episode_branch env w s d Hm Hn Hx Ht).
    rewrite (unparseable_raises U). reflexivity.
  - intros Hm Hx U. unfold _check_for_updates. rewrite Hm, Hx.
    cbn [String.eqb Ascii.eqb Bool.eqb andb].
    destruct (truthy_str (last_air_date d) && truthy_bool (notify_on_update s));
      [|reflexivity].
    unfold bind, lift. rewrite (unparseable_raises U). reflexivity.
  - intros g gd. apply subscription_iteration_ok.
Qed.

Lemma malformed_date_raises_to_caller_witness :
  fst (_check_for_updates
         (Examples.env_of Examples.mar10_noon (Raise ClientError) false None)
         Examples.matrix (Examples.matrix_details "TBA")
         (Examples.world_of [] []))
  = Raise ValueError.
Proof.
  apply (proj1 (malformed_date_raises_to_caller
                  (Examples.env_of Examples.mar10_noon (Raise ClientError)
                                   false None)
                  (Examples.world_of [] []) Examples.matrix
                  (Examples.matrix_details "TBA"))).
  - reflexivity.
  - intros dt H. discriminate H.
Defined.

(** C3, as stated, fails: a movie announced with the release date "TBA"
    makes the evaluator raise instead of returning "no notification". *)
Lemma malformed_release_date_counterexample :
  unparseable "TBA"
  /\ fst (_check_for_updates
            (Examples.env_of Examples.mar10_noon (Raise ClientError) false None)
            Examples.matrix (Examples.matrix_details "TBA")
            (Examples.world_of [] []))
     = Raise ValueError
  /\ Raise ValueError <> Ok (@None Notification).
Proof.
  split; [intros dt H; discriminate H|].
  split; [reflexivity | discriminate].
Qed.

(** ** Where a notification goes *)

Lemma existsb_eqb_In (c : Z) (l : list Z) :
  existsb (Z.eqb c) l = true <-> In c l.
Proof.
  rewrite existsb_exists. split.
  - intros [x [I E]]. apply Z.eqb_eq in E. subst x. exact I.
  - intros I. exists c. split; [exact I | apply Z.eqb_refl].
Qed.

Lemma get_channel_resolves (g : DiscordGuild) (c : Z) :
  In c (channels g) -> get_channel g c = Some c.
Proof.
  intros I. unfold get_channel.
  rewrite (proj2 (existsb_eqb_In c (channels g)) I). reflexivity.
Qed.

Lemma get_channel_unresolved (g : DiscordGuild) (c : Z) :
  ~ In c (channels g) -> get_channel g c = None.
Proof.
  intros N. unfold get_channel.
  destruct (existsb (Z.eqb c) (channels g)) eqn:E; [|reflexivity].
  apply existsb_eqb_In in E. contradiction.
Qed.

Lemma truthy_int_nonzero (c : Z) : c <> 0 -> truthy_int (Some c) = true.
Proof.
  intros N. unfold truthy_int. destruct (Z.eqb_spec c 0); [contradiction|].
  reflexivity.
Qed.

Ltac run_dispatch :=
  unfold try_except, bind, now, consult, ret, channel_send, emit, log, raise;
  cbn.

(** C4 (amended). The dispatcher always returns normally, and
    - when [notification_channel_id] is set and resolves in the guild, the
      message goes to that channel;
    - when it is set and does not resolve, the dispatcher logs the warning
      and sends nothing: it does not fall back to the system channel;
    - when it is unset (NULL or 0), the message goes to the guild's system
      channel if there is one;
    - when it is unset and the guild has no system channel, the dispatcher
      logs the warning and sends nothing. *)
Theorem notification_destination
        (env : Env) (g : DiscordGuild) (gd : GuildData) (s : Subscription)
        (n : Notification) (w : World) :
  fst (_send_notification env g gd s n w) = Ok tt
  /\ (forall c,
         notification_channel_id gd = Some c -> c <> 0 -> In c (channels g) ->
         sent_to w (snd (_send_notification env g gd s n w)) (sub_id s) c)
  /\ (forall c,
         notification_channel_id gd = Some c -> c <> 0 -> ~ In c (channels g) ->
         skipped_with_warning w (snd (_send_notification env g gd s n w))
                              (dg_id g))
  /\ (forall c,
         truthy_int (notification_channel_id gd) = false ->
         system_channel g = Some c ->
         sent_to w (snd (_send_notification env g gd s n w)) (sub_id s) c)
  /\ (truthy_int (notification_channel_id gd) = false ->
      system_channel g = None ->
      skipped_with_warning w (snd (_send_notification env g gd s n w))
                           (dg_id g)).
Proof.
  split; [apply try_except_log_ok|].
  unfold _send_notification, sent_to, skipped_with_warning.
  split; [|split; [|split]].
  - intros c Hc N I. rewrite Hc, (truthy_int_nonzero N), (get_channel_resolves g c I).
    run_dispatch.
    destruct (send_fails env (S (tick w))); cbn;
      rewrite <- app_assoc; do 3 eexists; reflexivity.
  - intros c Hc N I. rewrite Hc, (truthy_int_nonzero N), (get_channel_unresolved g c I).
    reflexivity.
  - intros c F Hs. rewrite F, Hs. run_dispatch.
    destruct (send_fails env (S (tick w))); cbn;
      rewrite <- app_assoc; do 3 eexists; reflexivity.
  - intros F Hs. rewrite F, Hs. reflexivity.
Qed.

Lemma notification_destination_witness :
  sent_to (Examples.world_of [] [])
          (snd (_send_notification
                  (Examples.env_of Examples.mar10_noon (Raise ClientError)
                                   false (Some Examples.home))
                  Examples.home (Examples.home_data (Some 200) (Some true))
                  Examples.matrix Examples.matrix_released
                  (Examples.world_of [] [])))
          1 200.
Proof.
  apply (proj1 (proj2 (notification_destination
                         (Examples.env_of Examples.mar10_noon
                            (Raise ClientError) false (Some Examples.home))
                         Examples.home
                         (Examples.home_data (Some 200) (Some true))
                         Examples.matrix Examples.matrix_released
                         (Examples.world_of [] []))) 200).
  - reflexivity.
  - discriminate.
  - simpl. auto.
Defined.

(** C4, as stated, fails: the configured channel 999 does not exist in the
    guild, the guild has the system channel 100, and the dispatcher logs
    the warning and sends nothing. *)
Lemma unresolved_channel_counterexample :
  notification_channel_id (Examples.home_data (Some 999) (Some true)) = Some 999
  /\ get_channel Examples.home 999 = None
  /\ system_channel Examples.home = Some 100
  /\ ~ sent_to (Examples.world_of [] [])
         (snd (_send_notification
                 (Examples.env_of Examples.mar10_noon (Raise ClientError)
                                  false (Some Examples.home))
                 Examples.home (Examples.home_data (Some 999) (Some true))
                 Examples.matrix Examples.matrix_released
                 (Examples.world_of [] [])))
         1 100.
Proof.
  repeat split; try reflexivity.
  intros [content [embed [outcome E]]]. vm_compute in E. discriminate E.
Qed.

(** ** The arithmetic of doubles *)

Lemma pow2_pos (e : Z) : (0 < pow2 e)%Q.
Proof. apply Qpower_0_lt. reflexivity. Qed.

Lemma pow2_add (a b : Z) : (pow2 (a + b) == pow2 a * pow2 b)%Q.
Proof. apply Qpower_plus. discriminate. Qed.

Lemma pow2_le (a b : Z) : a <= b -> (pow2 a <= pow2 b)%Q.
Proof. intros H. apply Qpower_le_compat_l; [exact H | discriminate]. Qed.

Lemma pow2_lt (a b : Z) : a < b -> (pow2 a < pow2 b)%Q.
Proof. intros H. apply Qpower_lt_compat_l; [exact H | reflexivity]. Qed.

Lemma pow2_lt_inv (a b : Z) : (pow2 a < pow2 b)%Q -> a < b.
Proof. intros H. apply (Qpower_lt_compat_l_inv _ _ _ H). reflexivity. Qed.

Lemma pow2_Z (n : Z) : 0 <= n -> (pow2 n == inject_Z (2 ^ n))%Q.
Proof. intros H. symmetry. apply (Zpower_Qpower 2 n H). Qed.

Lemma pow2_sub (a b : Z) : (pow2 (a - b) * pow2 b == pow2 a)%Q.
Proof. rewrite <- pow2_add. replace (a - b + b) with a by lia. reflexivity. Qed.

Lemma Qmake_mult_den (n : Z) (d : positive) :
  ((n # d) * inject_Z (Zpos d) == inject_Z n)%Q.
Proof. rewrite (Qmake_Qdiv n d). field. discriminate. Qed.

Lemma ilog2_spec (q : Q) :
  (0 < q)%Q -> (pow2 (ilog2 q) <= q < pow2 (ilog2 q + 1))%Q.
Proof.
  intros Hq. destruct q as [n d].
  assert (Hn : 0 < n) by (unfold Qlt in Hq; cbn in Hq; lia).
  unfold ilog2. cbn [Qnum Qden].
  pose proof (Z.log2_spec n Hn) as [Ln Un].
  pose proof (Z.log2_spec (Zpos d) eq_refl) as [Ld Ud].
  pose proof (Z.log2_nonneg n) as Nn.
  pose proof (Z.log2_nonneg (Zpos d)) as Nd.
  set (ln := Z.log2 n) in *. set (ld := Z.log2 (Zpos d)) in *.
  assert (Qn : (pow2 ln <= inject_Z n)%Q)
    by (rewrite pow2_Z by exact Nn; rewrite <- Zle_Qle; exact Ln).
  assert (Qn' : (inject_Z n < pow2 (ln + 1))%Q)
    by (rewrite pow2_Z by lia; rewrite <- Zlt_Qlt; exact Un).
  assert (Qd : (pow2 ld <= inject_Z (Zpos d))%Q)
    by (rewrite pow2_Z by exact Nd; rewrite <- Zle_Qle; exact Ld).
  assert (Qd' : (inject_Z (Zpos d) < pow2 (ld + 1))%Q)
    by (rewrite pow2_Z by lia; rewrite <- Zlt_Qlt; exact Ud).
  pose proof (Qmake_mult_den n d) as E.
  destruct (Qle_bool (pow2 (ln - ld)) (n # d)) eqn:B.
  - apply Qle_bool_iff in B. split; [exact B|].
    apply (Qmult_lt_r _ _ (pow2 ld) (pow2_pos ld)).
    replace (ln - ld + 1) with (ln + 1 - ld) by lia. rewrite pow2_sub.
    apply Qle_lt_trans with (inject_Z n); [|exact Qn'].
    rewrite <- E. apply Qmult_le_l; [exact Hq | exact Qd].
  - assert (B' : (n # d < pow2 (ln - ld))%Q).
    { apply Qnot_le_lt. intros L. apply Qle_bool_iff in L. congruence. }
    replace (ln - ld - 1 + 1) with (ln - ld) by lia.
    split; [|exact B'].
    apply (Qmult_le_r _ _ (pow2 (ld + 1)) (pow2_pos (ld + 1))).
    replace (ln - ld - 1) with (ln - (ld + 1)) by lia. rewrite pow2_sub.
    apply Qle_trans with (inject_Z n); [exact Qn|].
    rewrite <- E. apply Qmult_le_l; [exact Hq | apply Qlt_le_weak, Qd'].
Qed.

Lemma ilog2_unique (q : Q) (l : Z) :
  (pow2 l <= q < pow2 (l + 1))%Q -> ilog2 q = l.
Proof.
  intros [L U].
  assert (Hq : (0 < q)%Q) by (pose proof (pow2_pos l); lra).
  destruct (ilog2_spec Hq) as [L' U'].
  assert (A : ilog2 q < l + 1) by (apply pow2_lt_inv; lra).
  assert (B : l < ilog2 q + 1) by (apply pow2_lt_inv; lra).
  lia.
Qed.

Lemma ilog2_le (x y : Q) : (0 < x)%Q -> (x <= y)%Q -> ilog2 x <= ilog2 y.
Proof.
  intros Hx H.
  destruct (ilog2_spec Hx) as [L _].
  assert (Hy : (0 < y)%Q) by lra.
  destruct (ilog2_spec Hy) as [_ U].
  assert (A : ilog2 x < ilog2 y + 1) by (apply pow2_lt_inv; lra).
  lia.
Qed.

Lemma ilog2_comp (x y : Q) : (0 < x)%Q -> (x == y)%Q -> ilog2 x = ilog2 y.
Proof.
  intros Hx E. symmetry. apply ilog2_unique. rewrite <- E.
  apply ilog2_spec, Hx.
Qed.

Lemma rne_comp (x y : Q) : (x == y)%Q -> rne x = rne y.
Proof.
  intros E. unfold rne. rewrite (Qfloor_comp x y E).
  assert (C : (x - inject_Z (Qfloor y) ?= 1 # 2)%Q
              = (y - inject_Z (Qfloor y) ?= 1 # 2)%Q)
    by (apply Qcompare_comp; [rewrite E|]; reflexivity).
  rewrite C. reflexivity.
Qed.

Lemma rne_inject (n : Z) : rne (inject_Z n) = n.
Proof.
  unfold rne. rewrite Qfloor_Z.
  assert (C : (inject_Z n - inject_Z n ?= 1 # 2)%Q = Lt).
  { rewrite <- Qlt_alt. setoid_replace (inject_Z n - inject_Z n)%Q with 0%Q by ring. reflexivity. }
  rewrite C. reflexivity.
Qed.

(** The rounded number is the floor or the next integer. *)
Lemma rne_cases (x : Q) :
  (rne x = Qfloor x /\ (x - inject_Z (Qfloor x) <= 1 # 2)%Q)
  \/ (rne x = Qfloor x + 1 /\ (1 # 2 <= x - inject_Z (Qfloor x))%Q).
Proof.
  unfold rne.
  destruct (x - inject_Z (Qfloor x) ?= 1 # 2)%Q eqn:C.
  - rewrite <- Qeq_alt in C. destruct (Z.even (Qfloor x)); [left | right];
      (split; [reflexivity | lra]).
  - rewrite <- Qlt_alt in C. left. split; [reflexivity | lra].
  - rewrite <- Qgt_alt in C. right. split; [reflexivity | lra].
Qed.

Lemma rne_le (x y : Q) : (x <= y)%Q -> rne x <= rne y.
Proof.
  intros H. pose proof (Qfloor_resp_le x y H) as F.
  assert (Lx : rne x <= Qfloor x + 1) by (destruct (rne_cases x); lia).
  assert (Ly : Qfloor y <= rne y) by (destruct (rne_cases y); lia).
  destruct (Z.eq_dec (Qfloor x) (Qfloor y)) as [E|N]; [|lia].
  unfold rne. rewrite <- E.
  destruct (x - inject_Z (Qfloor x) ?= 1 # 2)%Q eqn:Cx;
    destruct (y - inject_Z (Qfloor x) ?= 1 # 2)%Q eqn:Cy;
    try (destruct (Z.even (Qfloor x))); try lia;
    repeat match goal with
           | C : (_ ?= _)%Q = Eq |- _ => rewrite <- Qeq_alt in C
           | C : (_ ?= _)%Q = Lt |- _ => rewrite <- Qlt_alt in C
           | C : (_ ?= _)%Q = Gt |- _ => rewrite <- Qgt_alt in C
           end; lra.
Qed.

Lemma rne_le_int (x : Q) (n : Z) : (x <= inject_Z n)%Q -> rne x <= n.
Proof. intros H. rewrite <- (rne_inject n). apply rne_le, H. Qed.

Lemma rne_ge_int (x : Q) (n : Z) : (inject_Z n <= x)%Q -> n <= rne x.
Proof. intros H. rewrite <- (rne_inject n). apply rne_le, H. Qed.

(** *** Rounding a positive number *)


Lemma round_pos_eq (q : Q) :
  round_pos q = (inject_Z (rne (q / pow2 (exponent q))) * pow2 (exponent q))%Q.
Proof. reflexivity. Qed.

Lemma round_pos_comp (x y : Q) :
  (0 < x)%Q -> (x == y)%Q -> (round_pos x == round_pos y)%Q.
Proof.
  intros Hx E. rewrite !round_pos_eq. unfold exponent.
  rewrite (ilog2_comp Hx E).
  set (e := Z.max (ilog2 y - 52) (-1074)).
  assert (R : rne (x / pow2 e) = rne (y / pow2 e))
    by (apply rne_comp; rewrite E; reflexivity).
  rewrite R. reflexivity.
Qed.

Lemma div_pow2 (q : Q) (e : Z) : (q / pow2 e * pow2 e == q)%Q.
Proof. field. pose proof (pow2_pos e). lra. Qed.

Lemma div_pow2_le (x y : Q) (e : Z) :
  (x <= y)%Q -> (x / pow2 e <= y / pow2 e)%Q.
Proof.
  intros H. apply (Qmult_le_r _ _ (pow2 e) (pow2_pos e)).
  rewrite !div_pow2. exact H.
Qed.

Lemma mul_pow2_le (a b : Z) (e : Z) :
  a <= b -> (inject_Z a * pow2 e <= inject_Z b * pow2 e)%Q.
Proof.
  intros H. apply Qmult_le_compat_r; [|apply Qlt_le_weak, pow2_pos].
  rewrite <- Zle_Qle. exact H.
Qed.

Lemma round_pos_nonneg (q : Q) : (0 < q)%Q -> (0 <= round_pos q)%Q.
Proof.
  intros Hq. rewrite round_pos_eq.
  apply Qmult_le_0_compat; [|apply Qlt_le_weak, pow2_pos].
  change 0%Q with (inject_Z 0). rewrite <- Zle_Qle. apply rne_ge_int.
  change (inject_Z 0) with 0%Q.
  apply Qle_shift_div_l; [apply pow2_pos|]. lra.
Qed.

(** A power of two that is a multiple of the unit of [q] and not below [q]
    is not below the rounded [q]; one not above is not above. *)
Lemma round_pos_le_pow2 (q : Q) (k : Z) :
  (q <= pow2 k)%Q -> exponent q <= k -> (round_pos q <= pow2 k)%Q.
Proof.
  intros H K. rewrite round_pos_eq. set (e := exponent q) in *.
  rewrite <- (pow2_sub k e). rewrite (pow2_Z (n := k - e)) by lia.
  apply mul_pow2_le, rne_le_int.
  rewrite <- pow2_Z by lia.
  apply (Qmult_le_r _ _ (pow2 e) (pow2_pos e)).
  rewrite div_pow2, pow2_sub. exact H.
Qed.

Lemma round_pos_ge_pow2 (q : Q) (k : Z) :
  (pow2 k <= q)%Q -> exponent q <= k -> (pow2 k <= round_pos q)%Q.
Proof.
  intros H K. rewrite round_pos_eq. set (e := exponent q) in *.
  rewrite <- (pow2_sub k e) at 1. rewrite (pow2_Z (n := k - e)) by lia.
  apply mul_pow2_le, rne_ge_int.
  rewrite <- pow2_Z by lia.
  apply (Qmult_le_r _ _ (pow2 e) (pow2_pos e)).
  rewrite div_pow2, pow2_sub. exact H.
Qed.

Lemma round_pos_le (x y : Q) :
  (0 < x)%Q -> (x <= y)%Q -> (round_pos x <= round_pos y)%Q.
Proof.
  intros Hx H. assert (Hy : (0 < y)%Q) by lra.
  pose proof (ilog2_le Hx H) as L.
  destruct (ilog2_spec Hx) as [Lx Ux]. destruct (ilog2_spec Hy) as [Ly Uy].
  destruct (Z.eq_dec (exponent x) (exponent y)) as [E|N].
  - rewrite !round_pos_eq, E.
    apply mul_pow2_le, rne_le, div_pow2_le, H.
  - assert (Ex : exponent x < exponent y) by (unfold exponent in *; lia).
    assert (Ey : exponent y = ilog2 y - 52) by (unfold exponent in *; lia).
    assert (Lt : ilog2 x + 1 <= ilog2 y) by (unfold exponent in *; lia).
    set (k := Z.max (ilog2 x + 1) (exponent x)).
    apply Qle_trans with (pow2 k).
    + apply round_pos_le_pow2; [|lia].
      apply Qle_trans with (pow2 (ilog2 x + 1)); [lra | apply pow2_le; lia].
    + apply Qle_trans with (pow2 (ilog2 y)); [apply pow2_le; lia|].
      apply round_pos_ge_pow2; [exact Ly | lia].
Qed.

(** *** [binary64] *)

Lemma Qnum_pos (q : Q) : (0 < q)%Q <-> 0 < Qnum q.
Proof. unfold Qlt. cbn. lia. Qed.

Lemma Qnum_neg (q : Q) : (q < 0)%Q <-> Qnum q < 0.
Proof. unfold Qlt. cbn. lia. Qed.

Lemma binary64_pos (q : Q) : (0 < q)%Q -> binary64 q = round_pos q.
Proof.
  intros H. apply Qnum_pos in H. unfold binary64.
  destruct (Qnum q); [lia | reflexivity | lia].
Qed.

Lemma binary64_neg (q : Q) :
  (q < 0)%Q -> binary64 q = (- round_pos (- q))%Q.
Proof.
  intros H. apply Qnum_neg in H. unfold binary64.
  destruct (Qnum q); [lia | lia | reflexivity].
Qed.

Lemma binary64_zero (q : Q) : (q == 0)%Q -> binary64 q = 0%Q.
Proof.
  intros H. unfold Qeq in H. cbn in H. unfold binary64.
  destruct (Qnum q); [reflexivity | lia | lia].
Qed.

Lemma sign_cases (q : Q) : (q < 0)%Q \/ (q == 0)%Q \/ (0 < q)%Q.
Proof.
  destruct (Q_dec q 0) as [[H|H]|H]; auto.
Qed.

Lemma binary64_comp (x y : Q) : (x == y)%Q -> (binary64 x == binary64 y)%Q.
Proof.
  intros E. destruct (sign_cases x) as [H|[H|H]].
  - rewrite (binary64_neg H), (@binary64_neg y) by lra.
    apply Qopp_comp, round_pos_comp; lra.
  - rewrite (binary64_zero H), (@binary64_zero y) by lra. reflexivity.
  - rewrite (binary64_pos H), (@binary64_pos y) by lra.
    apply round_pos_comp; lra.
Qed.

#[global] Instance binary64_proper : Proper (Qeq ==> Qeq) binary64.
Proof. intros x y E. apply binary64_comp, E. Qed.

Lemma binary64_opp (q : Q) : (binary64 (- q) == - binary64 q)%Q.
Proof.
  destruct (sign_cases q) as [H|[H|H]].
  - rewrite (binary64_neg H), (@binary64_pos (- q)) by lra. ring.
  - rewrite (binary64_zero H), (@binary64_zero (- q)) by lra. reflexivity.
  - rewrite (binary64_pos H), (@binary64_neg (- q)) by lra.
    apply Qopp_comp, round_pos_comp; [lra | ring].
Qed.

(** Rounding keeps the order. *)
Lemma binary64_le (x y : Q) : (x <= y)%Q -> (binary64 x <= binary64 y)%Q.
Proof.
  intros H.
  destruct (sign_cases x) as [Hx|[Hx|Hx]];
    destruct (sign_cases y) as [Hy|[Hy|Hy]]; try lra.
  - rewrite (binary64_neg Hx), (binary64_neg Hy).
    apply Qopp_le_compat, round_pos_le; lra.
  - rewrite (binary64_neg Hx), (binary64_zero Hy).
    pose proof (@round_pos_nonneg (- x)). lra.
  - rewrite (binary64_neg Hx), (binary64_pos Hy).
    pose proof (@round_pos_nonneg (- x)). pose proof (round_pos_nonneg Hy).
    lra.
  - rewrite (binary64_zero Hx), (binary64_zero Hy). lra.
  - rewrite (binary64_zero Hx), (binary64_pos Hy).
    apply round_pos_nonneg, Hy.
  - rewrite (binary64_pos Hx), (binary64_pos Hy).
    apply round_pos_le; lra.
Qed.

(** *** The numbers a double holds *)

Lemma representable_opp (q : Q) : representable q -> representable (- q).
Proof.
  intros [m [e [M [E H]]]]. exists (- m), e.
  split; [lia|]. split; [exact E|].
  rewrite H, inject_Z_opp. ring.
Qed.

Lemma inject_Z_pos (m : Z) : (0 < inject_Z m)%Q <-> 0 < m.
Proof. change 0%Q with (inject_Z 0). rewrite <- Zlt_Qlt. reflexivity. Qed.

Lemma mul_pow2_pos (m e : Z) : (0 < inject_Z m * pow2 e)%Q -> 0 < m.
Proof.
  intros H. apply inject_Z_pos.
  pose proof (pow2_pos e) as P. 
  destruct (Qlt_le_dec 0 (inject_Z m)) as [L|L]; [exact L|].
  assert (inject_Z m * pow2 e <= 0)%Q; [|lra].
  setoid_replace 0%Q with (0 * pow2 e)%Q by ring.
  apply Qmult_le_compat_r; lra.
Qed.

(** A double rounds to itself. *)
Lemma round_pos_exact (q : Q) :
  (0 < q)%Q -> representable q -> (round_pos q == q)%Q.
Proof.
  intros Hq [m [e' [M [E' H]]]].
  assert (Hm : 0 < m) by (apply (@mul_pow2_pos m e'); lra).
  destruct (ilog2_spec Hq) as [L U].
  rewrite round_pos_eq. set (e := exponent q).
  assert (Le : e <= e').
  { assert (A : ilog2 q < 53 + e'); [|unfold e, exponent; lia].
    apply pow2_lt_inv. apply Qle_lt_trans with q; [exact L|].
    rewrite H, pow2_add. apply Qmult_lt_compat_r; [apply pow2_pos|].
    rewrite pow2_Z by lia. rewrite <- Zlt_Qlt. lia. }
  assert (S : (q / pow2 e == inject_Z (m * 2 ^ (e' - e)))%Q).
  { apply (Qmult_inj_r _ _ (pow2 e)); [pose proof (pow2_pos e); lra|].
    rewrite div_pow2, inject_Z_mult, <- pow2_Z by lia.
    rewrite <- Qmult_assoc, pow2_sub. exact H. }
  rewrite (rne_comp S), rne_inject.
  rewrite inject_Z_mult, <- pow2_Z by lia.
  rewrite <- Qmult_assoc, pow2_sub. symmetry. exact H.
Qed.

Lemma binary64_exact (q : Q) : representable q -> (binary64 q == q)%Q.
Proof.
  intros R. destruct (sign_cases q) as [H|[H|H]].
  - rewrite (binary64_neg H).
    rewrite (@round_pos_exact (- q)); [ring | lra | apply representable_opp, R].
  - rewrite (binary64_zero H). symmetry. exact H.
  - rewrite (binary64_pos H). apply round_pos_exact; assumption.
Qed.

Lemma representable_Z (z : Z) : Z.abs z <= 2 ^ 53 -> representable (inject_Z z).
Proof.
  intros H. destruct (Z.eq_dec (Z.abs z) (2 ^ 53)) as [E|N].
  - exists (z / 2), 1. split; [|split; [lia|]].
    + assert (z = 2 ^ 53 \/ z = - 2 ^ 53) as [-> | ->] by lia; reflexivity.
    + assert (z = 2 ^ 53 \/ z = - 2 ^ 53) as [-> | ->] by lia; reflexivity.
  - exists z, 0. split; [lia|]. split; [lia|].
    change (pow2 0) with 1%Q. ring.
Qed.

(** What [binary64] returns is a double. *)
Lemma round_pos_representable (q : Q) :
  (0 < q)%Q -> representable (round_pos q).
Proof.
  intros Hq. destruct (ilog2_spec Hq) as [L U].
  rewrite round_pos_eq. set (e := exponent q).
  set (m := rne (q / pow2 e)).
  assert (M0 : 0 <= m).
  { apply rne_ge_int. change (inject_Z 0) with 0%Q.
    apply Qle_shift_div_l; [apply pow2_pos | lra]. }
  assert (M1 : m <= 2 ^ 53).
  { apply rne_le_int. rewrite <- pow2_Z by lia.
    apply (Qmult_le_r _ _ (pow2 e) (pow2_pos e)).
    rewrite div_pow2, <- pow2_add.
    apply Qle_trans with (pow2 (ilog2 q + 1)); [lra|].
    apply pow2_le. unfold e, exponent. lia. }
  assert (E : -1074 <= e) by (unfold e, exponent; lia).
  destruct (Z.eq_dec m (2 ^ 53)) as [Em|Nm].
  - exists (2 ^ 52), (e + 1). split; [reflexivity|]. split; [lia|].
    rewrite Em, pow2_add. change (pow2 1) with 2%Q.
    change (inject_Z (2 ^ 53)) with (inject_Z (2 ^ 52) * 2)%Q. ring.
  - exists m, e. split; [lia|]. split; [exact E | reflexivity].
Qed.

Lemma binary64_representable (q : Q) : representable (binary64 q).
Proof.
  destruct (sign_cases q) as [H|[H|H]].
  - rewrite (binary64_neg H). apply representable_opp, round_pos_representable.
    lra.
  - rewrite (binary64_zero H). apply (representable_Z 0). cbn. lia.
  - rewrite (binary64_pos H). apply round_pos_representable, H.
Qed.

Lemma representable_comp (x y : Q) :
  (x == y)%Q -> representable x -> representable y.
Proof.
  intros E [m [e [M [B H]]]]. exists m, e. rewrite <- E. auto.
Qed.

Lemma binary64_idempotent (q : Q) : (binary64 (binary64 q) == binary64 q)%Q.
Proof. apply binary64_exact, binary64_representable. Qed.

Lemma binary64_Z (z : Z) :
  Z.abs z <= 2 ^ 53 -> (binary64 (inject_Z z) == inject_Z z)%Q.
Proof. intros H. apply binary64_exact, representable_Z, H. Qed.

(** One less than a double between 1 and [2 ** 53] is a double. *)
Lemma representable_pred (x : Q) :
  representable x -> (1 <= x)%Q -> (x <= inject_Z (2 ^ 53))%Q ->
  representable (x - 1).
Proof.
  intros [m [e [M [E H]]]] L U.
  assert (Hm : 0 < m) by (apply (@mul_pow2_pos m e); lra).
  destruct (Z_le_gt_dec 0 e) as [P|N].
  - apply representable_comp with (inject_Z (m * 2 ^ e - 1)).
    + rewrite H. unfold Zminus. rewrite inject_Z_plus, inject_Z_mult.
      rewrite <- pow2_Z by exact P. reflexivity.
    + apply representable_Z.
      assert (A : m * 2 ^ e <= 2 ^ 53).
      { rewrite Zle_Qle. rewrite inject_Z_mult, <- pow2_Z by exact P.
        rewrite <- H. exact U. }
      assert (0 < 2 ^ e) by (apply Z.pow_pos_nonneg; lia). nia.
  - exists (m - 2 ^ (- e)), e.
    assert (A : 2 ^ (- e) <= m).
    { rewrite Zle_Qle. rewrite <- pow2_Z by lia.
      apply (Qmult_le_r _ _ (pow2 e) (pow2_pos e)).
      rewrite <- pow2_add. replace (- e + e) with 0 by lia.
      change (pow2 0) with 1%Q. lra. }
    assert (0 < 2 ^ (- e)) by (apply Z.pow_pos_nonneg; lia).
    split; [lia|]. split; [exact E|].
    unfold Zminus. rewrite inject_Z_plus, inject_Z_opp, <- pow2_Z by lia.
    rewrite H.
    setoid_replace ((inject_Z m + - pow2 (- e)) * pow2 e)%Q
      with (inject_Z m * pow2 e - pow2 (- e) * pow2 e)%Q by ring.
    rewrite <- pow2_add. replace (- e + e) with 0 by lia.
    change (pow2 0) with 1%Q. reflexivity.
Qed.

(** The doubles below 1 end at [1 - 2 ** -53]. *)
Lemma representable_below_1 (x : Q) :
  representable x -> (x < 1)%Q -> (x <= 1 - pow2 (-53))%Q.
Proof.
  intros [m [e [M [E H]]]] U.
  assert (P53 : (pow2 (-53) <= 1 # 2)%Q) by (vm_compute; discriminate).
  destruct (Qlt_le_dec (1 # 2) x) as [L|L]; [|lra].
  assert (Hm : 0 < m) by (apply (@mul_pow2_pos m e); lra).
  assert (Ee : -53 <= e).
  { assert (A : -54 < e); [|lia].
    apply pow2_lt_inv.
    apply (Qmult_lt_r _ _ (pow2 53) (pow2_pos 53)).
    rewrite <- !pow2_add. change (pow2 (-54 + 53)) with (1 # 2)%Q.
    apply Qlt_le_trans with (inject_Z m * pow2 e)%Q; [lra|].
    rewrite (Qmult_comm (inject_Z m)), pow2_add.
    apply Qmult_le_l; [apply pow2_pos|].
    rewrite pow2_Z by lia. rewrite <- Zle_Qle. lia. }
  assert (Ne : e < 0).
  { destruct (Z_lt_ge_dec e 0) as [N|P]; [exact N|].
    assert (A : (1 <= inject_Z m * pow2 e)%Q); [|lra].
    rewrite pow2_Z by lia. rewrite <- inject_Z_mult.
    change 1%Q with (inject_Z 1). rewrite <- Zle_Qle.
    assert (0 < 2 ^ e) by (apply Z.pow_pos_nonneg; lia). nia. }
  assert (A : m < 2 ^ (- e)).
  { rewrite Zlt_Qlt. rewrite <- pow2_Z by lia.
    apply (Qmult_lt_r _ _ (pow2 e) (pow2_pos e)).
    rewrite <- pow2_add. replace (- e + e) with 0 by lia.
    change (pow2 0) with 1%Q. lra. }
  assert (B : (inject_Z m <= pow2 (- e) - 1)%Q).
  { rewrite pow2_Z by lia. change 1%Q with (inject_Z 1).
    unfold Qminus. rewrite <- inject_Z_opp, <- inject_Z_plus, <- Zle_Qle. lia. }
  rewrite H.
  apply Qle_trans with ((pow2 (- e) - 1) * pow2 e)%Q.
  - apply Qmult_le_compat_r; [exact B | apply Qlt_le_weak, pow2_pos].
  - setoid_replace ((pow2 (- e) - 1) * pow2 e)%Q
      with (pow2 (- e) * pow2 e - pow2 e)%Q by ring.
    rewrite <- pow2_add. replace (- e + e) with 0 by lia.
    change (pow2 0) with 1%Q.
    pose proof (@pow2_le (-53) e Ee). lra.
Qed.

(** ** The rate limiter *)

Lemma Qlt_bool_iff (a b : Q) :
  TMDBRateLimiter.Qlt_bool a b = true <-> (a < b)%Q.
Proof.
  unfold TMDBRateLimiter.Qlt_bool. rewrite negb_true_iff.
  split.
  - intros H. apply Qnot_le_lt. intros L.
    apply Qle_bool_iff in L. congruence.
  - intros H. destruct (Qle_bool b a) eqn:E; [|reflexivity].
    apply Qle_bool_iff in E. destruct (Qlt_not_le _ _ H E).
Qed.

Lemma Qlt_bool_false (a b : Q) :
  TMDBRateLimiter.Qlt_bool a b = false <-> (b <= a)%Q.
Proof.
  unfold TMDBRateLimiter.Qlt_bool. rewrite negb_false_iff. apply Qle_bool_iff.
Qed.

Lemma cap_is_Qmin (a r : Q) :
  (if TMDBRateLimiter.Qlt_bool r a then r else a) = Qmin a r.
Proof.
  unfold Qmin, GenericMinMax.gmin.
  destruct (TMDBRateLimiter.Qlt_bool r a) eqn:E.
  - apply Qlt_bool_iff in E. apply Qgt_alt in E. rewrite E. reflexivity.
  - apply Qlt_bool_false in E.
    destruct (a ?= r)%Q eqn:C; try reflexivity.
    apply Qgt_alt in C. destruct (Qlt_not_le _ _ C E).
Qed.

Lemma replenished_refilled (rnd : Q -> Q) (self : TMDBRateLimiter.t)
      (current : Z) :
  replenished rnd self current
  = Qmin (refilled rnd self current) (inject_Z (TMDBRateLimiter.rate self)).
Proof. reflexivity. Qed.

(** [acquire] with a configuration it does not divide by zero on. *)
Lemma acquire_run (rnd : Q -> Q) (self : TMDBRateLimiter.t) (current : Z) :
  TMDBRateLimiter.rate self <> 0 ->
  TMDBRateLimiter.period self <> 0 ->
  TMDBRateLimiter.acquire rnd self current
  = if TMDBRateLimiter.Qlt_bool (replenished rnd self current) 1
    then (Ok (Some (rnd (rnd (1 - (if TMDBRateLimiter.Qlt_bool
                                        (inject_Z (TMDBRateLimiter.rate self))
                                        (refilled rnd self current)
                                   then rnd (inject_Z
                                               (TMDBRateLimiter.rate self))
                                   else refilled rnd self current))
                         * rnd (inject_Z (TMDBRateLimiter.period self)
                                / inject_Z (TMDBRateLimiter.rate self))))%Q),
          TMDBRateLimiter.with_state self 0%Q current)
    else (Ok None,
          TMDBRateLimiter.with_state
            self
            (rnd ((if TMDBRateLimiter.Qlt_bool
                        (inject_Z (TMDBRateLimiter.rate self))
                        (refilled rnd self current)
                   then rnd (inject_Z (TMDBRateLimiter.rate self))
                   else refilled rnd self current) - 1))%Q
            current).
Proof.
  intros Hr Hp.
  unfold TMDBRateLimiter.acquire, TMDBRateLimiter.true_div.
  destruct (Z.eqb_spec (TMDBRateLimiter.period self) 0); [contradiction|].
  destruct (Z.eqb_spec (TMDBRateLimiter.rate self) 0); [contradiction|].
  cbv zeta. rewrite cap_is_Qmin. reflexivity.
Qed.

Lemma rate_exact (r : Z) :
  0 < r <= 2 ^ 53 -> (binary64 (inject_Z r) == inject_Z r)%Q.
Proof. intros H. apply binary64_Z. lia. Qed.

Lemma one_le_rate (r : Z) : 0 < r -> (1 <= inject_Z r)%Q.
Proof. intros H. change 1%Q with (inject_Z 1). rewrite <- Zle_Qle. lia. Qed.

(** One token less, exactly. *)
Lemma binary64_pred (x : Q) :
  representable x -> (1 <= x)%Q -> (x <= inject_Z (2 ^ 53))%Q ->
  (binary64 (x - 1) == x - 1)%Q.
Proof. intros R L U. apply binary64_exact, representable_pred; assumption. Qed.

(** The operand of the subtractions, with a rate that a double holds: the
    replenished allowance. *)
Lemma operand_is_replenished (self : TMDBRateLimiter.t) (current : Z) :
  0 < TMDBRateLimiter.rate self <= 2 ^ 53 ->
  ((if TMDBRateLimiter.Qlt_bool (inject_Z (TMDBRateLimiter.rate self))
                                (refilled binary64 self current)
    then binary64 (inject_Z (TMDBRateLimiter.rate self))
    else refilled binary64 self current)
   == replenished binary64 self current)%Q.
Proof.
  intros Hr. rewrite replenished_refilled.
  destruct (TMDBRateLimiter.Qlt_bool _ _) eqn:C.
  - apply Qlt_bool_iff in C. rewrite (rate_exact Hr).
    symmetry. apply Q.min_r. lra.
  - apply Qlt_bool_false in C. symmetry. apply Q.min_l. exact C.
Qed.

Lemma replenished_representable (self : TMDBRateLimiter.t) (current : Z) :
  0 < TMDBRateLimiter.rate self <= 2 ^ 53 ->
  representable (replenished binary64 self current).
Proof.
  intros Hr. apply representable_comp with (1 := operand_is_replenished self current Hr).
  destruct (TMDBRateLimiter.Qlt_bool _ _); apply binary64_representable.
Qed.

(** C5 (amended). Take a limiter with a rate from 1 to [2 ** 53] and a
    period that is not 0, and a call of [acquire], in the arithmetic of
    doubles, whatever the allowance, the last check and the instant within
    the range of doubles ([moderate]). The
    replenished allowance is the old one plus [elapsed * (rate / period)],
    every result rounded, capped at [rate]. If it is at least 1 the call
    deducts exactly 1 and does not sleep; if it is below 1 the call sleeps
    [(1 - allowance) * (period / rate)] seconds, every result rounded, and
    sets the allowance to 0. In both cases the call returns, [last_check]
    is the instant of the call, the configuration is as it was, and the
    allowance ends in [0, rate]. *)
Theorem acquire_token_bucket (self : TMDBRateLimiter.t) (current : Z) :
  0 < TMDBRateLimiter.rate self <= 2 ^ 53 ->
  TMDBRateLimiter.period self <> 0 ->
  moderate self current ->
  ((1 <= replenished binary64 self current)%Q ->
   fst (TMDBRateLimiter.acquire binary64 self current) = Ok None
   /\ (TMDBRateLimiter.allowance
         (snd (TMDBRateLimiter.acquire binary64 self current))
       == replenished binary64 self current - 1)%Q)
  /\ ((replenished binary64 self current < 1)%Q ->
      exists slept,
        fst (TMDBRateLimiter.acquire binary64 self current) = Ok (Some slept)
        /\ (slept
            == binary64
                 (binary64 (1 - replenished binary64 self current)
                  * binary64 (inject_Z (TMDBRateLimiter.period self)
                              / inject_Z (TMDBRateLimiter.rate self))))%Q
        /\ TMDBRateLimiter.allowance
             (snd (TMDBRateLimiter.acquire binary64 self current)) = 0%Q)
  /\ (exists slept,
         fst (TMDBRateLimiter.acquire binary64 self current) = Ok slept)
  /\ TMDBRateLimiter.last_check
       (snd (TMDBRateLimiter.acquire binary64 self current)) = current
  /\ TMDBRateLimiter.rate
       (snd (TMDBRateLimiter.acquire binary64 self current))
     = TMDBRateLimiter.rate self
  /\ TMDBRateLimiter.period
       (snd (TMDBRateLimiter.acquire binary64 self current))
     = TMDBRateLimiter.period self
  /\ (0 <= TMDBRateLimiter.allowance
             (snd (TMDBRateLimiter.acquire binary64 self current))
      <= inject_Z (TMDBRateLimiter.rate self))%Q.
Proof.
  intros Hr Hp _.
  rewrite (@acquire_run binary64 self current) by lia.
  pose proof (operand_is_replenished self current Hr) as O.
  pose proof (replenished_representable self current Hr) as Rp.
  assert (C : (replenished binary64 self current
               <= inject_Z (TMDBRateLimiter.rate self))%Q)
    by (unfold replenished; apply Q.le_min_r).
  assert (R : (1 <= inject_Z (TMDBRateLimiter.rate self))%Q)
    by (apply one_le_rate; lia).
  assert (B : (inject_Z (TMDBRateLimiter.rate self) <= inject_Z (2 ^ 53))%Q)
    by (rewrite <- Zle_Qle; lia).
  destruct (TMDBRateLimiter.Qlt_bool (replenished binary64 self current) 1)
    eqn:E; cbn [fst snd TMDBRateLimiter.allowance TMDBRateLimiter.with_state
                TMDBRateLimiter.last_check TMDBRateLimiter.rate
                TMDBRateLimiter.period].
  - apply Qlt_bool_iff in E.
    split; [intros L; destruct (Qlt_not_le _ _ E L)|].
    split.
    { intros _. eexists. split; [reflexivity|]. split; [|reflexivity].
      rewrite O. reflexivity. }
    split; [eexists; reflexivity|].
    repeat split; try reflexivity; lra.
  - apply Qlt_bool_false in E.
    assert (P : (binary64 ((if TMDBRateLimiter.Qlt_bool
                                 (inject_Z (TMDBRateLimiter.rate self))
                                 (refilled binary64 self current)
                            then binary64 (inject_Z
                                             (TMDBRateLimiter.rate self))
                            else refilled binary64 self current) - 1)
                 == replenished binary64 self current - 1)%Q).
    { rewrite O. apply binary64_pred; [exact Rp | exact E | lra]. }
    split; [intros _; split; [reflexivity | exact P]|].
    split; [intros L; destruct (Qlt_not_le _ _ L E)|].
    split; [eexists; reflexivity|].
    repeat split; try reflexivity; rewrite P; lra.
Qed.

Lemma acquire_token_bucket_witness :
  fst (TMDBRateLimiter.acquire binary64 (TMDBRateLimiter.init 40 10 0) 250000)
  = Ok None
  /\ (TMDBRateLimiter.allowance
        (snd (TMDBRateLimiter.acquire
                binary64 (TMDBRateLimiter.init 40 10 0) 250000))
      == replenished binary64 (TMDBRateLimiter.init 40 10 0) 250000 - 1)%Q.
Proof.
  apply (proj1 (@acquire_token_bucket
                  (TMDBRateLimiter.init 40 10 0) 250000
                  ltac:(simpl; lia) ltac:(simpl; lia)
                  ltac:(repeat split; vm_compute; discriminate))).
  vm_compute. discriminate.
Defined.

(** C5, as stated, fails: the call can fail. A limiter configured with a
    rate of 0 divides by it, and [acquire] raises [ZeroDivisionError]
    instead of returning. *)
Lemma acquire_zero_rate_counterexample :
  fst (TMDBRateLimiter.acquire binary64 (TMDBRateLimiter.init 0 10 0) 250000)
  = Raise ZeroDivisionError
  /\ ~ (exists slept,
           fst (TMDBRateLimiter.acquire
                  binary64 (TMDBRateLimiter.init 0 10 0) 250000)
           = Ok slept).
Proof.
  split; [reflexivity|]. intros [slept E]. vm_compute in E. discriminate E.
Qed.

(** With a negative rate the allowance does not end in [0, rate]. *)
Example acquire_with_negative_rate :
  TMDBRateLimiter.allowance
    (snd (TMDBRateLimiter.acquire
            binary64 (TMDBRateLimiter.init (-1) 10 0) 250000))
  = 0%Q
  /\ ~ (0 <= inject_Z (-1))%Q.
Proof. split; [vm_compute; reflexivity | vm_compute; congruence]. Qed.

(** A burst of [rate] acquisitions empties the bucket and the next one
    sleeps [period / rate] seconds. *)
Example acquire_after_burst_sleeps :
  exists slept,
    fst (TMDBRateLimiter.acquire
           binary64
           (Examples.burst 40 (TMDBRateLimiter.init 40 10 0) 0) 0)
    = Ok (Some slept)
    /\ (slept == 1 # 4)%Q.
Proof. eexists. split; [vm_compute; reflexivity | reflexivity]. Qed.

(** The rounding decides the branch. With the default configuration, from
    an empty bucket, calls 0.35 and 0.15 seconds apart: over the rationals
    the refills are 1.4 and 0.6 and neither call sleeps; in the arithmetic
    of doubles the second call finds the double below 1 and sleeps. *)
Example acquire_rounding_decides_the_branch :
  map immediate
      (fst (acquire_each
              unrounded
              (TMDBRateLimiter.with_state (TMDBRateLimiter.init 40 10 0) 0%Q 0)
              [350000; 500000]%Z))
  = [true; true]
  /\ map immediate
         (fst (acquire_each
                 binary64
                 (TMDBRateLimiter.with_state
                    (TMDBRateLimiter.init 40 10 0) 0%Q 0)
                 [350000; 500000]%Z))
     = [true; false]
  /\ (replenished
        binary64
        (snd (TMDBRateLimiter.acquire
                binary64
                (TMDBRateLimiter.with_state
                   (TMDBRateLimiter.init 40 10 0) 0%Q 0)
                350000))
        500000
      == 1 - pow2 (-53))%Q.
Proof. repeat split; vm_compute; reflexivity. Qed.

(** ** Frames: what a piece of the poll loop may touch *)

Lemma row_rel_refl (P : Z -> Prop) (r : Subscription) : row_rel P r r.
Proof. left. reflexivity. Qed.

Lemma row_rel_trans (P : Z -> Prop) (r1 r2 r3 : Subscription) :
  row_rel P r1 r2 -> row_rel P r2 r3 -> row_rel P r1 r3.
Proof.
  intros [->|[H1 [t1 ->]]] [->|[H2 [t2 ->]]].
  - left; reflexivity.
  - right; split; [exact H2 | exists t2; reflexivity].
  - right; split; [exact H1 | exists t1; reflexivity].
  - right; split; [exact H1 | exists t2; reflexivity].
Qed.

Lemma row_rel_keys (P : Z -> Prop) (r r' : Subscription) :
  row_rel P r r' -> sub_id r' = sub_id r /\ sub_guild_id r' = sub_guild_id r.
Proof. intros [->|[_ [t ->]]]; split; reflexivity. Qed.

Lemma Forall2_refl_rows (P : Z -> Prop) (l : list Subscription) :
  Forall2 (row_rel P) l l.
Proof. induction l; constructor; auto using row_rel_refl. Qed.

Lemma Forall2_trans_rows (P : Z -> Prop) (l1 l2 l3 : list Subscription) :
  Forall2 (row_rel P) l1 l2 -> Forall2 (row_rel P) l2 l3 ->
  Forall2 (row_rel P) l1 l3.
Proof.
  intros H. revert l3. induction H; intros l3 H3; inversion H3; subst.
  - constructor.
  - constructor; [eapply row_rel_trans; eassumption | auto].
Qed.

Section Frame.

Variable A : Event -> Prop.
Variable P : Z -> Prop.

Lemma frame_refl (w : World) : frame A P w w.
Proof.
  constructor; [reflexivity | lia | | apply Forall2_refl_rows].
  exists []. rewrite app_nil_r. split; [reflexivity | constructor].
Qed.

Lemma frame_trans (w1 w2 w3 : World) :
  frame A P w1 w2 -> frame A P w2 w3 -> frame A P w1 w3.
Proof.
  intros [G1 T1 [n1 [E1 F1]] R1] [G2 T2 [n2 [E2 F2]] R2].
  constructor.
  - congruence.
  - lia.
  - exists (n1 ++ n2). rewrite E2, E1, app_assoc. split; [reflexivity|].
    apply Forall_app. split; assumption.
  - eapply Forall2_trans_rows; eassumption.
Qed.

Lemma framed_ret {X} (x : X) : framed A P (ret x).
Proof. intros w. apply frame_refl. Qed.

Lemma framed_raise {X} (e : Exn) : framed A P (@raise X e).
Proof. intros w. apply frame_refl. Qed.

Lemma framed_lift {X} (r : Res X) : framed A P (lift r).
Proof. intros w. apply frame_refl. Qed.

Lemma framed_read {X} (f : World -> X) : framed A P (read f).
Proof. intros w. apply frame_refl. Qed.

Lemma framed_bind {X Y} (m : M X) (k : X -> M Y) :
  framed A P m -> (forall x, framed A P (k x)) -> framed A P (bind m k).
Proof.
  intros Hm Hk w. unfold bind. specialize (Hm w).
  destruct (m w) as [[x|e] w1]; cbn in *; [|exact Hm].
  eapply frame_trans; [exact Hm | apply Hk].
Qed.

Lemma framed_try_except {X} (m : M X) (h : Exn -> M X) :
  framed A P m -> (forall e, framed A P (h e)) -> framed A P (try_except m h).
Proof.
  intros Hm Hh w. unfold try_except. specialize (Hm w).
  destruct (m w) as [[x|e] w1]; cbn in *; [exact Hm|].
  eapply frame_trans; [exact Hm | apply Hh].
Qed.

Lemma framed_for_each {X} (xs : list X) (body : X -> M unit) :
  (forall x, In x xs -> framed A P (body x)) -> framed A P (for_each xs body).
Proof.
  induction xs as [|x xs IH]; intros H; cbn [for_each].
  - apply framed_ret.
  - apply framed_bind; [apply H; left; reflexivity|].
    intros _. apply IH. intros y I. apply H. right. exact I.
Qed.

Lemma framed_consult : framed A P consult.
Proof.
  intros w. constructor; cbn; [reflexivity | lia | | apply Forall2_refl_rows].
  exists []. rewrite app_nil_r. split; [reflexivity | constructor].
Qed.

Lemma framed_set_total_updates (n : nat) : framed A P (set_total_updates n).
Proof.
  intros w. constructor; cbn; [reflexivity | lia | | apply Forall2_refl_rows].
  exists []. rewrite app_nil_r. split; [reflexivity | constructor].
Qed.

Lemma framed_emit (e : Event) : A e -> framed A P (emit e).
Proof.
  intros He w. constructor; cbn; [reflexivity | lia | | apply Forall2_refl_rows].
  exists [e]. split; [reflexivity | constructor; [exact He | constructor]].
Qed.

Lemma framed_now (env : Env) : framed A P (now env).
Proof.
  apply framed_bind; [apply framed_consult | intros; apply framed_ret].
Qed.

End Frame.

Ltac framed_basic :=
  repeat first
    [ apply framed_ret | apply framed_raise | apply framed_lift
    | apply framed_read | apply framed_consult | apply framed_now
    | apply framed_set_total_updates
    | apply framed_bind; [|intros]
    | apply framed_try_except; [|intros] ].

Section FramedCode.

Variable env : Env.
Variable A : Event -> Prop.
Variable P : Z -> Prop.

(** The evaluator reads the clock and nothing else. *)
Lemma framed_check_for_updates (s : Subscription) (d : Details) :
  framed A P (_check_for_updates env s d).
Proof.
  unfold _check_for_updates.
  repeat match goal with
         | |- framed _ _ (if ?c then _ else _) => destruct c
         | |- framed _ _ (let _ := _ in _) => cbv zeta
         | _ => framed_basic
         end.
Qed.

Lemma framed_set_last_checked (sid : Z) (t : option Z) (w : World) :
  P sid ->
  Forall2 (row_rel P) (subscriptions w)
    (map (fun r => if sub_id r =? sid then with_last_checked t r else r)
         (subscriptions w)).
Proof.
  intros HP. induction (subscriptions w) as [|r l IH]; cbn; constructor; auto.
  destruct (Z.eqb_spec (sub_id r) sid) as [E|E].
  - right. split; [rewrite E; exact HP | exists t; reflexivity].
  - left. reflexivity.
Qed.

Section OneSubscription.

Variable s : Subscription.
Hypothesis HA : forall e, local_to (sub_id s) e -> A e.

Lemma A_log (r : LogRecord) : A (EvLog r).
Proof. apply HA. split; [reflexivity | left; reflexivity]. Qed.

Lemma A_about (e : Event) :
  event_guild e = None -> event_subscription e = Some (sub_id s) -> A e.
Proof. intros G E. apply HA. split; [exact G | right; exact E]. Qed.

Lemma framed_log (r : LogRecord) : framed A P (log r).
Proof. apply framed_emit, A_log. Qed.

Lemma framed_send_notification (g : DiscordGuild) (gd : GuildData)
      (n : Notification) :
  framed A P (_send_notification env g gd s n).
Proof.
  unfold _send_notification. cbv zeta.
  apply framed_try_except; [|intros; apply framed_log].
  match goal with |- framed _ _ (match ?c with _ => _ end) => destruct c end;
    [|apply framed_log].
  unfold channel_send. framed_basic; try apply framed_log.
  - apply framed_emit, A_about; reflexivity.
  - destruct (send_fails env x0); framed_basic.
Qed.

Lemma framed_fetch :
  framed A P (if String.eqb (media_type s) "movie"
              then get_movie_details env s else get_tv_details env s).
Proof.
  destruct (String.eqb (media_type s) "movie");
    unfold get_movie_details, get_tv_details; framed_basic;
    apply framed_emit, A_about; reflexivity.
Qed.

Lemma framed_update_last_checked :
  P (sub_id s) -> framed A P (update_last_checked env s).
Proof.
  intros HP. unfold update_last_checked. framed_basic.
  destruct (db_fails env x0); [apply framed_raise|].
  intros w. unfold bind, read, set_subscriptions, emit. cbn.
  constructor; cbn; [reflexivity | lia | |].
  - exists [EvUpdateLastChecked (sub_id s) x]. split; [reflexivity|].
    constructor; [apply A_about; reflexivity | constructor].
  - apply framed_set_last_checked, HP.
Qed.

Lemma framed_evaluate_and_record (g : DiscordGuild) (gd : GuildData)
      (d : Details) :
  P (sub_id s) -> framed A P (evaluate_and_record env g gd s d).
Proof.
  intros HP. unfold evaluate_and_record.
  apply framed_bind; [apply framed_emit, A_about; reflexivity|]. intros _.
  apply framed_bind; [apply framed_check_for_updates|]. intros notification.
  apply framed_bind.
  { destruct notification as [n|]; [|apply framed_ret].
    apply framed_bind; [apply framed_emit, A_about; reflexivity|]. intros _.
    apply framed_bind; [apply framed_send_notification|]. intros _.
    framed_basic. }
  intros _.
  apply framed_bind; [apply framed_update_last_checked, HP|]. intros _.
  apply framed_emit, HA. split; [reflexivity | left; reflexivity].
Qed.

Lemma framed_check_subscription (g : DiscordGuild) (gd : GuildData) :
  P (sub_id s) -> framed A P (check_subscription env g gd s).
Proof.
  intros HP. unfold check_subscription.
  apply framed_bind.
  { destruct (last_checked s); framed_basic. }
  intros [|]; [apply framed_ret|].
  apply framed_bind; [apply framed_fetch|]. intros d.
  apply framed_evaluate_and_record, HP.
Qed.

Lemma framed_subscription_iteration (g : DiscordGuild) (gd : GuildData) :
  P (sub_id s) -> framed A P (subscription_iteration env g gd s).
Proof.
  intros HP. apply framed_try_except.
  - apply framed_check_subscription, HP.
  - intros e. apply framed_log.
Qed.

End OneSubscription.

End FramedCode.

(** ** One subscription in one cycle *)

Lemma bind_ok {X Y} (m : M X) (k : X -> M Y) (w w1 : World) (x : X) :
  m w = (Ok x, w1) -> bind m k w = k x w1.
Proof. intros H. unfold bind. rewrite H. reflexivity. Qed.

Lemma rows_unchanged (l l' : list Subscription) :
  Forall2 (row_rel (fun _ => False)) l l' -> l' = l.
Proof.
  induction 1 as [|r r' l l' [E|[[] _]] _ IH]; [reflexivity|].
  rewrite E, IH. reflexivity.
Qed.

Section OneTurn.

Variable env : Env.
Variable g : DiscordGuild.
Variable gd : GuildData.
Variable s : Subscription.

(** A fresh subscription: the body stops at [continue]. *)
Lemma check_subscription_fresh (w : World) :
  is_fresh env s w = true ->
  check_subscription env g gd s w
  = (Ok tt, {| guilds := guilds w; subscriptions := subscriptions w;
               tick := S (tick w); trace := trace w;
               total_updates := total_updates w |}).
Proof.
  unfold is_fresh, check_subscription. destruct (last_checked s); [|discriminate].
  intros F. unfold bind, now, consult, ret. cbn. rewrite F. reflexivity.
Qed.

(** A stale subscription: the body reaches the fetch. *)
Lemma check_subscription_stale (w : World) :
  is_fresh env s w = false ->
  check_subscription env g gd s w
  = match tmdb_request env (fetch_tick s w) (endpoint s) (tmdb_id s) with
    | Raise e => (Raise e, after_fetch s w)
    | Ok details => evaluate_and_record env g gd s details (after_fetch s w)
    end.
Proof.
  unfold is_fresh, check_subscription, after_fetch.
  destruct (last_checked s) as [c|] eqn:L; intros F;
    (assert (T : fetch_tick s w = match last_checked s with
                                  | Some _ => S (tick w)
                                  | None => tick w
                                  end)
      by reflexivity);
    rewrite T, L; clear T;
    (assert (E : endpoint s
                 = if String.eqb (media_type s) "movie" then "movie" else "tv")
      by reflexivity);
    rewrite E; clear E.
  - unfold bind at 1. unfold bind at 1. unfold now, consult, ret. cbn.
    rewrite F.
    destruct (String.eqb (media_type s) "movie");
      unfold get_movie_details, get_tv_details, bind, consult, emit, lift; cbn;
      destruct (tmdb_request env (S (tick w)) _ (tmdb_id s)); reflexivity.
  - unfold bind at 1. unfold ret at 1. cbn.
    destruct (String.eqb (media_type s) "movie");
      unfold get_movie_details, get_tv_details, bind, consult, emit, lift; cbn;
      destruct (tmdb_request env (tick w) _ (tmdb_id s)); reflexivity.
Qed.

Lemma update_last_checked_ok (w : World) :
  db_fails env (S (tick w)) = false ->
  update_last_checked env s w
  = (Ok tt,
     {| guilds := guilds w;
        subscriptions :=
          map (fun r => if sub_id r =? sub_id s
                        then with_last_checked (Some (utcnow env (tick w))) r
                        else r) (subscriptions w);
        tick := S (S (tick w));
        trace := trace w
                 ++ [EvUpdateLastChecked (sub_id s) (utcnow env (tick w))];
        total_updates := total_updates w |}).
Proof.
  intros D. unfold update_last_checked, bind, now, consult, ret. cbn.
  rewrite D. reflexivity.
Qed.

(** Evaluating and dispatching leave the subscription table alone and
    return normally when the evaluator does. *)
Lemma evaluate_and_dispatch (d : Details) (w : World) :
  (exists r, fst (_check_for_updates env s d w) = Ok r) ->
  exists w1,
    (notification <- _check_for_updates env s d ;;
     match notification with
     | Some n =>
         emit (EvDispatch (sub_id s)) ;;
         _send_notification env g gd s n ;;
         total <- read total_updates ;;
         set_total_updates (S total)
     | None => ret tt
     end) w = (Ok tt, w1)
    /\ subscriptions w1 = subscriptions w
    /\ (tick w <= tick w1)%nat
    /\ exists new, trace w1 = trace w ++ new.
Proof.
  intros [r Hr].
  pose proof (framed_check_for_updates env (fun _ => True) (fun _ => False)
                                       s d w) as F1.
  destruct (_check_for_updates env s d w) as [r' w1] eqn:E1.
  cbn in Hr, F1. subst r'.
  erewrite bind_ok; [|exact E1].
  assert (FS : forall n w0, frame (fun _ => True) (fun _ => False) w0
                 (snd (_send_notification env g gd s n w0)))
    by (intros n w0; apply framed_send_notification; intros; exact I).
  assert (Fin : forall w2 w3 : World,
             frame (fun _ => True) (fun _ => False) w w2 ->
             subscriptions w3 = subscriptions w2 ->
             (tick w2 <= tick w3)%nat ->
             (exists new, trace w3 = trace w2 ++ new) ->
             subscriptions w3 = subscriptions w
             /\ (tick w <= tick w3)%nat
             /\ exists new, trace w3 = trace w ++ new).
  { intros w2 w3 [_ T [n2 [E2 _]] R] S3 T3 [n3 E3]. split; [|split].
    - rewrite S3. apply rows_unchanged, R.
    - lia.
    - exists (n2 ++ n3). rewrite E3, E2, app_assoc. reflexivity. }
  destruct r as [n|].
  - unfold bind, emit, read, set_total_updates. cbn.
    match goal with
    | |- context [_send_notification env g gd s n ?w0] =>
        pose proof (FS n w0) as F2;
        pose proof (send_notification_ok env g gd s n w0) as O2
    end.
    match goal with
    | |- context [_send_notification env g gd s n ?w0] =>
        destruct (_send_notification env g gd s n w0) as [r2 w2] eqn:E2
    end.
    cbn in O2, F2. subst r2. cbn.
    eexists. split; [reflexivity|]. cbn.
    destruct F2 as [_ T2 [n2 [E2' _]] R2]. cbn in *.
    apply (Fin w1 w2 F1).
    + apply rows_unchanged in R2. exact R2.
    + exact T2.
    + exists ([EvDispatch (sub_id s)] ++ n2). rewrite E2', app_assoc.
      reflexivity.
  - unfold ret. exists w1. split; [reflexivity|].
    apply (Fin w1 w1 F1); [reflexivity | lia |].
    exists []. rewrite app_nil_r. reflexivity.
Qed.

End OneTurn.

Lemma bind_assoc {X Y Z'} (m : M X) (k : X -> M Y) (h : Y -> M Z') (w : World) :
  bind (bind m k) h w = bind m (fun x => bind (k x) h) w.
Proof.
  unfold bind. destruct (m w) as [[x|e] w1]; reflexivity.
Qed.

(** C6. A subscription whose [last_checked] is set and less than the update
    interval old is skipped by its turn of the loop: nothing is fetched,
    neither the evaluator nor the dispatcher is called (the trace does not
    grow), and the subscription table, with its [last_checked], is as it
    was. *)
Theorem fresh_subscription_skipped
        (env : Env) (g : DiscordGuild) (gd : GuildData) (s : Subscription)
        (w : World) (checked : Z) :
  last_checked s = Some checked ->
  utcnow env (tick w) - checked
  < DateTime.timedelta_hours (UPDATE_INTERVAL_HOURS (config env)) ->
  fst (subscription_iteration env g gd s w) = Ok tt
  /\ trace (snd (subscription_iteration env g gd s w)) = trace w
  /\ subscriptions (snd (subscription_iteration env g gd s w))
     = subscriptions w
  /\ total_updates (snd (subscription_iteration env g gd s w))
     = total_updates w.
Proof.
  intros L H.
  assert (F : is_fresh env s w = true).
  { unfold is_fresh. rewrite L. apply Z.ltb_lt. exact H. }
  unfold subscription_iteration, try_except.
  rewrite (check_subscription_fresh env g gd s w F). cbn. auto.
Qed.

Lemma fresh_subscription_skipped_witness :
  trace (snd (subscription_iteration
                (Examples.env_of Examples.mar10_noon
                   (Ok (Examples.matrix_details "2024-03-10")) false
                   (Some Examples.home))
                Examples.home (Examples.home_data None (Some true))
                (with_last_checked
                   (Some (Examples.mar10 + 11 * DateTime.us_per_hour))
                   Examples.matrix)
                (Examples.world_of [] [])))
  = [].
Proof.
  apply (fresh_subscription_skipped
           (Examples.env_of Examples.mar10_noon
              (Ok (Examples.matrix_details "2024-03-10")) false
              (Some Examples.home))
           Examples.home (Examples.home_data None (Some true))
           (with_last_checked
              (Some (Examples.mar10 + 11 * DateTime.us_per_hour))
              Examples.matrix)
           (Examples.world_of [] [])
           (checked := Examples.mar10 + 11 * DateTime.us_per_hour)).
  - reflexivity.
  - vm_compute. reflexivity.
Defined.

(** C7. In the turn of a subscription that is due:
    - if the fetch raises, the turn ends in the handler: the table, and so
      [last_checked], is not written;
    - if the fetch and the evaluation return and the database accepts the
      write, [last_checked] of the subscription is set to the clock reading
      taken for the write, whatever became of the delivery (no channel, or
      a send that raised). *)
Theorem last_checked_after_failures
        (env : Env) (g : DiscordGuild) (gd : GuildData) (s : Subscription)
        (w : World) :
  is_fresh env s w = false ->
  (forall e,
      tmdb_request env (fetch_tick s w) (endpoint s) (tmdb_id s) = Raise e ->
      fst (subscription_iteration env g gd s w) = Ok tt
      /\ subscriptions (snd (subscription_iteration env g gd s w))
         = subscriptions w
      /\ trace (snd (subscription_iteration env g gd s w))
         = trace w ++ [EvFetch (sub_id s) (endpoint s) (tmdb_id s);
                       EvLog (ErrorSubscription (sub_id s) e)])
  /\ (forall d,
         tmdb_request env (fetch_tick s w) (endpoint s) (tmdb_id s) = Ok d ->
         (forall w0, exists r, fst (_check_for_updates env s d w0) = Ok r) ->
         (forall k, db_fails env k = false) ->
         exists k,
           (tick w <= k < tick (snd (subscription_iteration env g gd s w)))%nat
           /\ subscriptions (snd (subscription_iteration env g gd s w))
              = map (fun r => if sub_id r =? sub_id s
                              then with_last_checked (Some (utcnow env k)) r
                              else r) (subscriptions w)
           /\ In (EvUpdateLastChecked (sub_id s) (utcnow env k))
                 (trace (snd (subscription_iteration env g gd s w)))).
Proof.
  intros F. split.
  - intros e R. unfold subscription_iteration, try_except.
    rewrite (check_subscription_stale env g gd s w F), R. cbn.
    rewrite <- app_assoc. auto.
  - intros d R Ev Db.
    assert (E : exists w5,
               subscription_iteration env g gd s w
               = (Ok tt,
                  {| guilds := guilds w5;
                     subscriptions :=
                       map (fun r =>
                              if sub_id r =? sub_id s
                              then with_last_checked
                                     (Some (utcnow env (tick w5))) r
                              else r) (subscriptions w5);
                     tick := S (S (tick w5));
                     trace := (trace w5
                               ++ [EvUpdateLastChecked
                                     (sub_id s) (utcnow env (tick w5))])
                              ++ [EvSleep];
                     total_updates := total_updates w5 |})
               /\ subscriptions w5 = subscriptions w
               /\ (S (fetch_tick s w) <= tick w5)%nat).
    { unfold subscription_iteration, try_except.
      rewrite (check_subscription_stale env g gd s w F), R.
      unfold evaluate_and_record. unfold bind at 1. unfold emit at 1.
      match goal with
      | |- context [bind (_check_for_updates env s d) _ ?w3] =>
          destruct (evaluate_and_dispatch env g gd s d w3 (Ev w3))
            as [w5 [E5 [S5 [T5 _]]]];
          rewrite <- (bind_assoc (_check_for_updates env s d) _ _ w3)
      end.
      erewrite bind_ok; [|exact E5].
      unfold bind. rewrite (update_last_checked_ok env s w5 (Db _)).
      cbn in *. exists w5. auto. }
    destruct E as [w5 [E [S5 T5]]]. rewrite E. cbn.
    exists (tick w5). split; [|split].
    + unfold fetch_tick in T5. destruct (last_checked s); lia.
    + rewrite S5. reflexivity.
    + apply in_or_app. left. apply in_or_app. right. left. reflexivity.
Qed.

(** ** The loops *)

Lemma in_rows_keys (P : Z -> Prop) (l l' : list Subscription) (r' : Subscription) :
  Forall2 (row_rel P) l l' -> In r' l' ->
  exists r, In r l /\ sub_id r' = sub_id r /\ sub_guild_id r' = sub_guild_id r.
Proof.
  induction 1 as [|r0 r0' l l' H _ IH]; intros I; [destruct I|].
  destruct I as [<-|I].
  - exists r0. split; [left; reflexivity | apply (row_rel_keys H)].
  - destruct (IH I) as [r [Ir K]]. exists r. split; [right; exact Ir | exact K].
Qed.

Section Keeps.

Variable I : World -> Prop.

Lemma keeps_bind_returns {X Y} (m : M X) (k : X -> M Y) (Q : X -> Prop) :
  keeps I m -> returns I m Q -> (forall x, Q x -> keeps I (k x)) -> keeps I (bind m k).
Proof.
  intros Hm Hr Hk w Hw. unfold bind.
  specialize (Hm w Hw). specialize (Hr w).
  destruct (m w) as [[x|e] w1]; cbn in *; [|exact Hm].
  apply Hk; [apply Hr; [exact Hw | reflexivity] | exact Hm].
Qed.

Lemma keeps_bind {X Y} (m : M X) (k : X -> M Y) :
  keeps I m -> (forall x, keeps I (k x)) -> keeps I (bind m k).
Proof.
  intros Hm Hk. apply keeps_bind_returns with (Q := fun _ => True); auto.
  intros w x _ _. exact Logic.I.
Qed.

Lemma keeps_try_except {X} (m : M X) (h : Exn -> M X) :
  keeps I m -> (forall e, keeps I (h e)) -> keeps I (try_except m h).
Proof.
  intros Hm Hh w Hw. unfold try_except. specialize (Hm w Hw).
  destruct (m w) as [[x|e] w1]; cbn in *; [exact Hm|].
  apply Hh. exact Hm.
Qed.

End Keeps.

Lemma framed_keeps (A : Event -> Prop) (P : Z -> Prop) (w0 : World)
      {X} (m : M X) :
  framed A P m -> keeps (frame A P w0) m.
Proof. intros F w Hw. eapply frame_trans; [exact Hw | apply F]. Qed.

Section FramedLoops.

Variable env : Env.
Variable A : Event -> Prop.
Variable P : Z -> Prop.

(** Events about no subscription and no guild are allowed, and so are the
    events about a subscription whose key [P] allows. *)
Hypothesis A_plain :
  forall e, event_guild e = None -> event_subscription e = None -> A e.
Hypothesis A_sub :
  forall e sid, event_guild e = None -> event_subscription e = Some sid ->
                P sid -> A e.

Lemma A_local (s : Subscription) :
  P (sub_id s) -> forall e, local_to (sub_id s) e -> A e.
Proof.
  intros HP e [G [N|S]]; [apply A_plain; assumption|].
  eapply A_sub; eassumption.
Qed.

Lemma frame_check_guild (gd : GuildData) (w : World) :
  (get_guild env (guild_id gd) <> None ->
   A (EvGetSubscriptions (guild_id gd))
   /\ forall r, In r (subscriptions w) -> sub_guild_id r = guild_id gd ->
                P (sub_id r)) ->
  frame A P w (snd (check_guild env gd w)).
Proof.
  intros H. unfold check_guild.
  destruct (get_guild env (guild_id gd)) as [g|]; [|apply frame_refl].
  destruct H as [HG HP]; [discriminate|].
  unfold get_subscriptions, bind at 1, consult. cbn.
  match goal with
  | |- frame _ _ _ (snd (let (_, _) := (if ?c then _ else _) ?w1 in _)) =>
      assert (F1 : frame A P w w1)
  end.
  { constructor; cbn; [reflexivity | lia | | apply Forall2_refl_rows].
    eexists. split; [reflexivity|]. constructor; [exact HG | constructor]. }
  destruct (db_fails env (tick w)); [exact F1|].
  unfold bind at 1, read at 1, ret at 1. cbn.
  eapply frame_trans; [exact F1|].
  match goal with
  | |- frame _ _ ?w1 (snd (match ?l with _ => _ end ?w1')) =>
      assert (HS : forall s, In s l -> P (sub_id s));
      [|destruct l as [|s0 l0] eqn:El; [apply frame_refl|]]
  end.
  { intros s I. apply filter_In in I. destruct I as [I E].
    apply Z.eqb_eq in E. apply HP; assumption. }
  apply framed_bind.
  - apply framed_emit, A_plain; reflexivity.
  - intros _. apply framed_for_each. intros s I.
    apply framed_subscription_iteration; [apply A_local|]; apply HS, I.
Qed.

Lemma frame_guild_iteration (gd : GuildData) (w : World) :
  (get_guild env (guild_id gd) <> None ->
   A (EvGetSubscriptions (guild_id gd))
   /\ forall r, In r (subscriptions w) -> sub_guild_id r = guild_id gd ->
                P (sub_id r)) ->
  frame A P w (snd (guild_iteration env gd w)).
Proof.
  intros H. unfold guild_iteration, try_except.
  pose proof (frame_check_guild gd w H) as F.
  destruct (check_guild env gd w) as [[u|e] w1]; cbn in *; [exact F|].
  eapply frame_trans; [exact F|].
  apply framed_emit, A_plain; reflexivity.
Qed.

(** The loop over the guilds keeps the frame with respect to the world
    [w0] in which the cycle started. *)
Lemma frame_guild_loop (w0 : World) (gs : list GuildData) :
  (forall gd, In gd gs -> get_guild env (guild_id gd) <> None ->
              A (EvGetSubscriptions (guild_id gd))
              /\ forall r, In r (subscriptions w0) ->
                           sub_guild_id r = guild_id gd -> P (sub_id r)) ->
  forall w, frame A P w0 w ->
            frame A P w0 (snd (for_each gs (guild_iteration env) w)).
Proof.
  induction gs as [|gd gs IH]; intros H w F; cbn [for_each].
  - exact F.
  - unfold bind.
    assert (F1 : frame A P w (snd (guild_iteration env gd w))).
    { apply frame_guild_iteration. intros R.
      destruct (H gd (or_introl eq_refl) R) as [HG HP]. split; [exact HG|].
      intros r I E.
      destruct (in_rows_keys r (frame_rows F) I) as [r0 [I0 [K1 K2]]].
      rewrite K1. apply HP; [exact I0 | congruence]. }
    pose proof (guild_iteration_ok env gd w) as O.
    destruct (guild_iteration env gd w) as [[u|e] w1]; cbn in *;
      [|discriminate].
    apply IH.
    + intros gd' I. apply H. right. exact I.
    + eapply frame_trans; eassumption.
Qed.

Lemma framed_select_enabled_guilds : framed A P (select_enabled_guilds env).
Proof.
  unfold select_enabled_guilds.
  apply framed_bind; [apply framed_consult|]. intros k.
  apply framed_bind; [apply framed_emit, A_plain; reflexivity|]. intros _.
  destruct (db_fails env k); framed_basic.
Qed.

Lemma returns_select_enabled_guilds (w0 : World) :
  returns (frame A P w0) (select_enabled_guilds env)
          (fun gs => forall gd, In gd gs ->
                                In gd (guilds w0)
                                /\ auto_update_enabled gd = Some true).
Proof.
  intros w gs F. unfold select_enabled_guilds, bind, consult, emit, read, ret.
  cbn. destruct (db_fails env (tick w)); cbn; [discriminate|].
  intros E. inversion E; subst; clear E. intros gd I.
  apply filter_In in I. destruct I as [I En].
  rewrite (frame_guilds F) in I. split; [exact I|].
  destruct (auto_update_enabled gd) as [[|]|]; congruence.
Qed.

Lemma frame_update_check (w0 : World) :
  (forall gd, In gd (guilds w0) -> auto_update_enabled gd = Some true ->
              get_guild env (guild_id gd) <> None ->
              A (EvGetSubscriptions (guild_id gd))
              /\ forall r, In r (subscriptions w0) ->
                           sub_guild_id r = guild_id gd -> P (sub_id r)) ->
  frame A P w0 (snd (update_check env w0)).
Proof.
  intros H.
  assert (L : forall r, keeps (frame A P w0) (log r))
    by (intros r; apply framed_keeps, framed_emit, A_plain; reflexivity).
  assert (K : keeps (frame A P w0) (update_check env)).
  { unfold update_check, update_check_body.
    apply keeps_try_except; [|intros e; apply L].
    apply keeps_bind; [apply L|]. intros _.
    eapply keeps_bind_returns;
      [apply framed_keeps, framed_select_enabled_guilds
      |apply returns_select_enabled_guilds|].
    intros gs Hgs. cbv beta in Hgs.
    apply keeps_bind; [apply framed_keeps, framed_set_total_updates|].
    intros _. apply keeps_bind.
    - intros w F. apply frame_guild_loop; [|exact F].
      intros gd Ig R. destruct (Hgs gd Ig) as [I0 En]. apply H; assumption.
    - intros _. apply keeps_bind; [apply framed_keeps, framed_read|].
      intros total. apply L. }
  apply K, frame_refl.
Qed.

End FramedLoops.

(** ** Guilds the cycle leaves alone *)

Lemma NoDup_map_inj {X Y} (f : X -> Y) (l : list X) (a b : X) :
  NoDup (map f l) -> In a l -> In b l -> f a = f b -> a = b.
Proof.
  induction l as [|x l IH]; cbn; intros N Ia Ib E; [destruct Ia|].
  inversion N as [|? ? Nx Nl]; subst.
  destruct Ia as [->|Ia], Ib as [->|Ib]; auto.
  - destruct Nx. rewrite E. apply in_map, Ib.
  - destruct Nx. rewrite <- E. apply in_map, Ia.
Qed.

Lemma filter_guild_rows (P : Z -> Prop) (g : Z) (l l' : list Subscription) :
  Forall2 (row_rel P) l l' ->
  (forall r, In r l -> sub_guild_id r = g -> ~ P (sub_id r)) ->
  filter (fun s => sub_guild_id s =? g) l'
  = filter (fun s => sub_guild_id s =? g) l.
Proof.
  induction 1 as [|r r' l l' H _ IH]; intros N; [reflexivity|].
  cbn [filter]. destruct (row_rel_keys H) as [_ K]. rewrite K.
  rewrite IH by (intros r0 I; apply N; right; exact I).
  destruct (Z.eqb_spec (sub_guild_id r) g) as [E|E]; [|reflexivity].
  destruct H as [->|[HP _]]; [reflexivity|].
  destruct (N r (or_introl eq_refl) E HP).
Qed.

(** The cycle leaves alone every guild that is not among the enabled
    guilds the client resolves. *)
Lemma unprocessed_guild_left_alone (env : Env) (w : World) (g : Z) :
  NoDup (map sub_id (subscriptions w)) ->
  (forall gd, In gd (guilds w) -> auto_update_enabled gd = Some true ->
              get_guild env (guild_id gd) <> None -> guild_id gd <> g) ->
  guild_left_alone g w (snd (update_check env w)).
Proof.
  intros N H.
  pose (P := fun sid => ~ in_guild w g sid).
  pose (A := fun e => event_guild e <> Some g
                      /\ forall sid, event_subscription e = Some sid -> P sid).
  assert (F : frame A P w (snd (update_check env w))).
  { apply frame_update_check.
    - intros e G S. split; [congruence | intros sid E; congruence].
    - intros e sid G S HP. split; [congruence|].
      intros sid' E. rewrite S in E. inversion E; subst. exact HP.
    - intros gd I En R. split.
      + split; [cbn; intros E; inversion E; destruct (H gd I En R); assumption
               |cbn; intros sid E; discriminate E].
      + intros r Ir Er [r1 [I1 [K1 K2]]].
        assert (r1 = r) by (eapply NoDup_map_inj; eassumption).
        subst r1. destruct (H gd I En R). congruence. }
  destruct F as [_ _ [new [E Fa]] R]. split.
  - apply (filter_guild_rows R). intros r Ir Er HP. apply HP.
    exists r. auto.
  - exists new. split; [exact E|]. intros e Ie.
    rewrite Forall_forall in Fa. destruct (Fa e Ie) as [G S].
    split; [exact G|]. intros s Is Es Ev. apply (S _ Ev). exists s. auto.
Qed.

(** C9. A guild whose [auto_update_enabled] is false is skipped by a whole
    run of the cycle: its subscriptions are not loaded, no metadata is
    fetched and nothing is evaluated, dispatched or written for any of
    them, and its rows of the subscription table, with their
    [last_checked], are unchanged. Keys are unique in both tables, as
    primary keys are. *)
Theorem disabled_guild_left_alone (env : Env) (w : World) (G : GuildData) :
  NoDup (map sub_id (subscriptions w)) ->
  NoDup (map guild_id (guilds w)) ->
  In G (guilds w) ->
  auto_update_enabled G = Some false ->
  guild_left_alone (guild_id G) w (snd (update_check env w)).
Proof.
  intros Ns Ng I Off. apply unprocessed_guild_left_alone; [exact Ns|].
  intros gd Igd En _ E.
  assert (gd = G) by (eapply NoDup_map_inj; eassumption).
  subst gd. congruence.
Qed.

(** C10. A guild whose [auto_update_enabled] is true and whose identifier
    the client does not resolve is skipped by a whole run of the cycle in
    the same way: subscriptions not loaded, nothing fetched, evaluated,
    dispatched or written for them, rows unchanged. *)
Theorem unresolved_guild_left_alone (env : Env) (w : World) (G : GuildData) :
  NoDup (map sub_id (subscriptions w)) ->
  In G (guilds w) ->
  auto_update_enabled G = Some true ->
  get_guild env (guild_id G) = None ->
  guild_left_alone (guild_id G) w (snd (update_check env w)).
Proof.
  intros Ns I On U. apply unprocessed_guild_left_alone; [exact Ns|].
  intros gd Igd En R E. rewrite E in R. contradiction.
Qed.

(** ** Failures do not stop the loops *)

Lemma for_each_turns {X} (body : X -> M unit) :
  (forall x w, fst (body x w) = Ok tt) ->
  (forall x w, exists new, trace (snd (body x w)) = trace w ++ new) ->
  forall xs w,
    fst (for_each xs body w) = Ok tt
    /\ (exists new, trace (snd (for_each xs body w)) = trace w ++ new)
    /\ forall x, In x xs -> turn_taken body x (snd (for_each xs body w)).
Proof.
  intros Hok Hext. induction xs as [|x0 xs IH]; intros w; cbn [for_each].
  - split; [reflexivity|]. split; [|intros x []].
    exists []. rewrite app_nil_r. reflexivity.
  - unfold bind. specialize (Hok x0 w). destruct (Hext x0 w) as [n0 E0].
    destruct (body x0 w) as [[[]|e] w1] eqn:B; cbn in Hok, E0; [|discriminate].
    destruct (IH w1) as [O [[n1 E1] T]].
    split; [exact O|]. split.
    + exists (n0 ++ n1). rewrite E1, E0, app_assoc. reflexivity.
    + intros x [<-|I]; [|apply T, I].
      exists w, n1. rewrite B. exact E1.
Qed.

Lemma trace_grows_of_frame (A : Event -> Prop) (P : Z -> Prop) (w w' : World) :
  frame A P w w' -> exists new, trace w' = trace w ++ new.
Proof. intros [_ _ [new [E _]] _]. exists new. exact E. Qed.

Lemma subscription_iteration_grows (env : Env) (g : DiscordGuild)
      (gd : GuildData) (s : Subscription) (w : World) :
  exists new, trace (snd (subscription_iteration env g gd s w)) = trace w ++ new.
Proof.
  apply (@trace_grows_of_frame (fun _ => True) (fun _ => True)).
  apply framed_subscription_iteration; intros; exact I.
Qed.

Lemma guild_iteration_grows (env : Env) (gd : GuildData) (w : World) :
  exists new, trace (snd (guild_iteration env gd w)) = trace w ++ new.
Proof.
  apply (@trace_grows_of_frame (fun _ => True) (fun _ => True)).
  apply frame_guild_iteration; intros; try exact I.
  split; [exact I | intros; exact I].
Qed.

(** A subscription that is due has its metadata requested in its turn,
    whatever comes of the request. *)
Lemma due_subscription_fetched (env : Env) (g : DiscordGuild) (gd : GuildData)
      (s : Subscription) (w : World) :
  is_fresh env s w = false ->
  In (EvFetch (sub_id s) (endpoint s) (tmdb_id s))
     (trace (snd (subscription_iteration env g gd s w))).
Proof.
  intros F. unfold subscription_iteration, try_except.
  rewrite (check_subscription_stale env g gd s w F).
  destruct (tmdb_request env (fetch_tick s w) (endpoint s) (tmdb_id s))
    as [d|e].
  - assert (G : exists new,
               trace (snd (evaluate_and_record env g gd s d (after_fetch s w)))
               = trace (after_fetch s w) ++ new).
    { apply (@trace_grows_of_frame (fun _ => True) (fun _ => True)).
      apply framed_evaluate_and_record; intros; exact I. }
    destruct G as [new G].
    destruct (evaluate_and_record env g gd s d (after_fetch s w))
      as [[[]|e] w1]; cbn in *.
    + rewrite G. apply in_or_app. left. apply in_or_app. right. left.
      reflexivity.
    + rewrite G. apply in_or_app. left. apply in_or_app. left.
      apply in_or_app. right. left. reflexivity.
  - cbn. apply in_or_app. left. apply in_or_app. right. left. reflexivity.
Qed.

(** A guild the client resolves has its subscriptions requested in its
    turn. *)
Lemma resolved_guild_loaded (env : Env) (gd : GuildData) (w : World) :
  get_guild env (guild_id gd) <> None ->
  In (EvGetSubscriptions (guild_id gd))
     (trace (snd (guild_iteration env gd w))).
Proof.
  intros R.
  assert (G : exists new,
             trace (snd (check_guild env gd w))
             = (trace w ++ [EvGetSubscriptions (guild_id gd)]) ++ new).
  { unfold check_guild.
    destruct (get_guild env (guild_id gd)) as [g|]; [|contradiction].
    unfold get_subscriptions, bind at 1, consult. cbn.
    destruct (db_fails env (tick w)).
    - exists []. rewrite app_nil_r. reflexivity.
    - unfold bind at 1, read at 1, ret at 1. cbn.
      match goal with
      | |- context [match ?l with _ => _ end ?w1] =>
          destruct l as [|s0 l0];
          [exists []; rewrite app_nil_r; reflexivity|];
          apply (@trace_grows_of_frame (fun _ => True) (fun _ => True) w1)
      end.
      apply framed_bind; [apply framed_emit; exact I|]. intros _.
      apply framed_for_each. intros s _.
      apply framed_subscription_iteration; intros; exact I. }
  destruct G as [new G]. unfold guild_iteration, try_except.
  destruct (check_guild env gd w) as [[[]|e] w1]; cbn in *; rewrite G.
  - apply in_or_app. left. apply in_or_app. right. left. reflexivity.
  - apply in_or_app. left. apply in_or_app. left. apply in_or_app. right.
    left. reflexivity.
Qed.

Lemma in_trace_of_turn {X} (body : X -> M unit) (x : X) (w' : World) (e : Event) :
  (forall w1, In e (trace (snd (body x w1)))) ->
  turn_taken body x w' -> In e (trace w').
Proof.
  intros H [w1 [rest E]]. rewrite E. apply in_or_app. left. apply H.
Qed.

Lemma never_checked_due (env : Env) (s : Subscription) :
  last_checked s = None -> due env s.
Proof. intros L w. unfold is_fresh. rewrite L. reflexivity. Qed.

(** The two loops on their own. Whatever the network, the database and
    Discord answer:
    - a turn of the loop over the subscriptions returns normally, so does
      the loop, and every subscription of the list that is due has its
      metadata requested, whatever happened to the ones before it;
    - a turn of the loop over the guilds returns normally, so does the loop,
      and every guild of the list that the client resolves has its
      subscriptions requested, whatever happened to the ones before it;
    - [update_check] returns normally. *)
Lemma loops_return_and_reach (env : Env) :
  (forall g gd subs w,
      (forall s w1, fst (subscription_iteration env g gd s w1) = Ok tt)
      /\ fst (for_each subs (subscription_iteration env g gd) w) = Ok tt
      /\ forall s, In s subs -> due env s ->
           In (EvFetch (sub_id s) (endpoint s) (tmdb_id s))
              (trace (snd (for_each subs (subscription_iteration env g gd) w))))
  /\ (forall gs w,
         (forall gd w1, fst (guild_iteration env gd w1) = Ok tt)
         /\ fst (for_each gs (guild_iteration env) w) = Ok tt
         /\ forall gd, In gd gs -> get_guild env (guild_id gd) <> None ->
              In (EvGetSubscriptions (guild_id gd))
                 (trace (snd (for_each gs (guild_iteration env) w))))
  /\ (forall w, fst (update_check env w) = Ok tt).
Proof.
  split; [|split].
  - intros g gd subs w.
    destruct (for_each_turns (subscription_iteration env g gd)
                (subscription_iteration_ok env g gd)
                (subscription_iteration_grows env g gd) subs w)
      as [O [_ T]].
    split; [apply subscription_iteration_ok|]. split; [exact O|].
    intros s I D. eapply in_trace_of_turn; [|apply T, I].
    intros w1. apply due_subscription_fetched, D.
  - intros gs w.
    destruct (for_each_turns (guild_iteration env)
                (guild_iteration_ok env) (guild_iteration_grows env) gs w)
      as [O [_ T]].
    split; [apply guild_iteration_ok|]. split; [exact O|].
    intros gd I R. eapply in_trace_of_turn; [|apply T, I].
    intros w1. apply resolved_guild_loaded, R.
  - intros w. apply try_except_log_ok.
Qed.

Lemma last_checked_after_failures_witness :
  In (EvLog (ErrorSending DiscordError))
     (trace (snd (subscription_iteration
                    (Examples.env_home Examples.mar10_noon
                       (Ok (Examples.matrix_details "2024-03-10")) true)
                    Examples.home (Examples.home_data (Some 200) (Some true))
                    Examples.matrix
                    (Examples.world_of
                       [Examples.home_data (Some 200) (Some true)]
                       [Examples.matrix]))))
  /\ exists k,
      (le 0%nat k
       /\ lt k (tick (snd (subscription_iteration
                             (Examples.env_home Examples.mar10_noon
                                (Ok (Examples.matrix_details "2024-03-10")) true)
                             Examples.home
                             (Examples.home_data (Some 200) (Some true))
                             Examples.matrix
                             (Examples.world_of
                                [Examples.home_data (Some 200) (Some true)]
                                [Examples.matrix])))))
      /\ subscriptions
           (snd (subscription_iteration
                   (Examples.env_home Examples.mar10_noon
                      (Ok (Examples.matrix_details "2024-03-10")) true)
                   Examples.home (Examples.home_data (Some 200) (Some true))
                   Examples.matrix
                   (Examples.world_of
                      [Examples.home_data (Some 200) (Some true)]
                      [Examples.matrix])))
         = [with_last_checked (Some Examples.mar10_noon) Examples.matrix]
      /\ In (EvUpdateLastChecked 1 Examples.mar10_noon)
            (trace (snd (subscription_iteration
                           (Examples.env_home Examples.mar10_noon
                              (Ok (Examples.matrix_details "2024-03-10")) true)
                           Examples.home
                           (Examples.home_data (Some 200) (Some true))
                           Examples.matrix
                           (Examples.world_of
                              [Examples.home_data (Some 200) (Some true)]
                              [Examples.matrix])))).
Proof.
  split; [vm_compute; tauto|].
  apply (proj2 (last_checked_after_failures
                  (Examples.env_home Examples.mar10_noon
                     (Ok (Examples.matrix_details "2024-03-10")) true)
                  Examples.home (Examples.home_data (Some 200) (Some true))
                  Examples.matrix
                  (Examples.world_of
                     [Examples.home_data (Some 200) (Some true)]
                     [Examples.matrix])
                  eq_refl)
               (Examples.matrix_details "2024-03-10")).
  - reflexivity.
  - intros w0. eexists. reflexivity.
  - intros k. reflexivity.
Defined.

Lemma disabled_guild_left_alone_witness :
  guild_left_alone 20
    (Examples.world_of
       [Examples.home_data None (Some true); Examples.other_data (Some false)]
       [Examples.matrix; Examples.severance_of_other])
    (snd (update_check
            (Examples.env_of Examples.mar10_noon
               (Ok (Examples.matrix_details "2024-03-10")) false
               (Some Examples.home))
            (Examples.world_of
               [Examples.home_data None (Some true);
                Examples.other_data (Some false)]
               [Examples.matrix; Examples.severance_of_other]))).
Proof.
  apply (disabled_guild_left_alone
           (Examples.env_of Examples.mar10_noon
              (Ok (Examples.matrix_details "2024-03-10")) false
              (Some Examples.home))
           (Examples.world_of
              [Examples.home_data None (Some true);
               Examples.other_data (Some false)]
              [Examples.matrix; Examples.severance_of_other])
           (Examples.other_data (Some false))).
  - simpl. repeat constructor; simpl; intuition discriminate.
  - simpl. repeat constructor; simpl; intuition discriminate.
  - simpl. auto.
  - reflexivity.
Defined.

Lemma unresolved_guild_left_alone_witness :
  guild_left_alone 20
    (Examples.world_of
       [Examples.home_data None (Some true); Examples.other_data (Some true)]
       [Examples.matrix; Examples.severance_of_other])
    (snd (update_check
            (Examples.env_home Examples.mar10_noon
               (Ok (Examples.matrix_details "2024-03-10")) false)
            (Examples.world_of
               [Examples.home_data None (Some true);
                Examples.other_data (Some true)]
               [Examples.matrix; Examples.severance_of_other]))).
Proof.
  apply (unresolved_guild_left_alone
           (Examples.env_home Examples.mar10_noon
              (Ok (Examples.matrix_details "2024-03-10")) false)
           (Examples.world_of
              [Examples.home_data None (Some true);
               Examples.other_data (Some true)]
              [Examples.matrix; Examples.severance_of_other])
           (Examples.other_data (Some true))).
  - simpl. repeat constructor; simpl; intuition discriminate.
  - simpl. auto.
  - reflexivity.
  - reflexivity.
Defined.

(** ** Runs of the whole cycle *)

(** The scenario of the specification: one enabled guild, one movie released
    today and never checked. The cycle fetches it, sends one release message
    to the configured channel and records the check. *)
Example cycle_notifies_release :
  update_check
    (Examples.env_home Examples.mar10_noon
       (Ok (Examples.matrix_details "2024-03-10")) false)
    (Examples.world_of [Examples.home_data (Some 200) (Some true)]
                       [Examples.matrix])
  = (Ok tt,
     {| guilds := [Examples.home_data (Some 200) (Some true)];
        subscriptions :=
          [with_last_checked (Some Examples.mar10_noon) Examples.matrix];
        tick := 8;
        trace :=
          [EvLog InfoStarting; EvSelectGuilds; EvGetSubscriptions 10;
           EvLog (InfoChecking 1 "Film Club"); EvFetch 1 "movie" 603;
           EvEvaluate 1; EvDispatch 1;
           EvSend 1 200 (Some 7)
                  {| e_template := release; e_title := Some "The Matrix";
                     e_date := "2024-03-10"; e_episode := None;
                     e_thumbnail := Some "/m.jpg"; e_link := ("movie", 603);
                     e_timestamp := Examples.mar10_noon |};
           EvLog (InfoSent (Some "The Matrix") 10);
           EvUpdateLastChecked 1 Examples.mar10_noon; EvSleep;
           EvLog (InfoComplete 1)];
        total_updates := 1 |}).
Proof. vm_compute. reflexivity. Qed.

(** A second cycle at once loads the subscription and skips it. *)
Example second_cycle_skips :
  trace (snd (update_check
                (Examples.env_home Examples.mar10_noon
                   (Ok (Examples.matrix_details "2024-03-10")) false)
                (Examples.world_of
                   [Examples.home_data (Some 200) (Some true)]
                   [with_last_checked (Some Examples.mar10_noon)
                                      Examples.matrix])))
  = [EvLog InfoStarting; EvSelectGuilds; EvGetSubscriptions 10;
     EvLog (InfoChecking 1 "Film Club"); EvLog (InfoComplete 0)].
Proof. vm_compute. reflexivity. Qed.

(** The database is down when the cycle selects the guilds: the exception
    reaches the outermost handler and [update_check] returns. *)
Example cycle_survives_select_failure :
  update_check (Examples.env_db_down (fun _ => true))
               (Examples.world_of [Examples.home_data None (Some true)]
                                  [Examples.matrix])
  = (Ok tt,
     {| guilds := [Examples.home_data None (Some true)];
        subscriptions := [Examples.matrix];
        tick := 1;
        trace := [EvLog InfoStarting; EvSelectGuilds;
                  EvLog (ErrorTask DatabaseError)];
        total_updates := 0 |}).
Proof. vm_compute. reflexivity. Qed.

(** The database is down when the first guild loads its subscriptions: the
    guild's handler logs it and the second guild is processed. *)
Example cycle_survives_guild_failure :
  trace (snd (update_check
                (Examples.env_db_down (Nat.eqb 1))
                (Examples.world_of
                   [Examples.home_data None (Some true);
                    Examples.other_data (Some true)]
                   [Examples.matrix; Examples.severance_of_other])))
  = [EvLog InfoStarting; EvSelectGuilds; EvGetSubscriptions 10;
     EvLog (ErrorGuild 10 DatabaseError); EvGetSubscriptions 20;
     EvLog (InfoChecking 1 "Film Club"); EvFetch 3 "tv" 95396; EvEvaluate 3;
     EvUpdateLastChecked 3 Examples.mar10_noon; EvSleep;
     EvLog (InfoComplete 0)].
Proof. vm_compute. reflexivity. Qed.

(** The fetch raises for the first subscription: its handler logs it,
    [last_checked] is not written, and the second subscription is fetched
    in its turn. *)
Example cycle_survives_fetch_failure :
  trace (snd (update_check
                (Examples.env_home Examples.mar10_noon (Raise ClientError) false)
                (Examples.world_of
                   [Examples.home_data None (Some true)]
                   [Examples.matrix; Examples.severance])))
  = [EvLog InfoStarting; EvSelectGuilds; EvGetSubscriptions 10;
     EvLog (InfoChecking 2 "Film Club");
     EvFetch 1 "movie" 603; EvLog (ErrorSubscription 1 ClientError);
     EvFetch 2 "tv" 95396; EvLog (ErrorSubscription 2 ClientError);
     EvLog (InfoComplete 0)].
Proof. vm_compute. reflexivity. Qed.

(** * Further properties of the code *)

(** ** The evaluator: the other rules, and what an outcome carries *)

(** [td.days = k] says that [td] lies in the [k]-th day. *)
Lemma days_range (td lo hi : Z) :
  lo <= DateTime.days td <= hi
  <-> lo * DateTime.us_per_day <= td < (hi + 1) * DateTime.us_per_day.
Proof.
  unfold DateTime.days.
  assert (P : 0 < DateTime.us_per_day) by reflexivity.
  pose proof (Z.div_mod td DateTime.us_per_day ltac:(lia)) as E.
  pose proof (Z.mod_pos_bound td DateTime.us_per_day P) as B.
  split; intros H; nia.
Qed.

Section EvaluatorRules.

Variable env : Env.
Variable w : World.
Variable s : Subscription.
Variable d : Details.

Lemma upcoming_branch (rel : string) (dt : Z) :
  media_type s = "movie" ->
  notify_on_release s = Some true ->
  status d = Some "Post Production" \/ status d = Some "In Production" ->
  release_date d = Some rel ->
  DateTime.strptime rel = Ok dt ->
  fst (_check_for_updates env s d w)
  = if (0 <=? DateTime.days (dt - utcnow env (tick w)))
       && (DateTime.days (dt - utcnow env (tick w)) <=? 7)
    then Ok (Some {| n_type := upcoming; n_date := rel;
                     n_title := d_title d; n_episode := None |})
    else Ok None.
Proof.
  intros Hm Hn Hs Hr Hp.
  unfold _check_for_updates, status_is.
  rewrite Hm, Hn, Hr.
  cbn [String.eqb Ascii.eqb Bool.eqb truthy_bool str_of].
  rewrite (strptime_ok_truthy _ Hp). cbn [andb].
  unfold bind, lift, now, consult, ret. rewrite Hp.
  destruct Hs as [Hs|Hs]; rewrite Hs; cbn;
    destruct ((0 <=? DateTime.days (dt - utcnow env (tick w)))
              && (DateTime.days (dt - utcnow env (tick w)) <=? 7));
    reflexivity.
Qed.

End EvaluatorRules.

(** X1. For a movie in production or post production, with
    [notify_on_release] true and a parseable [release_date], the evaluator
    emits an [upcoming] outcome exactly from eight days before the midnight
    that opens the release date (excluded) to that midnight (included), and
    returns no notification at any other instant; the outcome carries the
    date string and the title of the snapshot. *)
Theorem upcoming_release_window
        (env : Env) (w : World) (s : Subscription) (d : Details)
        (rel : string) (dt : Z) :
  media_type s = "movie" ->
  notify_on_release s = Some true ->
  status d = Some "Post Production" \/ status d = Some "In Production" ->
  release_date d = Some rel ->
  DateTime.strptime rel = Ok dt ->
  (dt - 8 * DateTime.us_per_day < utcnow env (tick w) <= dt ->
   fst (_check_for_updates env s d w)
   = Ok (Some {| n_type := upcoming; n_date := rel;
                 n_title := d_title d; n_episode := None |}))
  /\ (~ dt - 8 * DateTime.us_per_day < utcnow env (tick w) <= dt ->
      fst (_check_for_updates env s d w) = Ok None).
Proof.
  intros Hm Hn Hs Hr Hp.
  rewrite (upcoming_branch env w s d Hm Hn Hs Hr Hp).
  pose proof (days_range (dt - utcnow env (tick w)) 0 7) as R.
  destruct ((0 <=? DateTime.days (dt - utcnow env (tick w)))
            && (DateTime.days (dt - utcnow env (tick w)) <=? 7)) eqn:E.
  - apply andb_true_iff in E. rewrite !Z.leb_le in E.
    apply R in E. split; [reflexivity|]. intros N. exfalso. apply N.
    unfold DateTime.us_per_day in *. lia.
  - split; [|reflexivity]. intros H. exfalso.
    assert (X : 0 <= DateTime.days (dt - utcnow env (tick w)) <= 7).
    { apply R. unfold DateTime.us_per_day in *. lia. }
    rewrite <- !Z.leb_le, <- andb_true_iff in X. congruence.
Qed.

Lemma upcoming_release_window_witness :
  fst (_check_for_updates
         (Examples.env_of Examples.mar10_noon (Raise ClientError) false None)
         Examples.matrix
         (Examples.movie_details "Post Production" "2024-03-17")
         (Examples.world_of [] []))
  = Ok (Some {| n_type := upcoming; n_date := "2024-03-17";
                n_title := Some "Dune: Part Two"; n_episode := None |}).
Proof.
  apply (proj1 (upcoming_release_window
                  (Examples.env_of Examples.mar10_noon (Raise ClientError)
                                   false None)
                  (Examples.world_of [] []) Examples.matrix
                  (Examples.movie_details "Post Production" "2024-03-17")
                  (rel := "2024-03-17") (dt := Examples.mar17)
                  eq_refl eq_refl (or_introl eq_refl) eq_refl eq_refl)).
  vm_compute. split; [reflexivity | discriminate].
Defined.

(** X2. For a series with [notify_on_update] true whose snapshot has a
    [next_episode_to_air] with a parseable [air_date], the evaluator emits a
    [new_episode] outcome exactly when now lies from two days before the
    midnight that opens the air date (excluded) to one day before it
    (included); the outcome carries the air date, the name of the series and
    the episode object. At any other instant it returns no notification. *)
Theorem new_episode_window
        (env : Env) (w : World) (s : Subscription) (d : Details)
        (ep : Episode) (air : string) (dt : Z) :
  media_type s = "tv" ->
  notify_on_update s = Some true ->
  next_episode_to_air d = Some ep ->
  air_date ep = Some air ->
  DateTime.strptime air = Ok dt ->
  (dt - 2 * DateTime.us_per_day < utcnow env (tick w)
   <= dt - DateTime.us_per_day ->
   fst (_check_for_updates env s d w)
   = Ok (Some {| n_type := new_episode; n_date := air;
                 n_title := d_name d; n_episode := Some ep |}))
  /\ (~ dt - 2 * DateTime.us_per_day < utcnow env (tick w)
         <= dt - DateTime.us_per_day ->
      fst (_check_for_updates env s d w) = Ok None).
Proof.
  intros Hm Hn Hx Ha Hp.
  assert (Ht : truthy_episode (Some ep) = true)
    by (cbn; rewrite Ha; reflexivity).
  rewrite (next_episode_branch env w s d Hm Hn Hx Ht), Ha.
  rewrite (strptime_ok_truthy _ Hp). cbn [str_of]. rewrite Hp.
  pose proof (days_range (dt - utcnow env (tick w)) 1 1) as R.
  destruct (DateTime.days (dt - utcnow env (tick w)) =? 1) eqn:E.
  - apply Z.eqb_eq in E. split; [reflexivity|]. intros N. exfalso. apply N.
    assert (X : 1 <= DateTime.days (dt - utcnow env (tick w)) <= 1) by lia.
    apply R in X. unfold DateTime.us_per_day in *. lia.
  - apply Z.eqb_neq in E. split; [|reflexivity]. intros H. exfalso. apply E.
    assert (X : 1 <= DateTime.days (dt - utcnow env (tick w)) <= 1).
    { apply R. unfold DateTime.us_per_day in *. lia. }
    lia.
Qed.

Lemma new_episode_window_witness :
  fst (_check_for_updates
         (Examples.env_of (Examples.mar10_noon + 5 * DateTime.us_per_day)
                          (Raise ClientError) false None)
         Examples.severance
         (Examples.severance_details
            (Some "2024-03-10") (Some (Examples.episode_on "2024-03-17")))
         (Examples.world_of [] []))
  = Ok (Some {| n_type := new_episode; n_date := "2024-03-17";
                n_title := Some "Severance";
                n_episode := Some (Examples.episode_on "2024-03-17") |}).
Proof.
  apply (proj1 (new_episode_window
                  (Examples.env_of
                     (Examples.mar10_noon + 5 * DateTime.us_per_day)
                     (Raise ClientError) false None)
                  (Examples.world_of [] []) Examples.severance
                  (Examples.severance_details
                     (Some "2024-03-10")
                     (Some (Examples.episode_on "2024-03-17")))
                  (ep := Examples.episode_on "2024-03-17")
                  (air := "2024-03-17") (dt := Examples.mar17)
                  eq_refl eq_refl eq_refl eq_refl eq_refl)).
  vm_compute. split; [reflexivity | discriminate].
Defined.

(** On the eve of the air date, at noon, the day count is 0 and the
    "new episode tomorrow" rule does not fire. *)
Example new_episode_not_on_the_eve :
  fst (_check_for_updates
         (Examples.env_of (Examples.mar10_noon + 6 * DateTime.us_per_day)
                          (Raise ClientError) false None)
         Examples.severance
         (Examples.severance_details
            (Some "2024-03-10") (Some (Examples.episode_on "2024-03-17")))
         (Examples.world_of [] []))
  = Ok None.
Proof. reflexivity. Qed.

(** Every branch of the evaluator, one goal each. *)
Ltac evaluator_cases :=
  unfold _check_for_updates, bind, lift, now, consult, ret;
  repeat (match goal with
          | |- context [if ?c then _ else _] => destruct c eqn:?
          | |- context [match DateTime.strptime ?x with _ => _ end] =>
              destruct (DateTime.strptime x) eqn:?
          end; cbn).

(** X3. The evaluator never writes: it leaves both tables, the trace and
    the count of notifications as they are, and it reads the clock at most
    once. *)
Theorem evaluator_only_reads_the_clock
        (env : Env) (s : Subscription) (d : Details) (w : World) :
  guilds (snd (_check_for_updates env s d w)) = guilds w
  /\ subscriptions (snd (_check_for_updates env s d w)) = subscriptions w
  /\ trace (snd (_check_for_updates env s d w)) = trace w
  /\ total_updates (snd (_check_for_updates env s d w)) = total_updates w
  /\ (tick (snd (_check_for_updates env s d w)) = tick w
      \/ tick (snd (_check_for_updates env s d w)) = S (tick w)).
Proof.
  evaluator_cases.
  all: repeat (split; [reflexivity|]).
  all: first [left; reflexivity | right; reflexivity].
Qed.

Lemma truthy_str_some (x : option string) :
  truthy_str x = true -> x = Some (str_of x) /\ str_of x <> "".
Proof.
  destruct x as [v|]; cbn; [|discriminate].
  destruct (String.eqb_spec v ""); [discriminate|]. auto.
Qed.

Lemma status_is_true (d : Details) (name : string) :
  status_is d name = true -> status d = Some name.
Proof.
  unfold status_is. destruct (status d) as [v|]; [|discriminate].
  intros E. apply String.eqb_eq in E. congruence.
Qed.

Lemma truthy_episode_some (x : option Episode) :
  truthy_episode x = true -> exists ep, x = Some ep.
Proof. destruct x as [ep|]; [eauto | discriminate]. Qed.

Ltac evaluator_facts :=
  repeat match goal with
         | H : (_ && _)%bool = true |- _ =>
             apply andb_true_iff in H; destruct H
         | H : (_ || _)%bool = true |- _ =>
             apply orb_true_iff in H; destruct H
         | H : String.eqb _ _ = true |- _ => apply String.eqb_eq in H
         | H : status_is _ _ = true |- _ => apply status_is_true in H
         | H : Z.eqb _ _ = true |- _ => apply Z.eqb_eq in H
         end.

(** X4. An outcome of the evaluator is of a kind its subscription allows:
    [release] or [upcoming] only for a movie with [notify_on_release] on,
    [release] only for the status "Released" and [upcoming] only for "Post
    Production" or "In Production"; [new_episode] or [episode_aired] only
    for a series with [notify_on_update] on, [new_episode] only with a
    [next_episode_to_air] that is not empty and [episode_aired] only
    without one, or with an empty one. Any other media type, or a flag that
    is off or NULL, gives no outcome. *)
Theorem outcome_kind_is_allowed
        (env : Env) (s : Subscription) (d : Details) (w : World)
        (n : Notification) :
  fst (_check_for_updates env s d w) = Ok (Some n) ->
  (media_type s = "movie"
   /\ truthy_bool (notify_on_release s) = true
   /\ ((n_type n = release /\ status d = Some "Released")
       \/ (n_type n = upcoming
           /\ (status d = Some "Post Production"
               \/ status d = Some "In Production"))))
  \/ (media_type s = "tv"
      /\ truthy_bool (notify_on_update s) = true
      /\ ((n_type n = new_episode
           /\ truthy_episode (next_episode_to_air d) = true)
          \/ (n_type n = episode_aired
              /\ truthy_episode (next_episode_to_air d) = false))).
Proof.
  evaluator_cases; intros E; inversion E; subst; clear E; cbn;
    evaluator_facts;
    destruct (truthy_episode (next_episode_to_air d)) eqn:X; cbn in *;
    intuition congruence.
Qed.

(** The snapshot of the witness has the empty object under
    [next_episode_to_air]: the outcome is [episode_aired]. *)
Lemma outcome_kind_is_allowed_witness :
  (media_type Examples.severance = "movie"
   /\ truthy_bool (notify_on_release Examples.severance) = true
   /\ ((n_type Examples.severance_aired = release
        /\ status Examples.severance_after_finale = Some "Released")
       \/ (n_type Examples.severance_aired = upcoming
           /\ (status Examples.severance_after_finale
               = Some "Post Production"
               \/ status Examples.severance_after_finale
                  = Some "In Production"))))
  \/ (media_type Examples.severance = "tv"
      /\ truthy_bool (notify_on_update Examples.severance) = true
      /\ ((n_type Examples.severance_aired = new_episode
           /\ truthy_episode
                (next_episode_to_air Examples.severance_after_finale) = true)
          \/ (n_type Examples.severance_aired = episode_aired
              /\ truthy_episode
                   (next_episode_to_air Examples.severance_after_finale)
                 = false))).
Proof.
  apply (outcome_kind_is_allowed
           (Examples.env_of Examples.mar10_noon (Raise ClientError) false None)
           Examples.severance Examples.severance_after_finale
           (Examples.world_of [] []) (n := Examples.severance_aired)).
  reflexivity.
Defined.

(** X5. The date an outcome carries is a date string of the snapshot that
    parses: the [release_date] for [release] and [upcoming], the [air_date]
    of [next_episode_to_air] for [new_episode], which also carries that
    episode object, and the [last_air_date] for [episode_aired]. The title
    is the snapshot's [title] for a movie and its [name] for a series. *)
Theorem outcome_payload
        (env : Env) (s : Subscription) (d : Details) (w : World)
        (n : Notification) :
  fst (_check_for_updates env s d w) = Ok (Some n) ->
  (exists dt, DateTime.strptime (n_date n) = Ok dt)
  /\ match n_type n with
     | release | upcoming =>
         release_date d = Some (n_date n)
         /\ n_title n = d_title d /\ n_episode n = None
     | new_episode =>
         n_episode n = next_episode_to_air d
         /\ get_air_date (n_episode n) = Some (n_date n)
         /\ n_title n = d_name d
     | episode_aired =>
         last_air_date d = Some (n_date n)
         /\ n_title n = d_name d /\ n_episode n = None
     end.
Proof.
  evaluator_cases; intros E; inversion E; subst; clear E; cbn;
    evaluator_facts;
    repeat match goal with
           | H : truthy_str _ = true |- _ =>
               apply truthy_str_some in H; destruct H
           end;
    (split; [eexists; eassumption | auto]).
Qed.

Lemma outcome_payload_witness :
  exists dt, DateTime.strptime (n_date Examples.matrix_released) = Ok dt.
Proof.
  apply (proj1 (outcome_payload
                  (Examples.env_of Examples.mar10_noon (Raise ClientError)
                                   false None)
                  Examples.matrix (Examples.matrix_details "2024-03-10")
                  (Examples.world_of [] []) (n := Examples.matrix_released)
                  eq_refl)).
Defined.

(** ** The dispatcher: what it sends and what it leaves alone *)

(** The run of the dispatcher, once the destination is known. *)
Lemma send_notification_run
      (env : Env) (g : DiscordGuild) (gd : GuildData) (s : Subscription)
      (n : Notification) (w : World) :
  _send_notification env g gd s n w
  = (Ok tt,
     match (if negb (truthy_int (notification_channel_id gd))
            then system_channel g
            else match notification_channel_id gd with
                 | Some c => get_channel g c
                 | None => None
                 end) with
     | None =>
         {| guilds := guilds w; subscriptions := subscriptions w;
            tick := tick w;
            trace := trace w ++ [EvLog (WarningNoChannel (dg_id g))];
            total_updates := total_updates w |}
     | Some c =>
         {| guilds := guilds w; subscriptions := subscriptions w;
            tick := S (S (tick w));
            trace :=
              trace w
              ++ [EvSend (sub_id s) c
                    (if truthy_int (notification_role_id gd)
                        && NOTIFICATION_PING_ROLE (config env)
                     then match notification_role_id gd with
                          | Some r => get_role g r
                          | None => None
                          end
                     else None)
                    {| e_template := n_type n; e_title := n_title n;
                       e_date := n_date n; e_episode := n_episode n;
                       e_thumbnail := if truthy_str (poster_path s)
                                      then poster_path s else None;
                       e_link := (media_type s, tmdb_id s);
                       e_timestamp := utcnow env (tick w) |};
                  EvLog (if send_fails env (S (tick w))
                         then ErrorSending DiscordError
                         else InfoSent (n_title n) (dg_id g))];
            total_updates := total_updates w |}
     end).
Proof.
  unfold _send_notification. cbv zeta.
  destruct (if negb (truthy_int (notification_channel_id gd))
            then system_channel g
            else match notification_channel_id gd with
                 | Some c => get_channel g c
                 | None => None
                 end) as [c|]; [|reflexivity].
  run_dispatch.
  destruct (send_fails env (S (tick w))); unfold emit; cbn;
    rewrite <- app_assoc; reflexivity.
Qed.

Lemma get_role_some (g : DiscordGuild) (r x : Z) :
  get_role g r = Some x <-> x = r /\ In r (roles g).
Proof.
  unfold get_role. destruct (existsb (Z.eqb r) (roles g)) eqn:E.
  - apply existsb_eqb_In in E. split.
    + intros H. inversion H; subst. auto.
    + intros [-> _]. reflexivity.
  - split; [discriminate|]. intros [_ I].
    apply existsb_eqb_In in I. congruence.
Qed.

(** X6. Whatever message the dispatcher sends mentions the role [r] exactly
    when [notification_role_id] is [r] and not 0, the setting
    [NOTIFICATION_PING_ROLE] is on and [r] is a role of the guild; in every
    other case the message has no content. *)
Theorem role_mention_policy
        (env : Env) (g : DiscordGuild) (gd : GuildData) (s : Subscription)
        (n : Notification) (w : World) :
  exists new,
    trace (snd (_send_notification env g gd s n w)) = trace w ++ new
    /\ forall sid c content embed,
        In (EvSend sid c content embed) new ->
        forall r,
          content = Some r
          <-> (notification_role_id gd = Some r /\ r <> 0
               /\ NOTIFICATION_PING_ROLE (config env) = true
               /\ In r (roles g)).
Proof.
  rewrite send_notification_run. cbn [snd].
  destruct (if negb (truthy_int (notification_channel_id gd)) then _ else _)
    as [c|]; cbn [trace]; eexists; (split; [reflexivity|]);
    intros sid c' content embed I; cbn in I;
    [destruct I as [E|[E|[]]]; try discriminate E
    |destruct I as [E|[]]; discriminate E].
  inversion E; subst; clear E. intros r.
  destruct (notification_role_id gd) as [x|]; cbn.
  - destruct (Z.eqb_spec x 0) as [Z0|Z0]; cbn.
    + split; [discriminate|]. intros [X [N _]]. congruence.
    + destruct (NOTIFICATION_PING_ROLE (config env)); cbn.
      * rewrite get_role_some. split.
        -- intros [-> I]. auto.
        -- intros [X [_ [_ I]]]. inversion X; subst. auto.
      * split; [discriminate|]. intros [_ [_ [X _]]]. discriminate X.
  - split; [discriminate|]. intros [X _]. discriminate X.
Qed.

(** X7. The dispatcher writes nothing and sends at most once: both tables
    and the count of notifications are as before, and the trace grows
    either by the warning alone, or by one send followed by the log of how
    it ended: [ErrorSending] when the send raised, [InfoSent] otherwise. *)
Theorem dispatcher_sends_at_most_once
        (env : Env) (g : DiscordGuild) (gd : GuildData) (s : Subscription)
        (n : Notification) (w : World) :
  guilds (snd (_send_notification env g gd s n w)) = guilds w
  /\ subscriptions (snd (_send_notification env g gd s n w)) = subscriptions w
  /\ total_updates (snd (_send_notification env g gd s n w)) = total_updates w
  /\ (trace (snd (_send_notification env g gd s n w))
      = trace w ++ [EvLog (WarningNoChannel (dg_id g))]
      \/ exists c content embed,
          trace (snd (_send_notification env g gd s n w))
          = trace w ++ [EvSend (sub_id s) c content embed;
                        EvLog (if send_fails env (S (tick w))
                               then ErrorSending DiscordError
                               else InfoSent (n_title n) (dg_id g))]
          /\ e_template embed = n_type n
          /\ e_link embed = (media_type s, tmdb_id s)).
Proof.
  rewrite send_notification_run. cbn [snd].
  destruct (if negb (truthy_int (notification_channel_id gd)) then _ else _)
    as [c|]; cbn; repeat split; auto.
  right. do 3 eexists. split; [reflexivity|]. split; reflexivity.
Qed.

(** ** The protocol of one turn *)

Lemma world_eq (w w' : World) :
  guilds w = guilds w' -> subscriptions w = subscriptions w' ->
  tick w = tick w' -> trace w = trace w' ->
  total_updates w = total_updates w' -> w = w'.
Proof. destruct w, w'; cbn; intros; subst; reflexivity. Qed.

Lemma extend_0 (w : World) : extend w 0 [] 0 = w.
Proof.
  apply world_eq; cbn; auto using app_nil_r, Nat.add_0_r.
Qed.

Lemma extend_extend (w : World) (a b : nat) (e1 e2 : list Event) (u1 u2 : nat) :
  extend (extend w a e1 u1) b e2 u2 = extend w (a + b) (e1 ++ e2) (u1 + u2).
Proof.
  apply world_eq; cbn; auto using Nat.add_assoc.
  symmetry. apply app_assoc.
Qed.

Lemma count_dispatch_app (a b : list Event) :
  count_dispatch (a ++ b) = (count_dispatch a + count_dispatch b)%nat.
Proof.
  induction a as [|e a IH]; [reflexivity|].
  destruct e; cbn; rewrite IH; reflexivity.
Qed.

Lemma emit_run (e : Event) (w : World) : emit e w = (Ok tt, extend w 0 [e] 0).
Proof.
  unfold emit. f_equal. apply world_eq; cbn; auto using Nat.add_0_r.
Qed.

(** The evaluator leaves the world as it is, up to one reading of the
    clock. *)
Lemma check_for_updates_world (env : Env) (s : Subscription) (d : Details)
      (w : World) :
  exists dt, (dt <= 1)%nat
             /\ snd (_check_for_updates env s d w) = extend w dt [] 0.
Proof.
  evaluator_cases;
    first [ exists 0%nat; split; [lia | symmetry; apply extend_0]
          | exists 1%nat; split;
            [lia | apply world_eq; cbn; auto using app_nil_r; lia] ].
Qed.

(** The dispatch of a decided notification, counted. *)
Lemma dispatch_run (env : Env) (g : DiscordGuild) (gd : GuildData)
      (s : Subscription) (n : Notification) (w : World) :
  exists dt disp,
    (emit (EvDispatch (sub_id s)) ;;
     _send_notification env g gd s n ;;
     total <- read total_updates ;;
     set_total_updates (S total)) w
    = (Ok tt, extend w dt disp 1)
    /\ dispatch_trace s disp /\ count_dispatch disp = 1%nat.
Proof.
  unfold bind at 1. rewrite emit_run.
  unfold bind at 1. rewrite send_notification_run.
  unfold bind, read, set_total_updates. cbn [fst snd].
  destruct (if negb (truthy_int (notification_channel_id gd)) then _ else _)
    as [c|].
  - cbn [extend tick trace];
      destruct (send_fails env (S (tick w + 0)));
      eexists 2%nat, [EvDispatch (sub_id s); EvSend (sub_id s) c _ _; EvLog _];
      (split; [|split; [constructor | reflexivity]]);
      f_equal; apply world_eq; cbn; try reflexivity; try lia;
      rewrite <- app_assoc; reflexivity.
  - eexists 0%nat, [EvDispatch (sub_id s); EvLog _].
    split; [|split; [constructor | reflexivity]].
    f_equal. apply world_eq; cbn; try reflexivity; try lia.
    rewrite <- app_assoc. reflexivity.
Qed.

(** The write of [last_checked] and the pause, from a world [w]. *)
Lemma record_run (env : Env) (s : Subscription) (w : World) :
  (update_last_checked env s ;; sleep) w
  = if db_fails env (S (tick w))
    then (Raise DatabaseError, extend w 2 [] 0)
    else (Ok tt,
          write_last_checked
            (sub_id s) (utcnow env (tick w))
            (extend w 2 [EvUpdateLastChecked (sub_id s) (utcnow env (tick w));
                         EvSleep] 0)).
Proof.
  unfold bind at 1.
  destruct (db_fails env (S (tick w))) eqn:D.
  - unfold update_last_checked, bind, now, consult, ret, raise. cbn.
    rewrite D. f_equal. apply world_eq; cbn; auto using app_nil_r; lia.
  - rewrite (update_last_checked_ok env s w D). unfold sleep, emit.
    f_equal. apply world_eq; cbn; try reflexivity; try lia.
    rewrite <- app_assoc. reflexivity.
Qed.

Lemma after_fetch_extend (s : Subscription) (w : World) :
  exists ft, (1 <= ft <= 2)%nat
             /\ after_fetch s w
                = extend w ft [EvFetch (sub_id s) (endpoint s) (tmdb_id s)] 0.
Proof.
  unfold after_fetch, fetch_tick.
  destruct (last_checked s); [exists 2%nat | exists 1%nat];
    (split; [lia | apply world_eq; cbn; auto; lia]).
Qed.

Lemma log_run (r : LogRecord) (w : World) :
  log r w = (Ok tt, extend w 0 [EvLog r] 0).
Proof. apply emit_run. Qed.

(** The second half of a turn, from the world [w] reached after the fetch:
    either it returns, having recorded the check, or it raises, having
    recorded nothing. *)
Lemma evaluate_and_record_run (env : Env) (g : DiscordGuild) (gd : GuildData)
      (s : Subscription) (d : Details) (w : World) :
  exists dt disp,
    dispatch_trace s disp
    /\ ((exists k,
            (tick w <= k < tick w + dt)%nat
            /\ evaluate_and_record env g gd s d w
               = (Ok tt,
                  write_last_checked
                    (sub_id s) (utcnow env k)
                    (extend w dt
                       ([EvEvaluate (sub_id s)] ++ disp
                        ++ [EvUpdateLastChecked (sub_id s) (utcnow env k);
                            EvSleep])
                       (count_dispatch disp))))
        \/ (exists e,
               evaluate_and_record env g gd s d w
               = (Raise e, extend w dt ([EvEvaluate (sub_id s)] ++ disp)
                                  (count_dispatch disp)))).
Proof.
  remember (evaluate_and_record env g gd s d w) as run eqn:R.
  unfold evaluate_and_record in R. unfold bind at 1 in R.
  rewrite emit_run in R.
  destruct (check_for_updates_world
              env s d (extend w 0 [EvEvaluate (sub_id s)] 0))
    as [dt1 [B1 W1]].
  unfold bind at 1 in R.
  destruct (_check_for_updates env s d (extend w 0 [EvEvaluate (sub_id s)] 0))
    as [[[n|]|e] w1] eqn:E1; cbn [fst snd] in W1, R; subst w1.
  - (* an outcome: dispatch, then record *)
    destruct (dispatch_run env g gd s n
                (extend (extend w 0 [EvEvaluate (sub_id s)] 0) dt1 [] 0))
      as [dt2 [disp [E2 [T2 C2]]]].
    erewrite bind_ok in R; [|exact E2].
    rewrite record_run in R. rewrite ?extend_extend in R.
    cbn [app plus] in R.
    exists (dt1 + dt2 + 2)%nat, disp. split; [exact T2|]. rewrite C2.
    destruct (db_fails env _); subst run.
    + right. exists DatabaseError.
      f_equal. apply world_eq; cbn; try reflexivity; try lia.
      rewrite app_nil_r. reflexivity.
    + left. exists (tick w + (dt1 + dt2))%nat.
      split; [lia|]. cbn [tick extend]. rewrite ?Nat.add_0_l.
      reflexivity.
  - (* no outcome: record *)
    unfold bind at 1 in R. unfold ret at 1 in R.
    rewrite record_run in R. rewrite ?extend_extend in R.
    cbn [app plus] in R.
    exists (dt1 + 2)%nat, []. split; [constructor|].
    destruct (db_fails env _); subst run.
    + right. exists DatabaseError. reflexivity.
    + left. exists (tick w + dt1)%nat.
      split; [lia|]. cbn [tick extend]. rewrite ?Nat.add_0_l.
      reflexivity.
  - (* the evaluator raises *)
    exists dt1, []. split; [constructor|]. subst run.
    right. exists e. rewrite ?extend_extend. f_equal.
Qed.

Lemma count_dispatch_turn (s : Subscription) (disp tail : list Event) :
  count_dispatch tail = 0%nat ->
  count_dispatch ([EvFetch (sub_id s) (endpoint s) (tmdb_id s);
                   EvEvaluate (sub_id s)] ++ disp ++ tail)
  = count_dispatch disp.
Proof.
  intros T. cbn. rewrite count_dispatch_app, T. lia.
Qed.

(** One turn, whole: what it returns, and the world it leaves. *)
Lemma turn_run (env : Env) (g : DiscordGuild) (gd : GuildData)
      (s : Subscription) (w : World) :
  exists dt new,
    turn_trace s new
    /\ (subscription_iteration env g gd s w
        = (Ok tt, extend w dt new (count_dispatch new))
        \/ exists k,
            (tick w <= k < tick w + dt)%nat
            /\ In (EvUpdateLastChecked (sub_id s) (utcnow env k)) new
            /\ subscription_iteration env g gd s w
               = (Ok tt,
                  write_last_checked
                    (sub_id s) (utcnow env k)
                    (extend w dt new (count_dispatch new)))).
Proof.
  remember (subscription_iteration env g gd s w) as run eqn:R.
  unfold subscription_iteration, try_except in R.
  destruct (is_fresh env s w) eqn:F.
  - rewrite (check_subscription_fresh env g gd s w F) in R.
    exists 1%nat, []. split; [constructor|]. left. subst run.
    f_equal. apply world_eq; cbn; auto using app_nil_r; lia.
  - rewrite (check_subscription_stale env g gd s w F) in R.
    destruct (after_fetch_extend s w) as [ft [Bf Ef]]. rewrite Ef in R.
    destruct (tmdb_request env (fetch_tick s w) (endpoint s) (tmdb_id s))
      as [d|e].
    + destruct (evaluate_and_record_run
                  env g gd s d
                  (extend w ft [EvFetch (sub_id s) (endpoint s) (tmdb_id s)] 0))
        as [dt [disp [T [[k [Bk E]]|[e E]]]]]; rewrite E in R; subst run.
      * exists (ft + dt)%nat,
          ([EvFetch (sub_id s) (endpoint s) (tmdb_id s); EvEvaluate (sub_id s)]
           ++ disp
           ++ [EvUpdateLastChecked (sub_id s) (utcnow env k); EvSleep]).
        split; [constructor; exact T|]. right. exists k.
        cbn [tick extend] in Bk. split; [lia|]. split.
        { apply in_or_app. right. apply in_or_app. right. left. reflexivity. }
        rewrite extend_extend, count_dispatch_turn by reflexivity.
        reflexivity.
      * exists (ft + dt)%nat,
          ([EvFetch (sub_id s) (endpoint s) (tmdb_id s); EvEvaluate (sub_id s)]
           ++ disp ++ [EvLog (ErrorSubscription (sub_id s) e)]).
        split; [constructor; exact T|]. left.
        rewrite log_run, !extend_extend, count_dispatch_turn by reflexivity.
        f_equal. apply world_eq; cbn; try reflexivity; try lia.
        all: rewrite <- ?app_assoc; reflexivity.
    + exists ft, [EvFetch (sub_id s) (endpoint s) (tmdb_id s);
                  EvLog (ErrorSubscription (sub_id s) e)].
      split; [constructor|]. left. subst run.
      rewrite log_run, extend_extend.
      f_equal. apply world_eq; cbn; try reflexivity; lia.
Qed.

(** X8. One turn of the loop over the subscriptions follows a fixed
    protocol, whatever the outside answers. It returns normally and adds to
    the trace either nothing (the subscription is fresh); or the fetch and
    the error it raised; or the fetch, the evaluation, at most one dispatch
    (the call, then a warning or one send and its outcome) and then either
    the write of [last_checked] followed by the pause, or the error that
    interrupted the turn. In particular the dispatch comes before the
    write, and nothing is evaluated, sent or written without the fetch
    before it. *)
Theorem turn_follows_protocol
        (env : Env) (g : DiscordGuild) (gd : GuildData) (s : Subscription)
        (w : World) :
  fst (subscription_iteration env g gd s w) = Ok tt
  /\ exists new,
      trace (snd (subscription_iteration env g gd s w)) = trace w ++ new
      /\ turn_trace s new.
Proof.
  destruct (turn_run env g gd s w) as [dt [new [T [E|[k [_ [_ E]]]]]]];
    rewrite E; cbn [fst snd].
  - split; [reflexivity|]. exists new. split; [reflexivity | exact T].
  - split; [reflexivity|]. exists new. split; [reflexivity | exact T].
Qed.

(** ** Steps of a cycle *)

Section Respects.

Variable R : World -> World -> Prop.
Hypothesis R_refl : forall w, R w w.
Hypothesis R_trans : forall w1 w2 w3, R w1 w2 -> R w2 w3 -> R w1 w3.

Lemma respects_ret {X} (x : X) : respects R (ret x).
Proof. intros w. apply R_refl. Qed.

Lemma respects_raise {X} (e : Exn) : respects R (@raise X e).
Proof. intros w. apply R_refl. Qed.

Lemma respects_read {X} (f : World -> X) : respects R (read f).
Proof. intros w. apply R_refl. Qed.

Lemma respects_bind {X Y} (m : M X) (k : X -> M Y) :
  respects R m -> (forall x, respects R (k x)) -> respects R (bind m k).
Proof.
  intros Hm Hk w. unfold bind. specialize (Hm w).
  destruct (m w) as [[x|e] w1]; cbn in *; [|exact Hm].
  eapply R_trans; [exact Hm | apply Hk].
Qed.

Lemma respects_try_except {X} (m : M X) (h : Exn -> M X) :
  respects R m -> (forall e, respects R (h e)) -> respects R (try_except m h).
Proof.
  intros Hm Hh w. unfold try_except. specialize (Hm w).
  destruct (m w) as [[x|e] w1]; cbn in *; [exact Hm|].
  eapply R_trans; [exact Hm | apply Hh].
Qed.

Lemma respects_for_each {X} (xs : list X) (body : X -> M unit) :
  (forall x, respects R (body x)) -> respects R (for_each xs body).
Proof.
  intros H. induction xs as [|x xs IH]; cbn [for_each].
  - apply respects_ret.
  - apply respects_bind; [apply H | intros _; exact IH].
Qed.

End Respects.

Lemma row_checked_trans (env : Env) (a b c : nat) (r1 r2 r3 : Subscription) :
  (a <= b)%nat -> (b <= c)%nat ->
  row_checked env a b r1 r2 -> row_checked env b c r2 r3 ->
  row_checked env a c r1 r3.
Proof.
  intros L1 L2 [->|[k1 [B1 ->]]] [->|[k2 [B2 ->]]].
  - left. reflexivity.
  - right. exists k2. split; [lia | reflexivity].
  - right. exists k1. split; [lia | reflexivity].
  - right. exists k2. split; [lia | reflexivity].
Qed.

Lemma rows_checked_refl (env : Env) (a b : nat) (l : list Subscription) :
  Forall2 (row_checked env a b) l l.
Proof. induction l; constructor; auto. left. reflexivity. Qed.

Lemma rows_checked_trans (env : Env) (a b c : nat)
      (l1 l2 l3 : list Subscription) :
  (a <= b)%nat -> (b <= c)%nat ->
  Forall2 (row_checked env a b) l1 l2 -> Forall2 (row_checked env b c) l2 l3 ->
  Forall2 (row_checked env a c) l1 l3.
Proof.
  intros L1 L2 H. revert l3. induction H; intros l3 H3; inversion H3; subst.
  - constructor.
  - constructor; [eapply row_checked_trans; eassumption | auto].
Qed.

Lemma fetched_before_nil : fetched_before [].
Proof. intros pre e post sid E. destruct pre; discriminate E. Qed.

Lemma fetched_before_app (a b : list Event) :
  fetched_before a -> fetched_before b -> fetched_before (a ++ b).
Proof.
  intros Ha Hb pre e post sid E S.
  change (e :: post) with ([e] ++ post) in E.
  apply app_eq_app in E. destruct E as [l [[E1 E2]|[E1 E2]]].
  - destruct l as [|x l].
    + rewrite app_nil_r in E1. subst pre. cbn in E2.
      destruct (Hb [] e post sid) as [F|[ep [tm []]]]; auto.
    + cbn in E2. inversion E2; subst x.
      destruct (Ha pre e l sid) as [F|[ep [tm I]]]; eauto.
  - destruct (Hb l e post sid) as [F|[ep [tm I]]]; auto.
    right. exists ep, tm. subst pre. apply in_or_app. right. exact I.
Qed.

Lemma fetched_before_plain (e : Event) :
  event_subscription e = None -> fetched_before [e].
Proof.
  intros N pre e' post sid E S.
  destruct pre as [|x pre]; cbn in E.
  - inversion E; subst. congruence.
  - inversion E. destruct pre; discriminate.
Qed.

Lemma dispatch_trace_about (s : Subscription) (disp : list Event) :
  dispatch_trace s disp ->
  forall e sid, In e disp -> event_subscription e = Some sid -> sid = sub_id s.
Proof.
  intros D e sid I S. destruct D; cbn in I;
    repeat (destruct I as [<-|I]; [cbn in S; congruence|]); destruct I.
Qed.

Lemma turn_trace_shape (s : Subscription) (new : list Event) :
  turn_trace s new ->
  new = []
  \/ exists rest,
      new = EvFetch (sub_id s) (endpoint s) (tmdb_id s) :: rest
      /\ forall e sid, In e rest -> event_subscription e = Some sid ->
                       sid = sub_id s.
Proof.
  intros T. destruct T as [|e|disp t D|disp e D]; [left; reflexivity|..];
    right; eexists; (split; [reflexivity|]); intros e' sid I S.
  - destruct I as [<-|[]]. discriminate S.
  - destruct I as [<-|I]; [cbn in S; congruence|].
    apply in_app_or in I. destruct I as [I|I].
    + eapply dispatch_trace_about; eassumption.
    + destruct I as [<-|[<-|[]]]; cbn in S; congruence.
  - destruct I as [<-|I]; [cbn in S; congruence|].
    apply in_app_or in I. destruct I as [I|I].
    + eapply dispatch_trace_about; eassumption.
    + destruct I as [<-|[]]; cbn in S; congruence.
Qed.

Lemma turn_trace_fetched_before (s : Subscription) (new : list Event) :
  turn_trace s new -> fetched_before new.
Proof.
  intros T pre e post sid E S.
  destruct (turn_trace_shape T) as [->|[rest [-> A]]].
  - destruct pre; discriminate E.
  - destruct pre as [|x pre]; cbn in E; inversion E; subst.
    + left. cbn in S. inversion S. eauto.
    + right. exists (endpoint s), (tmdb_id s).
      rewrite (A e sid); [left; reflexivity | | exact S].
      apply in_or_app. right. left. reflexivity.
Qed.

Lemma count_send_app (a b : list Event) :
  count_send (a ++ b) = (count_send a + count_send b)%nat.
Proof.
  induction a as [|e a IH]; [reflexivity|].
  destruct e; cbn; rewrite IH; reflexivity.
Qed.

Lemma orderly_nil : orderly [].
Proof. split; [apply fetched_before_nil | reflexivity]. Qed.

Lemma orderly_app (a b : list Event) : orderly a -> orderly b -> orderly (a ++ b).
Proof.
  intros [Fa Sa] [Fb Sb]. split; [apply fetched_before_app; assumption|].
  rewrite count_send_app, count_dispatch_app. lia.
Qed.

Lemma orderly_plain (e : Event) : event_subscription e = None -> orderly [e].
Proof.
  intros N. split; [apply fetched_before_plain, N|].
  destruct e; cbn in *; try lia. discriminate N.
Qed.

Lemma dispatch_trace_sends (s : Subscription) (disp : list Event) :
  dispatch_trace s disp -> (count_send disp <= count_dispatch disp)%nat.
Proof. intros D. destruct D; cbn; lia. Qed.

Lemma turn_trace_orderly (s : Subscription) (new : list Event) :
  turn_trace s new -> orderly new.
Proof.
  intros T. split; [apply (turn_trace_fetched_before T)|].
  destruct T as [|e|disp t D|disp e D]; cbn; try lia;
    rewrite count_send_app, count_dispatch_app; cbn;
    pose proof (dispatch_trace_sends D); lia.
Qed.

Section CycleSteps.

Variable env : Env.

Lemma cycle_step_refl (w : World) : cycle_step env w w.
Proof.
  constructor; [reflexivity | lia | | apply rows_checked_refl].
  exists []. rewrite app_nil_r. cbn.
  split; [reflexivity|]. split; [lia | apply orderly_nil].
Qed.

Lemma cycle_step_trans (w1 w2 w3 : World) :
  cycle_step env w1 w2 -> cycle_step env w2 w3 -> cycle_step env w1 w3.
Proof.
  intros [G1 T1 [n1 [E1 [C1 F1]]] R1] [G2 T2 [n2 [E2 [C2 F2]]] R2].
  constructor.
  - congruence.
  - lia.
  - exists (n1 ++ n2). rewrite E2, E1, app_assoc. split; [reflexivity|].
    split; [rewrite count_dispatch_app; lia | apply orderly_app; auto].
  - eapply rows_checked_trans; eassumption.
Qed.

(** A step that writes nothing. *)
Lemma cycle_step_extend (w : World) (dt : nat) (evs : list Event) :
  orderly evs ->
  cycle_step env w (extend w dt evs (count_dispatch evs)).
Proof.
  intros F. constructor; cbn; [reflexivity | lia | | apply rows_checked_refl].
  exists evs. auto.
Qed.

(** A step that writes the [last_checked] of the rows with one key. *)
Lemma cycle_step_write (w : World) (dt : nat) (evs : list Event)
      (sid : Z) (k : nat) :
  orderly evs ->
  (tick w <= k < tick w + dt)%nat ->
  cycle_step env w
    (write_last_checked sid (utcnow env k)
                        (extend w dt evs (count_dispatch evs))).
Proof.
  intros F B. constructor; cbn; [reflexivity | lia | exists evs; auto |].
  induction (subscriptions w) as [|r l IH]; cbn; constructor; auto.
  destruct (sub_id r =? sid); [right; exists k; auto | left; reflexivity].
Qed.

Lemma step_subscription_iteration (g : DiscordGuild) (gd : GuildData)
      (s : Subscription) :
  respects (cycle_step env) (subscription_iteration env g gd s).
Proof.
  intros w.
  destruct (turn_run env g gd s w) as [dt [new [T [E|[k [B [_ E]]]]]]];
    rewrite E; cbn [snd].
  - apply cycle_step_extend, (turn_trace_orderly T).
  - apply cycle_step_write; [apply (turn_trace_orderly T) | exact B].
Qed.

Lemma step_emit_plain (e : Event) :
  event_subscription e = None -> count_dispatch [e] = 0%nat ->
  respects (cycle_step env) (emit e).
Proof.
  intros N C w. rewrite emit_run. cbn [snd]. rewrite <- C.
  apply cycle_step_extend, orderly_plain, N.
Qed.

Lemma step_log (r : LogRecord) : respects (cycle_step env) (log r).
Proof. apply step_emit_plain; reflexivity. Qed.

Lemma step_consult : respects (cycle_step env) consult.
Proof.
  intros w. cbn.
  replace {| guilds := guilds w; subscriptions := subscriptions w;
             tick := S (tick w); trace := trace w;
             total_updates := total_updates w |}
    with (extend w 1 [] (count_dispatch []))
    by (apply world_eq; cbn; auto using app_nil_r; lia).
  apply cycle_step_extend, orderly_nil.
Qed.

Lemma step_get_subscriptions (gid : Z) :
  respects (cycle_step env) (get_subscriptions env gid).
Proof.
  unfold get_subscriptions.
  apply (respects_bind cycle_step_trans);
    [apply step_consult|]. intros k.
  apply (respects_bind cycle_step_trans);
    [apply step_emit_plain; reflexivity|]. intros _.
  destruct (db_fails env k).
  - apply (respects_raise _ cycle_step_refl).
  - apply (respects_bind cycle_step_trans);
      [apply (respects_read _ cycle_step_refl)|].
    intros subs. apply (respects_ret _ cycle_step_refl).
Qed.

Lemma step_check_guild (gd : GuildData) :
  respects (cycle_step env) (check_guild env gd).
Proof.
  unfold check_guild.
  destruct (get_guild env (guild_id gd)) as [g|];
    [|apply (respects_ret _ cycle_step_refl)].
  apply (respects_bind cycle_step_trans);
    [apply step_get_subscriptions|]. intros subs.
  destruct subs as [|s0 rest]; [apply (respects_ret _ cycle_step_refl)|].
  apply (respects_bind cycle_step_trans);
    [apply step_log|]. intros _.
  apply (respects_for_each cycle_step_refl cycle_step_trans).
  intros s. apply step_subscription_iteration.
Qed.

Lemma step_guild_iteration (gd : GuildData) :
  respects (cycle_step env) (guild_iteration env gd).
Proof.
  apply (respects_try_except cycle_step_trans).
  - apply step_check_guild.
  - intros e. apply step_log.
Qed.

Lemma step_guild_loop (gs : list GuildData) :
  respects (cycle_step env) (for_each gs (guild_iteration env)).
Proof.
  apply (respects_for_each cycle_step_refl cycle_step_trans).
  apply step_guild_iteration.
Qed.

End CycleSteps.

(** The world in which the loop over the guilds starts: the start of the
    cycle is logged, the enabled guilds are selected, nothing is counted. *)
Lemma cycle_prologue (env : Env) (w : World) :
  db_fails env (tick w) = false ->
  (log InfoStarting ;; gs <- select_enabled_guilds env ;;
   set_total_updates 0 ;; ret gs) w
  = (Ok (filter (fun g => match auto_update_enabled g with
                          | Some true => true
                          | _ => false
                          end) (guilds w)),
     {| guilds := guilds w; subscriptions := subscriptions w;
        tick := S (tick w);
        trace := trace w ++ [EvLog InfoStarting; EvSelectGuilds];
        total_updates := 0 |}).
Proof.
  intros D. unfold bind, log, emit, select_enabled_guilds, bind, consult,
    emit, set_total_updates, read, ret. cbn. rewrite D. cbn.
  rewrite <- app_assoc. reflexivity.
Qed.

(** The run of one cycle. If the selection of the guilds fails, the cycle
    ends there with the error logged; otherwise the loop over the guilds is
    one step from the world of [cycle_prologue], and the count of that step
    is logged. *)
Lemma cycle_run (env : Env) (w : World) :
  (db_fails env (tick w) = true
   /\ update_check env w
      = (Ok tt, extend w 1 [EvLog InfoStarting; EvSelectGuilds;
                            EvLog (ErrorTask DatabaseError)] 0))
  \/ (db_fails env (tick w) = false
      /\ exists w' new,
          update_check env w = (Ok tt, w')
          /\ guilds w' = guilds w
          /\ (tick w < tick w')%nat
          /\ trace w' = trace w ++ [EvLog InfoStarting; EvSelectGuilds]
                                ++ new
                                ++ [EvLog (InfoComplete (count_dispatch new))]
          /\ total_updates w' = count_dispatch new
          /\ orderly new
          /\ Forall2 (row_checked env (tick w) (tick w'))
                     (subscriptions w) (subscriptions w')).
Proof.
  destruct (db_fails env (tick w)) eqn:D; [left | right]; (split; [reflexivity|]).
  - unfold update_check, update_check_body, try_except, bind, log, emit,
      select_enabled_guilds, bind, consult, emit, raise. cbn. rewrite D. cbn.
    f_equal. apply world_eq; cbn; auto; try lia.
    rewrite <- !app_assoc. reflexivity.
  - pose proof (cycle_prologue env w D) as P.
    remember (filter _ (guilds w)) as gs eqn:Egs.
    remember {| guilds := guilds w; subscriptions := subscriptions w;
                tick := S (tick w);
                trace := trace w ++ [EvLog InfoStarting; EvSelectGuilds];
                total_updates := 0 |} as w2 eqn:E2.
    destruct (step_guild_loop env gs w2) as [G T [new [E [C F]]] R].
    assert (O : fst (for_each gs (guild_iteration env) w2) = Ok tt).
    { apply (for_each_turns (guild_iteration env) (guild_iteration_ok env)
                            (guild_iteration_grows env) gs w2). }
    destruct (for_each gs (guild_iteration env) w2) as [r w3] eqn:L.
    cbn in G, T, E, C, R, O. subst r.
    exists (extend w3 0 [EvLog (InfoComplete (count_dispatch new))] 0), new.
    split; [|split; [|split; [|split; [|split; [|split]]]]].
    + unfold update_check, update_check_body, try_except.
      assert (B : update_check_body env w
                  = (Ok tt, extend w3 0
                              [EvLog (InfoComplete (count_dispatch new))] 0)).
      { unfold update_check_body.
        unfold bind in P |- *.
        destruct (log InfoStarting w) as [[[]|e0] w0]; [|discriminate P].
        destruct (select_enabled_guilds env w0) as [[gs0|e1] w1];
          [|discriminate P].
        destruct (set_total_updates 0 w1) as [[[]|e2] w1'];
          [|discriminate P].
        unfold ret in P. inversion P; subst gs0 w1'.
        rewrite L. unfold read. rewrite log_run, C, E2. reflexivity. }
      unfold update_check_body in B. rewrite B. reflexivity.
    + cbn. rewrite G, E2. reflexivity.
    + cbn. rewrite E2 in T. cbn in T. lia.
    + cbn. rewrite E, E2. cbn. rewrite <- !app_assoc. reflexivity.
    + cbn. rewrite C, E2. cbn. lia.
    + exact F.
    + cbn. rewrite Nat.add_0_r. rewrite E2 in R. cbn in R.
      eapply Forall2_impl; [|exact R].
      intros a b [->|[k [B ->]]]; [left; reflexivity|].
      right. exists k. split; [lia | reflexivity].
Qed.

(** ** What a whole cycle does *)

(** X9. The figure of the closing log line. When the selection of the
    guilds fails, the cycle logs its start, the selection and the error, and
    no closing line. Otherwise the events of the cycle are the start, the
    selection, the events of the loop over the guilds, and one closing line
    whose figure is the number of calls of the dispatcher among the events
    of the loop, whatever became of the deliveries; the messages handed to
    Discord among them are at most as many. *)
Theorem closing_line_counts_dispatcher_calls (env : Env) (w : World) :
  if db_fails env (tick w)
  then trace (snd (update_check env w))
       = trace w ++ [EvLog InfoStarting; EvSelectGuilds;
                     EvLog (ErrorTask DatabaseError)]
  else exists new,
      trace (snd (update_check env w))
      = trace w ++ [EvLog InfoStarting; EvSelectGuilds]
                ++ new
                ++ [EvLog (InfoComplete (count_dispatch new))]
      /\ (count_send new <= count_dispatch new)%nat.
Proof.
  destruct (cycle_run env w) as [[D E]|[D [w' [new [E [_ [_ [T [_ [O _]]]]]]]]]];
    rewrite D, E; cbn [snd].
  - reflexivity.
  - exists new. split; [exact T | apply O].
Qed.

(** The figure can exceed the deliveries: with no channel to post in, the
    dispatcher is called, nothing is sent, and the closing line says one. *)
Example closing_line_without_delivery :
  trace (snd (update_check
                (Examples.env_of Examples.mar10_noon
                   (Ok (Examples.matrix_details "2024-03-10")) false
                   (Some {| dg_id := 10; dg_name := "Film Club";
                            system_channel := None; channels := [];
                            roles := [] |}))
                (Examples.world_of [Examples.home_data None (Some true)]
                                   [Examples.matrix])))
  = [EvLog InfoStarting; EvSelectGuilds; EvGetSubscriptions 10;
     EvLog (InfoChecking 1 "Film Club"); EvFetch 1 "movie" 603;
     EvEvaluate 1; EvDispatch 1; EvLog (WarningNoChannel 10);
     EvUpdateLastChecked 1 Examples.mar10_noon; EvSleep;
     EvLog (InfoComplete 1)].
Proof. vm_compute. reflexivity. Qed.

(** X10. What a cycle writes. Whatever the outside answers, after a cycle the
    guild table is what it was, and the subscription table has the same rows
    in the same order: each row is as it was, or differs in [last_checked]
    alone, which holds a reading of the clock taken during the cycle. *)
Theorem cycle_writes_last_checked_only (env : Env) (w : World) :
  guilds (snd (update_check env w)) = guilds w
  /\ Forall2 (row_checked env (tick w) (tick (snd (update_check env w))))
             (subscriptions w) (subscriptions (snd (update_check env w))).
Proof.
  destruct (cycle_run env w) as [[D E]|[D [w' [new [E [G [_ [_ [_ [_ R]]]]]]]]]];
    rewrite E; cbn [snd].
  - split; [reflexivity | apply rows_checked_refl].
  - split; assumption.
Qed.

(** X11. Within a cycle nothing is done about a subscription before its
    metadata are requested in that cycle: an event of the cycle that is
    about a subscription is a fetch for it, or comes after one. *)
Theorem cycle_acts_on_fetched_subscriptions_only
        (env : Env) (w : World) (pre post : list Event) (e : Event) (sid : Z) :
  trace (snd (update_check env w)) = trace w ++ pre ++ e :: post ->
  event_subscription e = Some sid ->
  (exists ep tm, e = EvFetch sid ep tm)
  \/ (exists ep tm, In (EvFetch sid ep tm) pre).
Proof.
  intros T S.
  assert (F : exists all, trace (snd (update_check env w)) = trace w ++ all
                          /\ fetched_before all).
  { destruct (cycle_run env w)
      as [[D E]|[D [w' [new [E [_ [_ [Tr [_ [[O _] _]]]]]]]]]];
      rewrite E; cbn [snd].
    - exists ([EvLog InfoStarting] ++ [EvSelectGuilds]
              ++ [EvLog (ErrorTask DatabaseError)]).
      split; [reflexivity|].
      repeat apply fetched_before_app; apply fetched_before_plain; reflexivity.
    - exists (([EvLog InfoStarting] ++ [EvSelectGuilds]) ++ new
              ++ [EvLog (InfoComplete (count_dispatch new))]).
      split; [exact Tr|].
      repeat apply fetched_before_app;
        try (apply fetched_before_plain; reflexivity); exact O. }
  destruct F as [all [E F]]. rewrite E in T. apply app_inv_head in T.
  exact (F pre e post sid T S).
Qed.

Lemma cycle_acts_on_fetched_subscriptions_only_witness :
  (exists ep tm,
      EvSend 1 200 (Some 7)
             {| e_template := release; e_title := Some "The Matrix";
                e_date := "2024-03-10"; e_episode := None;
                e_thumbnail := Some "/m.jpg"; e_link := ("movie", 603);
                e_timestamp := Examples.mar10_noon |}
      = EvFetch 1 ep tm)
  \/ (exists ep tm,
         In (EvFetch 1 ep tm)
            [EvLog InfoStarting; EvSelectGuilds; EvGetSubscriptions 10;
             EvLog (InfoChecking 1 "Film Club"); EvFetch 1 "movie" 603;
             EvEvaluate 1; EvDispatch 1]).
Proof.
  apply (@cycle_acts_on_fetched_subscriptions_only
           (Examples.env_home Examples.mar10_noon
              (Ok (Examples.matrix_details "2024-03-10")) false)
           (Examples.world_of [Examples.home_data (Some 200) (Some true)]
                              [Examples.matrix])
           [EvLog InfoStarting; EvSelectGuilds; EvGetSubscriptions 10;
            EvLog (InfoChecking 1 "Film Club"); EvFetch 1 "movie" 603;
            EvEvaluate 1; EvDispatch 1]
           [EvLog (InfoSent (Some "The Matrix") 10);
            EvUpdateLastChecked 1 Examples.mar10_noon; EvSleep;
            EvLog (InfoComplete 1)]).
  - vm_compute. reflexivity.
  - reflexivity.
Defined.

(** ** Every due subscription is polled *)

Lemma adds_later (Q : Event -> Prop) (w w1 w' : World) :
  (exists new, trace w1 = trace w ++ new) -> adds Q w1 w' -> adds Q w w'.
Proof.
  intros [new E] [pre [e [post [H T]]]]. exists (new ++ pre), e, post.
  split; [exact H|]. rewrite T, E, <- !app_assoc. reflexivity.
Qed.

Lemma adds_earlier (Q : Event -> Prop) (w w1 w' : World) :
  adds Q w w1 -> (exists new, trace w' = trace w1 ++ new) -> adds Q w w'.
Proof.
  intros [pre [e [post [H T]]]] [new E]. exists pre, e, (post ++ new).
  split; [exact H|]. rewrite E, T, <- !app_assoc. reflexivity.
Qed.

Lemma adds_the_event (e : Event) (w w' : World) :
  adds (eq e) w w' -> exists pre post, trace w' = trace w ++ pre ++ e :: post.
Proof. intros [pre [e' [post [<- T]]]]. exists pre, post. exact T. Qed.

(** A loop whose turns return and only add to the trace: if, from a world in
    [I], the turn of [x] adds an event that satisfies [Q], and any other turn
    of the list adds one or keeps [I], then the loop over a list that holds
    [x] adds one. *)
Lemma for_each_event {X} (body : X -> M unit) (I : World -> Prop)
      (Q : Event -> Prop) (x : X) :
  (forall y w, fst (body y w) = Ok tt) ->
  (forall y w, exists new, trace (snd (body y w)) = trace w ++ new) ->
  (forall w, I w -> adds Q w (snd (body x w))) ->
  forall xs,
    (forall y w, In y xs -> I w ->
                 adds Q w (snd (body y w)) \/ I (snd (body y w))) ->
    forall w, In x xs -> I w -> adds Q w (snd (for_each xs body w)).
Proof.
  intros Hok Hgrow Hx xs.
  induction xs as [|y xs IH]; intros Hy w Ix Iw; [destruct Ix|].
  cbn [for_each]. unfold bind.
  pose proof (Hok y w) as O. pose proof (Hgrow y w) as G.
  assert (D : adds Q w (snd (body y w))
              \/ (In x xs /\ I (snd (body y w)))).
  { destruct Ix as [->|Ix]; [left; apply Hx, Iw|].
    destruct (Hy y w (or_introl eq_refl) Iw) as [H|H];
      [left; exact H | right; auto]. }
  destruct (body y w) as [[[]|ex] w1]; cbn in O, G, D; [|discriminate O].
  destruct D as [D|[Ix' I1]].
  - eapply adds_earlier; [exact D|].
    apply (for_each_turns body Hok Hgrow xs w1).
  - eapply adds_later; [exact G|]. apply IH; [|assumption|assumption].
    intros y0 w0 I0. apply Hy. right. exact I0.
Qed.

(** The turn of a subscription that is due starts with the fetch. *)
Lemma due_turn_fetches (env : Env) (g : DiscordGuild) (gd : GuildData)
      (s : Subscription) (w : World) :
  is_fresh env s w = false ->
  adds (eq (EvFetch (sub_id s) (endpoint s) (tmdb_id s)))
       w (snd (subscription_iteration env g gd s w)).
Proof.
  intros F. exists [], (EvFetch (sub_id s) (endpoint s) (tmdb_id s)).
  unfold subscription_iteration, try_except.
  rewrite (check_subscription_stale env g gd s w F).
  destruct (tmdb_request env (fetch_tick s w) (endpoint s) (tmdb_id s))
    as [d|e].
  - assert (G : exists new,
               trace (snd (evaluate_and_record env g gd s d (after_fetch s w)))
               = trace (after_fetch s w) ++ new).
    { apply (@trace_grows_of_frame (fun _ => True) (fun _ => True)).
      apply framed_evaluate_and_record; intros; exact I. }
    destruct G as [new G].
    destruct (evaluate_and_record env g gd s d (after_fetch s w))
      as [[[]|e] w1]; cbn in *.
    + exists new. split; [reflexivity|]. rewrite G, <- app_assoc. reflexivity.
    + exists (new ++ [EvLog (ErrorSubscription (sub_id s) e)]).
      split; [reflexivity|]. rewrite G, <- !app_assoc. reflexivity.
  - exists [EvLog (ErrorSubscription (sub_id s) e)]. cbn.
    split; [reflexivity|]. rewrite <- app_assoc. reflexivity.
Qed.

Lemma get_subscriptions_run (env : Env) (gid : Z) (w : World) :
  db_fails env (tick w) = false ->
  get_subscriptions env gid w
  = (Ok (filter (fun s => sub_guild_id s =? gid) (subscriptions w)),
     extend w 1 [EvGetSubscriptions gid] 0).
Proof.
  intros D. unfold get_subscriptions, bind, consult, emit, read, ret. cbn.
  rewrite D. f_equal. apply world_eq; cbn; auto; lia.
Qed.

(** The turn of a guild the client resolves, with the database up, reaches
    the turn of every subscription of the guild that is in the table: what
    that turn adds wherever it starts, the turn of the guild adds. *)
Lemma guild_turn_reaches (Q : Event -> Prop) (env : Env) (gd : GuildData)
      (g : DiscordGuild) (s : Subscription) (w : World) :
  get_guild env (guild_id gd) = Some g ->
  db_fails env (tick w) = false ->
  In s (subscriptions w) -> sub_guild_id s = guild_id gd ->
  (forall w0, adds Q w0 (snd (subscription_iteration env g gd s w0))) ->
  adds Q w (snd (guild_iteration env gd w)).
Proof.
  intros Eg D Is Gs Turn.
  assert (Isub : In s (filter (fun r => sub_guild_id r =? guild_id gd)
                              (subscriptions w)))
    by (apply filter_In; split; [exact Is | apply Z.eqb_eq, Gs]).
  remember (filter (fun r => sub_guild_id r =? guild_id gd) (subscriptions w))
    as subs eqn:Esubs.
  pose (w1 := extend (extend w 1 [EvGetSubscriptions (guild_id gd)] 0) 0
                     [EvLog (InfoChecking (List.length subs) (dg_name g))] 0).
  assert (C : check_guild env gd w
              = for_each subs (subscription_iteration env g gd) w1).
  { unfold check_guild. rewrite Eg. unfold bind at 1.
    rewrite (get_subscriptions_run env (guild_id gd) w D), <- Esubs.
    destruct subs as [|s0 rest]; [destruct Isub|].
    unfold bind at 1. rewrite log_run. reflexivity. }
  assert (L : adds Q w1
                   (snd (for_each subs (subscription_iteration env g gd) w1))).
  { apply (@for_each_event _ (subscription_iteration env g gd)
                           (fun _ => True) Q s
                           (subscription_iteration_ok env g gd)
                           (subscription_iteration_grows env g gd)).
    - intros w0 _. apply Turn.
    - intros y w0 _ _. right. exact I.
    - exact Isub.
    - exact I. }
  assert (O : fst (for_each subs (subscription_iteration env g gd) w1) = Ok tt).
  { apply (for_each_turns (subscription_iteration env g gd)
                          (subscription_iteration_ok env g gd)
                          (subscription_iteration_grows env g gd) subs w1). }
  unfold guild_iteration, try_except. rewrite C.
  destruct (for_each subs (subscription_iteration env g gd) w1) as [r w2].
  cbn [fst] in O. cbn [snd] in L. subst r. cbn [snd].
  apply (@adds_later Q w w1 w2); [|exact L].
  eexists. unfold w1. cbn. rewrite <- app_assoc. reflexivity.
Qed.

(** A turn of another guild leaves the row [s] in the table, and the rows
    with its key in the guild they were in. *)
Lemma other_guild_keeps_row (env : Env) (gd0 : GuildData) (s : Subscription)
      (g : Z) (w : World) :
  guild_id gd0 <> g ->
  In s (subscriptions w) ->
  (forall r, In r (subscriptions w) -> sub_id r = sub_id s ->
             sub_guild_id r = g) ->
  In s (subscriptions (snd (guild_iteration env gd0 w)))
  /\ forall r, In r (subscriptions (snd (guild_iteration env gd0 w))) ->
               sub_id r = sub_id s -> sub_guild_id r = g.
Proof.
  intros N Is U.
  assert (F : frame (fun _ => True) (fun sid => sid <> sub_id s) w
                    (snd (guild_iteration env gd0 w))).
  { apply frame_guild_iteration; try (intros; exact I).
    intros _. split; [exact I|]. intros r Ir Gr E.
    apply N. rewrite <- Gr. apply U; assumption. }
  destruct F as [_ _ _ R]. split.
  - clear U. induction R as [|r r' l l' H _ IH]; [destruct Is|].
    destruct Is as [->|Is]; [|right; apply IH, Is].
    left. destruct H as [->|[HP _]]; [reflexivity | destruct HP; reflexivity].
  - intros r' Ir E.
    destruct (in_rows_keys r' R Ir) as [r [I0 [K G]]].
    rewrite G. apply U; [exact I0 | congruence].
Qed.

(** The world in which the loop over the guilds starts, the guilds it goes
    through, and the run of the cycle around that loop. *)
Lemma update_check_run (env : Env) (w : World) :
  db_fails env (tick w) = false ->
  exists gs w2 w3,
    (forall gd, In gd gs <->
                In gd (guilds w) /\ auto_update_enabled gd = Some true)
    /\ subscriptions w2 = subscriptions w
    /\ total_updates w2 = 0%nat
    /\ trace w2 = trace w ++ [EvLog InfoStarting; EvSelectGuilds]
    /\ for_each gs (guild_iteration env) w2 = (Ok tt, w3)
    /\ update_check env w
       = (Ok tt, extend w3 0 [EvLog (InfoComplete (total_updates w3))] 0).
Proof.
  intros D. pose proof (cycle_prologue env w D) as P.
  remember (filter _ (guilds w)) as gs eqn:Egs.
  remember {| guilds := guilds w; subscriptions := subscriptions w;
              tick := S (tick w);
              trace := trace w ++ [EvLog InfoStarting; EvSelectGuilds];
              total_updates := 0 |} as w2 eqn:E2.
  assert (O : fst (for_each gs (guild_iteration env) w2) = Ok tt).
  { apply (for_each_turns (guild_iteration env) (guild_iteration_ok env)
                          (guild_iteration_grows env) gs w2). }
  destruct (for_each gs (guild_iteration env) w2) as [r w3] eqn:L.
  cbn in O. subst r. exists gs, w2, w3.
  split; [|split; [|split; [|split; [|split]]]].
  - intros gd. rewrite Egs, filter_In.
    destruct (auto_update_enabled gd) as [[|]|]; intuition congruence.
  - rewrite E2. reflexivity.
  - rewrite E2. reflexivity.
  - rewrite E2. reflexivity.
  - exact L.
  - assert (B : update_check_body env w
                = (Ok tt, extend w3 0
                            [EvLog (InfoComplete (total_updates w3))] 0)).
    { unfold update_check_body. unfold bind in P |- *.
      destruct (log InfoStarting w) as [[[]|e0] w0]; [|discriminate P].
      destruct (select_enabled_guilds env w0) as [[gs0|e1] w1];
        [|discriminate P].
      destruct (set_total_updates 0 w1) as [[[]|e2] w1']; [|discriminate P].
      unfold ret in P. inversion P; subst gs0 w1'.
      rewrite L. unfold read. rewrite log_run. reflexivity. }
    unfold update_check, try_except. rewrite B. reflexivity.
Qed.

(** With the database up and keys unique in the subscription table, the
    cycle reaches the turn of every subscription of an enabled guild that
    the client resolves: what that turn adds wherever it starts, for any row
    of the guild table with the key of the guild, the cycle adds. *)
Lemma cycle_reaches_turn (Q : Event -> Prop) (env : Env) (w : World)
      (gd : GuildData) (g : DiscordGuild) (s : Subscription) :
  (forall k, db_fails env k = false) ->
  NoDup (map sub_id (subscriptions w)) ->
  In gd (guilds w) ->
  auto_update_enabled gd = Some true ->
  get_guild env (guild_id gd) = Some g ->
  In s (subscriptions w) ->
  sub_guild_id s = guild_id gd ->
  (forall gd0 w0, In gd0 (guilds w) -> guild_id gd0 = guild_id gd ->
                  adds Q w0 (snd (subscription_iteration env g gd0 s w0))) ->
  adds Q w (snd (update_check env w)).
Proof.
  intros Db N Ig En R Is Gs Turn.
  destruct (update_check_run env w (Db (tick w)))
    as [gs [w2 [w3 [Hgs [S2 [_ [T2 [L E]]]]]]]].
  rewrite E. cbn [snd].
  pose (I := fun w0 : World =>
               In s (subscriptions w0)
               /\ forall r, In r (subscriptions w0) -> sub_id r = sub_id s ->
                            sub_guild_id r = guild_id gd).
  assert (F : adds Q w2 (snd (for_each gs (guild_iteration env) w2))).
  { apply (@for_each_event _ (guild_iteration env) I Q gd
                           (guild_iteration_ok env) (guild_iteration_grows env)).
    - intros w0 [I0 _]. apply (@guild_turn_reaches Q env gd g s w0); auto.
    - intros gd0 w0 Ig0 [I0 U0].
      destruct (Z.eq_dec (guild_id gd0) (guild_id gd)) as [Eq|Ne].
      + left. apply (@guild_turn_reaches Q env gd0 g s w0); auto.
        * rewrite Eq. exact R.
        * rewrite Eq. exact Gs.
        * intros w1. apply Turn; [apply Hgs, Ig0 | exact Eq].
      + right. apply other_guild_keeps_row; assumption.
    - apply Hgs. auto.
    - split; [rewrite S2; exact Is|]. rewrite S2. intros r Ir K.
      rewrite (NoDup_map_inj sub_id (subscriptions w) r s N Ir Is K).
      exact Gs. }
  rewrite L in F. cbn [snd] in F.
  eapply adds_later; [exists [EvLog InfoStarting; EvSelectGuilds]; exact T2|].
  eapply adds_earlier; [exact F|]. eexists. reflexivity.
Qed.

(** The cycle reaches every due subscription of an enabled guild that the
    client resolves. *)
Lemma cycle_polls_due
        (env : Env) (w : World) (gd : GuildData) (s : Subscription) :
  (forall k, db_fails env k = false) ->
  NoDup (map sub_id (subscriptions w)) ->
  In gd (guilds w) ->
  auto_update_enabled gd = Some true ->
  get_guild env (guild_id gd) <> None ->
  In s (subscriptions w) ->
  sub_guild_id s = guild_id gd ->
  due env s ->
  exists pre post,
    trace (snd (update_check env w))
    = trace w ++ pre ++ EvFetch (sub_id s) (endpoint s) (tmdb_id s) :: post.
Proof.
  intros Db N Ig En R Is Gs Du.
  destruct (get_guild env (guild_id gd)) as [g|] eqn:Eg; [|contradiction].
  apply adds_the_event.
  apply (@cycle_reaches_turn _ env w gd g s); auto.
  intros gd0 w0 _ _. apply due_turn_fetches, Du.
Qed.

(** X12. With the database up and keys unique in the subscription table, a
    cycle requests the metadata of every subscription that is due (one that
    was never checked is) and belongs to a guild that has automatic updates
    enabled and that the client resolves, whatever happens to the
    subscriptions and guilds before it. *)
Theorem due_subscription_polled
        (env : Env) (w : World) (gd : GuildData) (s : Subscription) :
  (forall k, db_fails env k = false) ->
  NoDup (map sub_id (subscriptions w)) ->
  In gd (guilds w) ->
  auto_update_enabled gd = Some true ->
  get_guild env (guild_id gd) <> None ->
  In s (subscriptions w) ->
  sub_guild_id s = guild_id gd ->
  due env s ->
  exists pre post,
    trace (snd (update_check env w))
    = trace w ++ pre ++ EvFetch (sub_id s) (endpoint s) (tmdb_id s) :: post.
Proof.
  intros Db N Ig En R Is Gs Du.
  exact (@cycle_polls_due env w gd s Db N Ig En R Is Gs Du).
Qed.

Lemma due_subscription_polled_witness :
  exists pre post,
    trace (snd (update_check
                  (Examples.env_home Examples.mar10_noon
                                     (Raise ClientError) false)
                  (Examples.world_of
                     [Examples.other_data (Some true);
                      Examples.home_data None (Some true)]
                     [Examples.severance_of_other; Examples.matrix;
                      Examples.severance])))
    = [] ++ pre ++ EvFetch 2 "tv" 95396 :: post.
Proof.
  apply (@due_subscription_polled
           (Examples.env_home Examples.mar10_noon (Raise ClientError) false)
           (Examples.world_of
              [Examples.other_data (Some true);
               Examples.home_data None (Some true)]
              [Examples.severance_of_other; Examples.matrix;
               Examples.severance])
           (Examples.home_data None (Some true)) Examples.severance).
  - intros k. reflexivity.
  - simpl. repeat constructor; simpl; intuition discriminate.
  - simpl. auto.
  - reflexivity.
  - simpl. discriminate.
  - simpl. auto.
  - reflexivity.
  - intros w. reflexivity.
Defined.

(** ** The rate limiter over time *)

Lemma binary64_nonneg (x : Q) : (0 <= x)%Q -> (0 <= binary64 x)%Q.
Proof. intros H. apply (binary64_le H). Qed.

Lemma representable_pow2 (e : Z) : -1074 <= e -> representable (pow2 e).
Proof.
  intros H. exists 1, e. split; [reflexivity|]. split; [exact H|].
  change (inject_Z 1) with 1%Q. ring.
Qed.

Lemma binary64_pow2 (e : Z) : -1074 <= e -> (binary64 (pow2 e) == pow2 e)%Q.
Proof. intros H. apply binary64_exact, representable_pow2, H. Qed.

Lemma seconds_nonneg (d : Z) : 0 <= d -> (0 <= inject_Z d / inject_Z 1000000)%Q.
Proof.
  intros H. apply Qle_shift_div_l; [reflexivity|].
  rewrite Qmult_0_l. change 0%Q with (inject_Z 0). rewrite <- Zle_Qle. exact H.
Qed.

Lemma total_seconds_nonneg (d : Z) :
  0 <= d -> (0 <= TMDBRateLimiter.total_seconds unrounded d)%Q.
Proof. apply seconds_nonneg. Qed.


Lemma ratio_pos (a b : Z) : 0 < a -> 0 < b -> (0 < inject_Z a / inject_Z b)%Q.
Proof.
  intros Ha Hb. apply Qlt_shift_div_l.
  - change 0%Q with (inject_Z 0). rewrite <- Zlt_Qlt. exact Hb.
  - rewrite Qmult_0_l. change 0%Q with (inject_Z 0). rewrite <- Zlt_Qlt.
    exact Ha.
Qed.

Lemma inject_Z_nonzero (p : Z) : p <> 0 -> ~ (inject_Z p == 0)%Q.
Proof. intros H E. unfold Qeq in E. cbn in E. lia. Qed.

(** The same code over the rationals. *)
Lemma acquire_unrounded_run (self : TMDBRateLimiter.t) (current : Z) :
  TMDBRateLimiter.rate self <> 0 ->
  TMDBRateLimiter.period self <> 0 ->
  TMDBRateLimiter.acquire unrounded self current
  = if TMDBRateLimiter.Qlt_bool (replenished unrounded self current) 1
    then (Ok (Some ((1 - replenished unrounded self current)
                    * (inject_Z (TMDBRateLimiter.period self)
                       / inject_Z (TMDBRateLimiter.rate self)))%Q),
          TMDBRateLimiter.with_state self 0%Q current)
    else (Ok None,
          TMDBRateLimiter.with_state
            self (replenished unrounded self current - 1)%Q current).
Proof.
  intros Hr Hp.
  unfold TMDBRateLimiter.acquire, TMDBRateLimiter.true_div, replenished,
    refilled, TMDBRateLimiter.total_seconds, unrounded.
  destruct (Z.eqb_spec (TMDBRateLimiter.period self) 0); [contradiction|].
  destruct (Z.eqb_spec (TMDBRateLimiter.rate self) 0); [contradiction|].
  cbv zeta. rewrite cap_is_Qmin. reflexivity.
Qed.

Lemma refill_nonneg (self : TMDBRateLimiter.t) (current : Z) :
  0 < TMDBRateLimiter.rate self ->
  0 < TMDBRateLimiter.period self ->
  TMDBRateLimiter.last_check self <= current ->
  (0 <= TMDBRateLimiter.total_seconds
          unrounded (current - TMDBRateLimiter.last_check self)
        * per_second self)%Q.
Proof.
  intros Hr Hp Hc. apply Qmult_le_0_compat.
  - apply total_seconds_nonneg. lia.
  - apply Qlt_le_weak, ratio_pos; assumption.
Qed.

Lemma replenished_bounds (self : TMDBRateLimiter.t) (current : Z) :
  0 < TMDBRateLimiter.rate self ->
  0 < TMDBRateLimiter.period self ->
  (0 <= TMDBRateLimiter.allowance self)%Q ->
  TMDBRateLimiter.last_check self <= current ->
  (0 <= replenished unrounded self current)%Q
  /\ (replenished unrounded self current
      <= TMDBRateLimiter.allowance self
         + TMDBRateLimiter.total_seconds
             unrounded (current - TMDBRateLimiter.last_check self)
           * per_second self)%Q.
Proof.
  intros Hr Hp Ha Hc. pose proof (@refill_nonneg self current Hr Hp Hc) as N.
  unfold per_second in *. unfold replenished, refilled.
  unfold unrounded at 1 2 3 5 6 7 8 10.
  split; [|apply Q.le_min_l].
  apply Q.min_glb; [lra|].
  change 0%Q with (inject_Z 0). rewrite <- Zle_Qle. lia.
Qed.

(** The replenished allowance of the code as it runs is not negative when
    the old one is not and the clock did not go back. *)
Lemma replenished_nonneg (self : TMDBRateLimiter.t) (current : Z) :
  0 < TMDBRateLimiter.rate self ->
  0 < TMDBRateLimiter.period self ->
  (0 <= TMDBRateLimiter.allowance self)%Q ->
  TMDBRateLimiter.last_check self <= current ->
  (0 <= replenished binary64 self current)%Q.
Proof.
  intros Hr Hp Ha Hc. unfold replenished, refilled.
  apply Q.min_glb;
    [|change 0%Q with (inject_Z 0); rewrite <- Zle_Qle; lia].
  apply binary64_nonneg.
  pose proof (binary64_nonneg Ha) as A.
  assert (B : (0 <= binary64
                     (TMDBRateLimiter.total_seconds
                        binary64 (current - TMDBRateLimiter.last_check self)
                      * binary64 (inject_Z (TMDBRateLimiter.rate self)
                                  / inject_Z (TMDBRateLimiter.period self))))%Q).
  { apply binary64_nonneg, Qmult_le_0_compat.
    - apply binary64_nonneg, seconds_nonneg. lia.
    - apply binary64_nonneg, Qlt_le_weak, ratio_pos; assumption. }
  lra.
Qed.

(** The time of one token is at least [2 ** -53] seconds when the rate is
    at most [2 ** 53]. *)
Lemma seconds_each_min (r p : Z) :
  0 < r <= 2 ^ 53 -> 0 < p -> (pow2 (-53) <= inject_Z p / inject_Z r)%Q.
Proof.
  intros Hr Hp.
  assert (R : (0 < inject_Z r)%Q) by (apply inject_Z_pos; lia).
  apply Qle_shift_div_l; [exact R|].
  apply Qle_trans with (pow2 (-53) * inject_Z (2 ^ 53))%Q.
  - apply Qmult_le_l; [apply pow2_pos|]. rewrite <- Zle_Qle. lia.
  - apply Qle_trans with 1%Q; [vm_compute; discriminate|].
    change 1%Q with (inject_Z 1). rewrite <- Zle_Qle. lia.
Qed.

(** *** Results within the range of doubles *)

Lemma binary64_bound (x : Q) (k : Z) :
  -1074 <= k -> (- pow2 k <= x <= pow2 k)%Q ->
  (- pow2 k <= binary64 x <= pow2 k)%Q.
Proof.
  intros K [L U]. pose proof (binary64_pow2 K) as E. split.
  - apply Qle_trans with (binary64 (- pow2 k)); [|apply binary64_le, L].
    rewrite binary64_opp, E. apply Qle_refl.
  - apply Qle_trans with (binary64 (pow2 k)); [apply binary64_le, U|].
    rewrite E. apply Qle_refl.
Qed.

Lemma product_bound (x y a b : Q) :
  (- a <= x <= a)%Q -> (- b <= y <= b)%Q -> (- (a * b) <= x * y <= a * b)%Q.
Proof. intros [L1 U1] [L2 U2]. split; nra. Qed.

Lemma ratio_bound (a b : Z) :
  Z.abs a <= 2 ^ 53 -> b <> 0 ->
  (- pow2 53 <= inject_Z a / inject_Z b <= pow2 53)%Q.
Proof.
  intros Ha Hb. rewrite (pow2_Z (n := 53)) by lia.
  assert (A : (- inject_Z (2 ^ 53) <= inject_Z a <= inject_Z (2 ^ 53))%Q)
    by (rewrite <- inject_Z_opp, <- !Zle_Qle; lia).
  destruct (Z_lt_le_dec b 0) as [N|P].
  - assert (B : (inject_Z b <= -1)%Q)
      by (change (-1)%Q with (inject_Z (-1)); rewrite <- Zle_Qle; lia).
    setoid_replace (inject_Z a / inject_Z b)%Q
      with ((- inject_Z a) / (- inject_Z b))%Q
      by (field; apply inject_Z_nonzero, Hb).
    split.
    + apply Qle_shift_div_l; [lra|]. nra.
    + apply Qle_shift_div_r; [lra|]. nra.
  - assert (B : (1 <= inject_Z b)%Q)
      by (change 1%Q with (inject_Z 1); rewrite <- Zle_Qle; lia).
    split.
    + apply Qle_shift_div_l; [lra|]. nra.
    + apply Qle_shift_div_r; [lra|]. nra.
Qed.

(** With a moderate limiter, no result of [acquire] is anywhere near the
    largest double, [2 ** 1024] less one unit: the range in which
    [binary64] is the arithmetic of the code. *)
Lemma moderate_results (self : TMDBRateLimiter.t) (current : Z) :
  Z.abs (TMDBRateLimiter.rate self) <= 2 ^ 53 ->
  TMDBRateLimiter.rate self <> 0 ->
  TMDBRateLimiter.period self <> 0 ->
  moderate self current ->
  (- pow2 63 <= TMDBRateLimiter.total_seconds
                  binary64 (current - TMDBRateLimiter.last_check self)
   <= pow2 63)%Q
  /\ (- pow2 117 <= refilled binary64 self current <= pow2 117)%Q
  /\ (- pow2 117 <= replenished binary64 self current <= pow2 117)%Q
  /\ (- pow2 171
      <= binary64 (binary64 (1 - replenished binary64 self current)
                   * binary64 (inject_Z (TMDBRateLimiter.period self)
                               / inject_Z (TMDBRateLimiter.rate self)))
      <= pow2 171)%Q.
Proof.
  intros Hr Nr Np [Mp [Ma Md]].
  assert (T : (- pow2 63 <= TMDBRateLimiter.total_seconds
                              binary64
                              (current - TMDBRateLimiter.last_check self)
               <= pow2 63)%Q).
  { unfold TMDBRateLimiter.total_seconds. apply binary64_bound; [lia|].
    set (d := current - TMDBRateLimiter.last_check self) in *.
    assert (D : (- pow2 63 <= inject_Z d <= pow2 63)%Q).
    { rewrite (pow2_Z (n := 63)) by lia.
      rewrite <- inject_Z_opp, <- !Zle_Qle. lia. }
    pose proof (pow2_pos 63). split.
    - apply Qle_shift_div_l; [reflexivity|].
      assert (- pow2 63 * inject_Z 1000000 <= - pow2 63)%Q; [|lra].
      change (inject_Z 1000000) with (1000000 # 1)%Q. lra.
    - apply Qle_shift_div_r; [reflexivity|].
      change (inject_Z 1000000) with (1000000 # 1)%Q. lra. }
  assert (S : (- pow2 53
               <= binary64 (inject_Z (TMDBRateLimiter.rate self)
                            / inject_Z (TMDBRateLimiter.period self))
               <= pow2 53)%Q)
    by (apply binary64_bound; [lia | apply ratio_bound; assumption]).
  assert (E : (- pow2 53
               <= binary64 (inject_Z (TMDBRateLimiter.period self)
                            / inject_Z (TMDBRateLimiter.rate self))
               <= pow2 53)%Q)
    by (apply binary64_bound; [lia | apply ratio_bound; assumption]).
  assert (A : (- pow2 53 <= binary64 (TMDBRateLimiter.allowance self)
               <= pow2 53)%Q).
  { apply binary64_bound; [lia|]. rewrite (pow2_Z (n := 53)) by lia.
    exact Ma. }
  assert (X : (- pow2 116
               <= binary64
                    (TMDBRateLimiter.total_seconds
                       binary64 (current - TMDBRateLimiter.last_check self)
                     * binary64 (inject_Z (TMDBRateLimiter.rate self)
                                 / inject_Z (TMDBRateLimiter.period self)))
               <= pow2 116)%Q).
  { apply binary64_bound; [lia|]. change 116 with (63 + 53).
    rewrite pow2_add. apply product_bound; assumption. }
  assert (P53 : (pow2 53 <= pow2 116)%Q) by (apply pow2_le; lia).
  assert (P117 : (pow2 117 == pow2 116 + pow2 116)%Q)
    by (change 117 with (116 + 1); rewrite pow2_add;
        change (pow2 1) with 2%Q; ring).
  assert (F : (- pow2 117 <= refilled binary64 self current <= pow2 117)%Q).
  { unfold refilled. apply binary64_bound; [lia|]. lra. }
  assert (Rt : (- pow2 117 <= inject_Z (TMDBRateLimiter.rate self)
                <= pow2 117)%Q).
  { assert (- pow2 53 <= inject_Z (TMDBRateLimiter.rate self) <= pow2 53)%Q;
      [|lra].
    rewrite (pow2_Z (n := 53)) by lia.
    rewrite <- inject_Z_opp, <- !Zle_Qle. lia. }
  assert (C : (- pow2 117 <= replenished binary64 self current
               <= pow2 117)%Q).
  { unfold replenished. split.
    - apply Q.min_glb; lra.
    - apply Qle_trans with (refilled binary64 self current);
        [apply Q.le_min_l | lra]. }
  split; [exact T|]. split; [exact F|]. split; [exact C|].
  apply binary64_bound; [lia|]. change 171 with (118 + 53).
  rewrite pow2_add. apply product_bound; [|exact E].
  apply binary64_bound; [lia|].
  assert (P118 : (pow2 118 == pow2 117 + pow2 117)%Q)
    by (change 118 with (117 + 1); rewrite pow2_add;
        change (pow2 1) with 2%Q; ring).
  assert (P1 : (1 <= pow2 117)%Q) by (apply (@pow2_le 0 117); lia).
  lra.
Qed.

(** X13. A call that sleeps does not sleep long. With a positive rate and
    period, an allowance that is not negative and a clock that did not go
    back, a call of [acquire] that sleeps sleeps more than nothing and at
    most the time one token takes: [period / rate] seconds over the
    rationals, and that ratio rounded in the arithmetic of doubles, for a
    rate of at most [2 ** 53] and within the range of doubles
    ([moderate]). *)
Theorem sleep_is_at_most_one_token
        (self : TMDBRateLimiter.t) (current : Z) (slept : Q) :
  0 < TMDBRateLimiter.rate self ->
  0 < TMDBRateLimiter.period self ->
  (0 <= TMDBRateLimiter.allowance self)%Q ->
  TMDBRateLimiter.last_check self <= current ->
  (fst (TMDBRateLimiter.acquire unrounded self current) = Ok (Some slept) ->
   (0 < slept)%Q
   /\ (slept <= inject_Z (TMDBRateLimiter.period self)
                / inject_Z (TMDBRateLimiter.rate self))%Q)
  /\ (TMDBRateLimiter.rate self <= 2 ^ 53 ->
      moderate self current ->
      fst (TMDBRateLimiter.acquire binary64 self current) = Ok (Some slept) ->
      (0 < slept)%Q
      /\ (slept <= binary64 (inject_Z (TMDBRateLimiter.period self)
                             / inject_Z (TMDBRateLimiter.rate self)))%Q).
Proof.
  intros Hr Hp Ha Hc. split.
  - rewrite acquire_unrounded_run by lia.
    destruct (@replenished_bounds self current Hr Hp Ha Hc) as [L _].
    pose proof (ratio_pos Hp Hr) as S.
    destruct (TMDBRateLimiter.Qlt_bool (replenished unrounded self current) 1)
      eqn:E; cbn [fst]; intros R; inversion R; subst slept; clear R.
    apply Qlt_bool_iff in E. split.
    + apply Qmult_lt_0_compat; [lra | exact S].
    + setoid_replace (inject_Z (TMDBRateLimiter.period self)
                      / inject_Z (TMDBRateLimiter.rate self))%Q
        with (1 * (inject_Z (TMDBRateLimiter.period self)
                   / inject_Z (TMDBRateLimiter.rate self)))%Q at 2
        by (symmetry; apply Qmult_1_l).
      apply Qmult_le_compat_r; [lra | apply Qlt_le_weak, S].
  - intros Hb _.
    assert (Hr' : 0 < TMDBRateLimiter.rate self <= 2 ^ 53) by lia.
    rewrite (@acquire_run binary64 self current) by lia.
    pose proof (operand_is_replenished self current Hr') as O.
    pose proof (replenished_representable self current Hr') as Rp.
    pose proof (@replenished_nonneg self current Hr Hp Ha Hc) as L.
    destruct (TMDBRateLimiter.Qlt_bool (replenished binary64 self current) 1)
      eqn:E; cbn [fst]; intros R; inversion R; subst slept; clear R.
    apply Qlt_bool_iff in E. rewrite O.
    pose proof (representable_below_1 Rp E) as U.
    set (rho := replenished binary64 self current) in *.
    set (each := (inject_Z (TMDBRateLimiter.period self)
                  / inject_Z (TMDBRateLimiter.rate self))%Q).
    assert (X1 : (pow2 (-53) <= binary64 (1 - rho))%Q).
    { rewrite <- (@binary64_pow2 (-53)) by lia. apply binary64_le. lra. }
    assert (X2 : (binary64 (1 - rho) <= 1)%Q).
    { apply Qle_trans with (binary64 1); [apply binary64_le; lra|].
      apply Qle_lteq. right. apply (@binary64_Z 1). cbn. lia. }
    assert (Y1 : (pow2 (-53) <= binary64 each)%Q).
    { rewrite <- (@binary64_pow2 (-53)) by lia. apply binary64_le.
      apply seconds_each_min; assumption. }
    pose proof (pow2_pos (-53)) as P53. split.
    + apply Qlt_le_trans with (pow2 (-106)); [apply pow2_pos|].
      rewrite <- (@binary64_pow2 (-106)) by lia. apply binary64_le.
      change (-106) with (-53 + -53). rewrite pow2_add.
      apply Qle_trans with (pow2 (-53) * binary64 each)%Q.
      * apply Qmult_le_l; [exact P53 | exact Y1].
      * apply Qmult_le_compat_r; [exact X1 | lra].
    + rewrite <- (binary64_idempotent each) at 2. apply binary64_le.
      setoid_replace (binary64 each) with (1 * binary64 each)%Q at 2
        by (symmetry; apply Qmult_1_l).
      apply Qmult_le_compat_r; [exact X2 | lra].
Qed.

Lemma sleep_is_at_most_one_token_witness :
  ((0 < 100000000 # 400000000)%Q
   /\ (100000000 # 400000000 <= inject_Z 10 / inject_Z 40)%Q)
  /\ ((0 < 4503599627370496 # 18014398509481984)%Q
      /\ (4503599627370496 # 18014398509481984
          <= binary64 (inject_Z 10 / inject_Z 40))%Q).
Proof.
  split.
  - apply (proj1 (@sleep_is_at_most_one_token
                    (TMDBRateLimiter.with_state
                       (TMDBRateLimiter.init 40 10 0) 0%Q 0)
                    0 (100000000 # 400000000)%Q
                    ltac:(simpl; lia) ltac:(simpl; lia)
                    ltac:(simpl; lra) ltac:(simpl; lia))).
    vm_compute. reflexivity.
  - apply (proj2 (@sleep_is_at_most_one_token
                    (TMDBRateLimiter.with_state
                       (TMDBRateLimiter.init 40 10 0) 0%Q 0)
                    0 (4503599627370496 # 18014398509481984)%Q
                    ltac:(simpl; lia) ltac:(simpl; lia)
                    ltac:(simpl; lra) ltac:(simpl; lia))).
    + simpl. lia.
    + repeat split; vm_compute; discriminate.
    + vm_compute. reflexivity.
Defined.

(** X14. A limiter configured with a rate or a period of 0 raises
    [ZeroDivisionError] at every call, whatever its allowance and whatever
    the rounding, and has by then moved [last_check] to the instant of the
    call. *)
Theorem misconfigured_limiter_raises
        (rnd : Q -> Q) (self : TMDBRateLimiter.t) (current : Z) :
  TMDBRateLimiter.rate self = 0 \/ TMDBRateLimiter.period self = 0 ->
  fst (TMDBRateLimiter.acquire rnd self current) = Raise ZeroDivisionError
  /\ TMDBRateLimiter.last_check
       (snd (TMDBRateLimiter.acquire rnd self current))
     = current.
Proof.
  intros H. unfold TMDBRateLimiter.acquire, TMDBRateLimiter.true_div.
  destruct (Z.eqb_spec (TMDBRateLimiter.period self) 0) as [Ep|Np];
    [split; reflexivity|].
  destruct H as [Er|Ep]; [|contradiction].
  cbv zeta. rewrite Er. cbn [Z.eqb].
  match goal with
  | |- context [if TMDBRateLimiter.Qlt_bool ?a 1 then _ else _] =>
      assert (L : TMDBRateLimiter.Qlt_bool a 1 = true)
  end.
  { apply Qlt_bool_iff.
    match goal with
    | |- ((if ?c then _ else _) < _)%Q => destruct c eqn:C
    end; [reflexivity|].
    apply Qlt_bool_false in C. change (inject_Z 0) with 0%Q in C |- *. lra. }
  rewrite L. split; reflexivity.
Qed.

Lemma misconfigured_limiter_raises_witness :
  fst (TMDBRateLimiter.acquire binary64 (TMDBRateLimiter.init 40 0 0) 250000)
  = Raise ZeroDivisionError
  /\ TMDBRateLimiter.last_check
       (snd (TMDBRateLimiter.acquire
               binary64 (TMDBRateLimiter.init 40 0 0) 250000))
     = 250000.
Proof.
  apply (@misconfigured_limiter_raises
           binary64 (TMDBRateLimiter.init 40 0 0) 250000).
  right. reflexivity.
Defined.

(** X15. After a whole period without a call the bucket is full again, when
    the rounding does not take [rate / period] down: in the arithmetic of
    doubles and within their range ([moderate]), with a rate from 1 to
    [2 ** 53], a positive period, a ratio [rate / period] that is not above
    its double, and an allowance that is not negative, a call [period]
    seconds or more after the last one does not sleep and leaves [rate - 1]
    tokens. *)
Theorem idle_period_refills (self : TMDBRateLimiter.t) (current : Z) :
  0 < TMDBRateLimiter.rate self <= 2 ^ 53 ->
  0 < TMDBRateLimiter.period self ->
  moderate self current ->
  (inject_Z (TMDBRateLimiter.rate self) / inject_Z (TMDBRateLimiter.period self)
   <= binary64 (inject_Z (TMDBRateLimiter.rate self)
                / inject_Z (TMDBRateLimiter.period self)))%Q ->
  (0 <= TMDBRateLimiter.allowance self)%Q ->
  TMDBRateLimiter.period self * 1000000
  <= current - TMDBRateLimiter.last_check self ->
  fst (TMDBRateLimiter.acquire binary64 self current) = Ok None
  /\ (TMDBRateLimiter.allowance
        (snd (TMDBRateLimiter.acquire binary64 self current))
      == inject_Z (TMDBRateLimiter.rate self) - 1)%Q.
Proof.
  intros Hr Hp [Mp _] Hq Ha Hd.
  rewrite (@acquire_run binary64 self current) by lia.
  pose proof (operand_is_replenished self current Hr) as O.
  assert (R : (1 <= inject_Z (TMDBRateLimiter.rate self))%Q)
    by (apply one_le_rate; lia).
  set (r := inject_Z (TMDBRateLimiter.rate self)) in *.
  set (p := inject_Z (TMDBRateLimiter.period self)) in *.
  assert (P : (0 < p)%Q) by (apply inject_Z_pos; lia).
  assert (T : (p <= TMDBRateLimiter.total_seconds
                      binary64 (current - TMDBRateLimiter.last_check self))%Q).
  { unfold TMDBRateLimiter.total_seconds.
    apply Qle_trans with (binary64 p).
    - apply Qle_lteq. right. symmetry. apply binary64_Z. lia.
    - apply binary64_le. apply Qle_shift_div_l; [reflexivity|].
      unfold p. rewrite <- inject_Z_mult, <- Zle_Qle. exact Hd. }
  assert (F : (r <= refilled binary64 self current)%Q).
  { unfold refilled. fold r p.
    apply Qle_trans with (binary64 r).
    - apply Qle_lteq. right. symmetry. apply binary64_Z. lia.
    - apply binary64_le.
      pose proof (binary64_nonneg Ha) as A.
      assert (B : (binary64 r
                   <= binary64
                        (TMDBRateLimiter.total_seconds
                           binary64
                           (current - TMDBRateLimiter.last_check self)
                         * binary64 (r / p)))%Q).
      { apply binary64_le.
        setoid_replace r with (p * (r / p))%Q at 1 by (field; lra).
        assert (Q0 : (0 <= r / p)%Q)
          by (apply Qle_shift_div_l; [exact P | lra]).
        apply Qle_trans with (p * binary64 (r / p))%Q.
        - apply Qmult_le_l; [exact P | exact Hq].
        - apply Qmult_le_compat_r; [exact T | lra]. }
      assert (B' : (binary64 r == r)%Q) by (apply binary64_Z; lia).
      lra. }
  assert (E : (replenished binary64 self current == r)%Q).
  { unfold replenished. fold r. apply Q.min_r. exact F. }
  assert (N : TMDBRateLimiter.Qlt_bool (replenished binary64 self current) 1
              = false).
  { apply Qlt_bool_false. rewrite E. exact R. }
  rewrite N. cbn [fst snd TMDBRateLimiter.allowance TMDBRateLimiter.with_state].
  split; [reflexivity|]. fold r. fold r in O. rewrite O, E.
  unfold r. change 1%Q with (inject_Z 1).
  unfold Qminus. rewrite <- inject_Z_opp, <- inject_Z_plus.
  apply binary64_Z. lia.
Qed.

Lemma idle_period_refills_witness :
  fst (TMDBRateLimiter.acquire
         binary64
         (TMDBRateLimiter.with_state (TMDBRateLimiter.init 40 10 0) 0%Q 0)
         10000000)
  = Ok None
  /\ (TMDBRateLimiter.allowance
        (snd (TMDBRateLimiter.acquire
                binary64
                (TMDBRateLimiter.with_state (TMDBRateLimiter.init 40 10 0)
                                            0%Q 0)
                10000000))
      == inject_Z 40 - 1)%Q.
Proof.
  apply (@idle_period_refills
           (TMDBRateLimiter.with_state (TMDBRateLimiter.init 40 10 0) 0%Q 0)
           10000000).
  - simpl. lia.
  - simpl. lia.
  - repeat split; vm_compute; discriminate.
  - vm_compute. discriminate.
  - simpl. lra.
  - simpl. lia.
Defined.

(** The hypothesis on the ratio is needed: with a rate of 1 and a period of
    49, the double of [1 / 49] is below it, 49 seconds after an empty bucket
    the refill is the double below 1, and the call sleeps. *)
Example idle_period_with_rounding_sleeps :
  exists slept,
    fst (TMDBRateLimiter.acquire
           binary64
           (TMDBRateLimiter.with_state (TMDBRateLimiter.init 1 49 0) 0%Q 0)
           49000000)
    = Ok (Some slept)
    /\ (replenished
          binary64
          (TMDBRateLimiter.with_state (TMDBRateLimiter.init 1 49 0) 0%Q 0)
          49000000
        == 1 - pow2 (-53))%Q
    /\ fst (TMDBRateLimiter.acquire
              unrounded
              (TMDBRateLimiter.with_state (TMDBRateLimiter.init 1 49 0) 0%Q 0)
              49000000)
       = Ok None.
Proof.
  eexists. split; [vm_compute; reflexivity|].
  split; vm_compute; reflexivity.
Qed.







(** ** The parameters of a request *)

Module ParamsFacts.
Import TMDBClient.

Lemma get_set_same (d : dict) (k : string) (v : Value) :
  get (set_item d k v) k = Some v.
Proof.
  induction d as [|[k' v'] d IH]; cbn.
  - rewrite String.eqb_refl. reflexivity.
  - destruct (String.eqb k' k) eqn:E; cbn; rewrite E; [reflexivity | exact IH].
Qed.

Lemma get_set_other (d : dict) (k k0 : string) (v : Value) :
  k0 <> k -> get (set_item d k v) k0 = get d k0.
Proof.
  intros N. induction d as [|[k' v'] d IH]; cbn.
  - destruct (String.eqb_spec k k0); [congruence | reflexivity].
  - destruct (String.eqb_spec k' k) as [->|Nk]; cbn.
    + destruct (String.eqb_spec k k0); [congruence | reflexivity].
    + rewrite IH. reflexivity.
Qed.

Lemma get_app (d1 d2 : dict) (k : string) :
  get (d1 ++ d2) k = match get d1 k with
                     | Some v => Some v
                     | None => get d2 k
                     end.
Proof.
  induction d1 as [|[k' v'] d1 IH]; cbn; [reflexivity|].
  destruct (String.eqb k' k); [reflexivity | exact IH].
Qed.

Lemma get_setdefault (d : dict) (k k0 : string) (v : Value) :
  get (setdefault d k v) k0
  = match get d k0 with
    | Some x => Some x
    | None => if String.eqb k k0 then Some v else None
    end.
Proof.
  unfold setdefault. destruct (get d k) as [x|] eqn:G.
  - destruct (get d k0) as [y|] eqn:G0; [reflexivity|].
    destruct (String.eqb_spec k k0); [congruence | reflexivity].
  - rewrite get_app. cbn. reflexivity.
Qed.

Lemma get_map_stringify (d : dict) (k : string) :
  get (map (fun item => (fst item, stringify (snd item))) d) k
  = option_map stringify (get d k).
Proof.
  induction d as [|[k' v'] d IH]; cbn; [reflexivity|].
  destruct (String.eqb k' k); [reflexivity | exact IH].
Qed.

Lemma keys_set_item (d : dict) (k : string) (v : Value) :
  map fst (set_item d k v)
  = map fst d ++ (if existsb (String.eqb k) (map fst d) then [] else [k]).
Proof.
  induction d as [|[k' v'] d IH]; cbn; [reflexivity|].
  rewrite (String.eqb_sym k k').
  destruct (String.eqb k' k); cbn; [rewrite app_nil_r; reflexivity|].
  rewrite IH. reflexivity.
Qed.

Lemma get_none_keys (d : dict) (k : string) :
  get d k = None <-> existsb (String.eqb k) (map fst d) = false.
Proof.
  induction d as [|[k' v'] d IH]; cbn; [tauto|].
  rewrite (String.eqb_sym k k').
  destruct (String.eqb k' k); cbn; [split; discriminate | exact IH].
Qed.

End ParamsFacts.

(** X17. Every request carries the key of the client and a language: in the
    dictionary [_request] sends, [api_key] is the key of the client whatever
    the caller put under that name, and [language] is what the caller put,
    with a boolean written as a string, or the setting [TMDB_LANGUAGE] when
    the caller put nothing, not even a [None]. *)
Theorem request_carries_key_and_language
        (api_key language : string) (params : option TMDBClient.dict) :
  TMDBClient.get (TMDBClient._request_params api_key language params) "api_key"
  = Some (TMDBClient.VStr api_key)
  /\ TMDBClient.get (TMDBClient._request_params api_key language params)
                    "language"
     = match TMDBClient.get (match params with Some d => d | None => [] end)
                            "language" with
       | Some v => Some (TMDBClient.stringify v)
       | None => Some (TMDBClient.VStr language)
       end.
Proof.
  unfold TMDBClient._request_params.
  set (d := match params with Some d => d | None => [] end).
  rewrite !ParamsFacts.get_map_stringify, !ParamsFacts.get_setdefault.
  rewrite ParamsFacts.get_set_same. split; [reflexivity|].
  rewrite ParamsFacts.get_set_other by discriminate.
  destruct (TMDBClient.get d "language"); reflexivity.
Qed.

(** The caller cannot replace the key, and a [language] of [None] stays. *)
Example request_overrides_the_callers_key :
  TMDBClient._request_params
    "k3y" "en-US"
    (Some [("api_key", TMDBClient.VStr "other");
           ("include_adult", TMDBClient.VBool false);
           ("language", TMDBClient.VNone)])
  = [("api_key", TMDBClient.VStr "k3y");
     ("include_adult", TMDBClient.VStr "false");
     ("language", TMDBClient.VNone)].
Proof. reflexivity. Qed.

Lemma sent_parameters (api_key language : string) (d : TMDBClient.dict) :
  (forall k v, In (k, v) (TMDBClient._request_params api_key language (Some d)) ->
               forall b, v <> TMDBClient.VBool b)
  /\ (forall k v,
         k <> "api_key" ->
         TMDBClient.get d k = Some v ->
         TMDBClient.get (TMDBClient._request_params api_key language (Some d)) k
         = Some (TMDBClient.stringify v))
  /\ map fst (TMDBClient._request_params api_key language (Some d))
     = map fst d
       ++ (if existsb (String.eqb "api_key") (map fst d)
           then [] else ["api_key"])
       ++ (if existsb (String.eqb "language") (map fst d)
           then [] else ["language"]).
Proof.
  unfold TMDBClient._request_params.
  split; [|split].
  - intros k v I b E. apply in_map_iff in I. destruct I as [[k' v'] [X _]].
    cbn in X. inversion X; subst. destruct v'; discriminate.
  - intros k v N G.
    rewrite ParamsFacts.get_map_stringify, ParamsFacts.get_setdefault.
    rewrite ParamsFacts.get_set_other by exact N. rewrite G. reflexivity.
  - rewrite map_map. cbn [fst].
    change (map (fun x : string * TMDBClient.Value => fst x)) with
      (@map (string * TMDBClient.Value) string fst).
    unfold TMDBClient.setdefault.
    destruct (TMDBClient.get (TMDBClient.set_item d "api_key"
                                                  (TMDBClient.VStr api_key))
                             "language") as [x|] eqn:G.
    + rewrite ParamsFacts.keys_set_item.
      rewrite ParamsFacts.get_set_other in G by discriminate.
      destruct (existsb (String.eqb "language") (map fst d)) eqn:E.
      * rewrite app_nil_r. reflexivity.
      * apply ParamsFacts.get_none_keys in E. congruence.
    + rewrite map_app, ParamsFacts.keys_set_item. cbn [map fst].
      rewrite ParamsFacts.get_set_other in G by discriminate.
      apply ParamsFacts.get_none_keys in G. rewrite G.
      rewrite <- app_assoc. reflexivity.
Qed.

(** X18. What [_request] does to the parameters of the caller: no value of
    the dictionary sent is a boolean; every parameter of the caller other
    than [api_key] is sent under its name with its value, a boolean as
    ["true"] or ["false"]; and the names sent are the names of the caller,
    in their order, followed by [api_key] and [language] where the caller
    did not give them. *)
Theorem request_parameters_are_kept
        (api_key language : string) (params : option TMDBClient.dict) :
  (forall k v, In (k, v) (TMDBClient._request_params api_key language params) ->
               forall b, v <> TMDBClient.VBool b)
  /\ (forall k v,
         k <> "api_key" ->
         TMDBClient.get (match params with Some d => d | None => [] end) k
         = Some v ->
         TMDBClient.get (TMDBClient._request_params api_key language params) k
         = Some (TMDBClient.stringify v))
  /\ map fst (TMDBClient._request_params api_key language params)
     = map fst (match params with Some d => d | None => [] end)
       ++ (if existsb (String.eqb "api_key")
                      (map fst (match params with Some d => d | None => [] end))
           then [] else ["api_key"])
       ++ (if existsb (String.eqb "language")
                      (map fst (match params with Some d => d | None => [] end))
           then [] else ["language"]).
Proof.
  destruct params as [d|]; [apply sent_parameters|].
  apply (sent_parameters api_key language []).
Qed.

(** ** Subscribing and unsubscribing *)

Lemma selects_title_key (guild tmdb : Z) (media : string) (s : Subscription) :
  Database.selects guild tmdb media s = true
  <-> title_key s = (guild, tmdb, media).
Proof.
  unfold Database.selects, title_key.
  rewrite !andb_true_iff, !Z.eqb_eq, String.eqb_eq. split.
  - intros [[-> ->] ->]. reflexivity.
  - intros E. inversion E. auto.
Qed.

(** The test of [subscribe] finds a row exactly when the table has one with
    that guild, identifier and media type. *)
Lemma subscribe_test (table : list Subscription) (guild tmdb : Z)
      (media : string) :
  existsb (fun s => (tmdb_id s =? tmdb) && String.eqb (media_type s) media)
          (filter (fun s => sub_guild_id s =? guild) table)
  = existsb (Database.selects guild tmdb media) table.
Proof.
  induction table as [|r l IH]; [reflexivity|].
  cbn [filter existsb]. unfold Database.selects at 1.
  destruct (sub_guild_id r =? guild); cbn; rewrite IH; reflexivity.
Qed.

Lemma existsb_selects (table : list Subscription) (guild tmdb : Z)
      (media : string) :
  existsb (Database.selects guild tmdb media) table = true
  <-> In (guild, tmdb, media) (map title_key table).
Proof.
  rewrite existsb_exists, in_map_iff. split.
  - intros [s [I S]]. exists s. split; [apply selects_title_key, S | exact I].
  - intros [s [E I]]. exists s. split; [exact I | apply selects_title_key, E].
Qed.

(** With unique title keys a [where] clause selects at most one row. *)
Lemma selected_rows (table : list Subscription) (guild tmdb : Z)
      (media : string) :
  NoDup (map title_key table) ->
  filter (Database.selects guild tmdb media) table = []
  \/ exists s, filter (Database.selects guild tmdb media) table = [s].
Proof.
  induction table as [|r l IH]; intros N; [left; reflexivity|].
  inversion N as [|? ? Nr Nl]; subst. cbn [filter].
  destruct (Database.selects guild tmdb media r) eqn:S; [|apply IH, Nl].
  right. exists r. f_equal.
  apply selects_title_key in S.
  destruct (filter (Database.selects guild tmdb media) l) as [|x rest] eqn:F;
    [reflexivity|].
  exfalso. apply Nr. rewrite S.
  assert (I : In x (filter (Database.selects guild tmdb media) l))
    by (rewrite F; left; reflexivity).
  apply filter_In in I. destruct I as [I Sx].
  apply selects_title_key in Sx. rewrite <- Sx. apply in_map, I.
Qed.

Lemma filter_ext_in_rows (f g : Subscription -> bool) (l : list Subscription) :
  (forall r, In r l -> f r = g r) -> filter f l = filter g l.
Proof.
  induction l as [|r l IH]; intros H; [reflexivity|]. cbn [filter].
  rewrite (H r (or_introl eq_refl)), IH; [reflexivity|].
  intros r0 I. apply H. right. exact I.
Qed.

(** X19. [subscribe] adds a row exactly when the guild has no subscription
    with that TMDB identifier and media type: then the table is the old one
    followed by one row that holds the key given by the database, the
    guild, the identifier, the media type, the title and the poster of the
    call, no [last_checked] and both flags on; otherwise the table is as it
    was. So a table in which no guild has two subscriptions to one title
    stays such a table. *)
Theorem subscribe_keeps_titles_unique
        (key : Z) (table : list Subscription) (guild tmdb : Z)
        (media title : string) (poster : option string) :
  (fst (Database.subscribe key table guild tmdb media title poster) = true
   <-> ~ In (guild, tmdb, media) (map title_key table))
  /\ (fst (Database.subscribe key table guild tmdb media title poster) = true ->
      snd (Database.subscribe key table guild tmdb media title poster)
      = table
        ++ [{| sub_id := key; sub_guild_id := guild; tmdb_id := tmdb;
               media_type := media; sub_title := title;
               poster_path := poster; last_checked := None;
               notify_on_release := Some true;
               notify_on_update := Some true |}])
  /\ (fst (Database.subscribe key table guild tmdb media title poster) = false ->
      snd (Database.subscribe key table guild tmdb media title poster) = table)
  /\ (NoDup (map title_key table) ->
      NoDup (map title_key
                 (snd (Database.subscribe key table guild tmdb media title
                                          poster)))).
Proof.
  unfold Database.subscribe. rewrite subscribe_test.
  pose proof (existsb_selects table guild tmdb media) as X.
  destruct (existsb (Database.selects guild tmdb media) table); cbn [fst snd].
  - split; [|split; [discriminate | split; [reflexivity | auto]]].
    split; [discriminate|]. intros H. destruct H. apply X. reflexivity.
  - assert (A : ~ In (guild, tmdb, media) (map title_key table))
      by (intros I; apply X in I; discriminate I).
    split; [tauto|]. split; [reflexivity|]. split; [discriminate|].
    intros N. unfold Database.add_subscription. cbn [snd].
    rewrite map_app. cbn [map]. unfold title_key at 2. cbn.
    apply NoDup_app; [exact N | repeat constructor; intros [] | ].
    intros x Ix [<-|[]]. exact (A Ix).
Qed.

Lemma subscribe_keeps_titles_unique_witness :
  snd (Database.subscribe 4 [Examples.matrix; Examples.severance]
                          10 603 "tv" "The Matrix (series)" None)
  = [Examples.matrix; Examples.severance]
    ++ [{| sub_id := 4; sub_guild_id := 10; tmdb_id := 603;
           media_type := "tv"; sub_title := "The Matrix (series)";
           poster_path := None; last_checked := None;
           notify_on_release := Some true; notify_on_update := Some true |}].
Proof.
  apply (proj1 (proj2 (@subscribe_keeps_titles_unique
                         4 [Examples.matrix; Examples.severance]
                         10 603 "tv" "The Matrix (series)" None))).
  reflexivity.
Defined.

(** X20. In a table in which primary keys are unique and no guild has two
    subscriptions to one title, [remove_subscription] does not raise: it
    tells whether the guild had the subscription, and leaves the table
    without it, every other row staying where it was. *)
Theorem remove_subscription_removes_the_title
        (table : list Subscription) (guild tmdb : Z) (media : string) :
  NoDup (map sub_id table) ->
  NoDup (map title_key table) ->
  Database.remove_subscription table guild tmdb media
  = (Database.Return (existsb (Database.selects guild tmdb media) table),
     filter (fun r => negb (Database.selects guild tmdb media r)) table).
Proof.
  intros Ni Nt. unfold Database.remove_subscription.
  destruct (selected_rows table guild tmdb media Nt) as [F|[s F]]; rewrite F;
    cbn [Database.scalar_one_or_none].
  - assert (A : forall r, In r table ->
                          Database.selects guild tmdb media r = false).
    { intros r I. destruct (Database.selects guild tmdb media r) eqn:S;
        [|reflexivity].
      assert (X : In r (filter (Database.selects guild tmdb media) table))
        by (apply filter_In; auto).
      rewrite F in X. destruct X. }
    f_equal.
    + f_equal. symmetry. apply not_true_is_false. intros E.
      apply existsb_exists in E. destruct E as [r [I S]].
      rewrite (A r I) in S. discriminate S.
    + symmetry. rewrite (filter_ext_in_rows _ (fun _ => true)).
      * clear. induction table as [|r l IH]; [reflexivity|].
        cbn. rewrite IH. reflexivity.
      * intros r I. rewrite (A r I). reflexivity.
  - assert (Is : In s table /\ Database.selects guild tmdb media s = true).
    { apply filter_In. rewrite F. left. reflexivity. }
    destruct Is as [Is Ss]. f_equal.
    + f_equal. symmetry. apply existsb_exists. exists s. auto.
    + apply filter_ext_in_rows. intros r I. f_equal.
      destruct (Z.eqb_spec (sub_id r) (sub_id s)) as [E|E].
      * rewrite (NoDup_map_inj sub_id table r s Ni I Is E). symmetry. exact Ss.
      * symmetry. destruct (Database.selects guild tmdb media r) eqn:S;
          [|reflexivity].
        assert (X : In r (filter (Database.selects guild tmdb media) table))
          by (apply filter_In; auto).
        rewrite F in X. destruct X as [<-|[]]. destruct E. reflexivity.
Qed.

Lemma remove_subscription_removes_the_title_witness :
  Database.remove_subscription [Examples.matrix; Examples.severance]
                               10 95396 "tv"
  = (Database.Return
       (existsb (Database.selects 10 95396 "tv")
                [Examples.matrix; Examples.severance]),
     filter (fun r => negb (Database.selects 10 95396 "tv" r))
            [Examples.matrix; Examples.severance]).
Proof.
  apply (@remove_subscription_removes_the_title
           [Examples.matrix; Examples.severance] 10 95396 "tv").
  - simpl. repeat constructor; simpl; intuition discriminate.
  - simpl. repeat constructor; simpl; intuition discriminate.
Defined.

(** Two rows for one title, which [subscribe] never makes: the removal
    raises and removes nothing. *)
Example remove_subscription_with_two_rows :
  Database.remove_subscription
    [Examples.matrix; Examples.severance;
     {| sub_id := 5; sub_guild_id := 10; tmdb_id := 603;
        media_type := "movie"; sub_title := "The Matrix";
        poster_path := None; last_checked := None;
        notify_on_release := Some true; notify_on_update := Some true |}]
    10 603 "movie"
  = (Database.MultipleResultsFound,
     [Examples.matrix; Examples.severance;
      {| sub_id := 5; sub_guild_id := 10; tmdb_id := 603;
         media_type := "movie"; sub_title := "The Matrix";
         poster_path := None; last_checked := None;
         notify_on_release := Some true; notify_on_update := Some true |}]).
Proof. reflexivity. Qed.

(** X21. Unsubscribing undoes subscribing: when [subscribe] has added a row,
    under a primary key the table did not hold, [remove_subscription] for
    the same guild, identifier and media type returns true and gives the
    table back as it was before. *)
Theorem unsubscribe_undoes_subscribe
        (key : Z) (table : list Subscription) (guild tmdb : Z)
        (media title : string) (poster : option string) :
  ~ In key (map sub_id table) ->
  fst (Database.subscribe key table guild tmdb media title poster) = true ->
  Database.remove_subscription
    (snd (Database.subscribe key table guild tmdb media title poster))
    guild tmdb media
  = (Database.Return true, table).
Proof.
  intros Fr. unfold Database.subscribe. rewrite subscribe_test.
  destruct (existsb (Database.selects guild tmdb media) table) eqn:X;
    cbn [fst snd]; [discriminate|]. intros _.
  assert (A : forall r, In r table ->
                        Database.selects guild tmdb media r = false).
  { intros r I. destruct (Database.selects guild tmdb media r) eqn:S;
      [|reflexivity].
    assert (E : existsb (Database.selects guild tmdb media) table = true)
      by (apply existsb_exists; exists r; auto).
    congruence. }
  unfold Database.add_subscription, Database.remove_subscription. cbn [snd].
  rewrite filter_app.
  rewrite (filter_ext_in_rows (Database.selects guild tmdb media)
                              (fun _ => false) table A).
  assert (E0 : forall l : list Subscription, filter (fun _ => false) l = [])
    by (induction l; auto).
  rewrite E0. cbn [app filter].
  unfold Database.selects at 1. cbn [sub_guild_id tmdb_id media_type].
  rewrite !Z.eqb_refl, String.eqb_refl. cbn. f_equal.
  rewrite filter_app. cbn. rewrite Z.eqb_refl. cbn. rewrite app_nil_r.
  rewrite (filter_ext_in_rows _ (fun _ => true)).
  - clear. induction table as [|r l IH]; [reflexivity|].
    cbn. rewrite IH. reflexivity.
  - intros r I. destruct (Z.eqb_spec (sub_id r) key) as [E|E]; [|reflexivity].
    destruct Fr. rewrite <- E. apply in_map, I.
Qed.

Lemma unsubscribe_undoes_subscribe_witness :
  Database.remove_subscription
    (snd (Database.subscribe 4 [Examples.matrix; Examples.severance]
                             10 603 "tv" "The Matrix (series)" None))
    10 603 "tv"
  = (Database.Return true, [Examples.matrix; Examples.severance]).
Proof.
  apply (@unsubscribe_undoes_subscribe
           4 [Examples.matrix; Examples.severance]
           10 603 "tv" "The Matrix (series)" None).
  - simpl. intuition discriminate.
  - reflexivity.
Defined.

(** X22. A new subscription is polled at the next cycle. With the database
    up and primary keys unique, once [add_subscription] has added a row for
    a guild that has automatic updates enabled and that the client resolves,
    the next cycle requests the metadata of the title: from the movie
    endpoint when the media type is ["movie"], from the series endpoint
    otherwise. *)
Theorem new_subscription_is_polled
        (env : Env) (w : World) (gd : GuildData) (key tmdb : Z)
        (media title : string) (poster : option string) :
  (forall k, db_fails env k = false) ->
  NoDup (map sub_id (subscriptions w)) ->
  ~ In key (map sub_id (subscriptions w)) ->
  In gd (guilds w) ->
  auto_update_enabled gd = Some true ->
  get_guild env (guild_id gd) <> None ->
  exists pre post,
    trace (snd (update_check env
                  (with_subscriptions
                     (snd (Database.add_subscription
                             key (subscriptions w) (guild_id gd) tmdb media
                             title poster))
                     w)))
    = trace w ++ pre
        ++ EvFetch key (if String.eqb media "movie" then "movie" else "tv") tmdb
        :: post.
Proof.
  intros Db N Fr Ig En R.
  pose (row := fst (Database.add_subscription
                      key (subscriptions w) (guild_id gd) tmdb media title
                      poster)).
  apply (@cycle_polls_due
           env (with_subscriptions (subscriptions w ++ [row]) w) gd row).
  - exact Db.
  - cbn. rewrite map_app. apply NoDup_app; [exact N | | ].
    + repeat constructor. intros [].
    + intros x Ix [<-|[]]. exact (Fr Ix).
  - exact Ig.
  - exact En.
  - exact R.
  - cbn. apply in_or_app. right. left. reflexivity.
  - reflexivity.
  - apply never_checked_due. reflexivity.
Qed.

Lemma new_subscription_is_polled_witness :
  exists pre post,
    trace (snd (update_check
                  (Examples.env_home Examples.mar10_noon
                                     (Raise ClientError) false)
                  (with_subscriptions
                     (snd (Database.add_subscription
                             4 [Examples.matrix] 10 95396 "tv" "Severance"
                             None))
                     (Examples.world_of
                        [Examples.home_data None (Some true)]
                        [Examples.matrix]))))
    = [] ++ pre ++ EvFetch 4 "tv" 95396 :: post.
Proof.
  apply (@new_subscription_is_polled
           (Examples.env_home Examples.mar10_noon (Raise ClientError) false)
           (Examples.world_of [Examples.home_data None (Some true)]
                              [Examples.matrix])
           (Examples.home_data None (Some true)) 4 95396 "tv" "Severance" None).
  - intros k. reflexivity.
  - simpl. repeat constructor; simpl; intuition discriminate.
  - simpl. intuition discriminate.
  - simpl. auto.
  - reflexivity.
  - simpl. discriminate.
Defined.

(** ** When the evaluator raises *)

(** The date that was read is there and does not parse. *)
Ltac bad_date :=
  match goal with
  | H : truthy_str _ = true |- _ =>
      apply truthy_str_some in H; destruct H as [?X _]
  end;
  eexists; split; [eassumption|]; intros dt; congruence.

(** X23. The evaluator raises for one reason only. When it raises, the
    exception is [ValueError], nothing has been read from the clock or
    written, and a date it had to parse does not parse: the [release_date]
    of a movie with [notify_on_release] on; or, for a series with
    [notify_on_update] on, the [air_date] of a [next_episode_to_air] that
    is not empty, or the [last_air_date] when there is no
    [next_episode_to_air] or an empty one. *)
Theorem evaluator_raises_for_bad_dates_only
        (env : Env) (s : Subscription) (d : Details) (w : World) (e : Exn) :
  fst (_check_for_updates env s d w) = Raise e ->
  e = ValueError
  /\ snd (_check_for_updates env s d w) = w
  /\ ((media_type s = "movie"
       /\ truthy_bool (notify_on_release s) = true
       /\ exists x, release_date d = Some x /\ unparseable x)
      \/ (media_type s = "tv"
          /\ truthy_bool (notify_on_update s) = true
          /\ ((exists ep x, next_episode_to_air d = Some ep
                            /\ truthy_episode (Some ep) = true
                            /\ air_date ep = Some x /\ unparseable x)
              \/ (truthy_episode (next_episode_to_air d) = false
                  /\ exists x, last_air_date d = Some x /\ unparseable x)))).
Proof.
  evaluator_cases; intros E; try discriminate E;
    inversion E; subst; clear E; evaluator_facts.
  all: match goal with
       | H : DateTime.strptime _ = Raise _ |- _ =>
           pose proof (strptime_raises_ValueError _ H) as V; subst
       end.
  all: split; [reflexivity|]; split; [reflexivity|].
  all: first
         [ solve [left; split; [assumption|]; split; [assumption|]; bad_date]
         | right; split; [assumption|]; split; [assumption|] ].
  - left.
    match goal with
    | H : truthy_episode _ = true |- _ =>
        pose proof H as Ht;
        apply truthy_episode_some in H; destruct H as [ep Hep]
    end.
    rewrite Hep in *. cbn [get_air_date] in *. exists ep.
    match goal with
    | H : truthy_str _ = true |- _ =>
        apply truthy_str_some in H; destruct H as [X _]
    end.
    eexists. split; [reflexivity|]. split; [exact Ht|]. split; [exact X|].
    intros dt. congruence.
  - right. split; [|bad_date].
    destruct (truthy_episode (next_episode_to_air d)); cbn in *;
      [congruence | reflexivity].
Qed.

(** The snapshot of the witness has the empty object under
    [next_episode_to_air] and a [last_air_date] that is no date. *)
Lemma evaluator_raises_for_bad_dates_only_witness :
  ValueError = ValueError
  /\ snd (_check_for_updates
            (Examples.env_of Examples.mar10_noon (Raise ClientError) false None)
            Examples.severance
            (Examples.severance_details (Some "soon")
                                        (Some Examples.empty_object))
            (Examples.world_of [] []))
     = Examples.world_of [] []
  /\ ((media_type Examples.severance = "movie"
       /\ truthy_bool (notify_on_release Examples.severance) = true
       /\ exists x,
           release_date (Examples.severance_details
                           (Some "soon") (Some Examples.empty_object))
           = Some x
           /\ unparseable x)
      \/ (media_type Examples.severance = "tv"
          /\ truthy_bool (notify_on_update Examples.severance) = true
          /\ ((exists ep x,
                  next_episode_to_air
                    (Examples.severance_details
                       (Some "soon") (Some Examples.empty_object))
                  = Some ep
                  /\ truthy_episode (Some ep) = true
                  /\ air_date ep = Some x /\ unparseable x)
              \/ (truthy_episode
                    (next_episode_to_air
                       (Examples.severance_details
                          (Some "soon") (Some Examples.empty_object)))
                  = false
                  /\ exists x,
                      last_air_date
                        (Examples.severance_details
                           (Some "soon") (Some Examples.empty_object))
                      = Some x
                      /\ unparseable x)))).
Proof.
  apply (@evaluator_raises_for_bad_dates_only
           (Examples.env_of Examples.mar10_noon (Raise ClientError) false None)
           Examples.severance
           (Examples.severance_details (Some "soon")
                                       (Some Examples.empty_object))
           (Examples.world_of [] []) ValueError).
  reflexivity.
Defined.

(** ** A decided notification is sent *)

(** The message for the notification [n] about the subscription [s], posted
    in the channel [c]. *)
Lemma dispatch_run_sends (env : Env) (g : DiscordGuild) (gd : GuildData)
      (s : Subscription) (n : Notification) (c : Z) (w : World) :
  destination g gd = Some c ->
  exists dt e outcome,
    message_for s n c e
    /\ (emit (EvDispatch (sub_id s)) ;;
        _send_notification env g gd s n ;;
        total <- read total_updates ;;
        set_total_updates (S total)) w
       = (Ok tt, extend w dt [EvDispatch (sub_id s); e; EvLog outcome] 1).
Proof.
  intros Dst. unfold bind at 1. rewrite emit_run.
  unfold bind at 1. rewrite send_notification_run.
  change (if negb (truthy_int (notification_channel_id gd))
          then system_channel g
          else match notification_channel_id gd with
               | Some c0 => get_channel g c0
               | None => None
               end) with (destination g gd).
  rewrite Dst. unfold bind, read, set_total_updates. cbn [fst snd].
  exists 2%nat. eexists. eexists. split; cycle 1.
  - f_equal. apply world_eq; cbn; try reflexivity; try lia.
    rewrite <- app_assoc. reflexivity.
  - eexists. eexists. split; [reflexivity|]. cbn. auto.
Qed.

(** The turn of a due subscription for which the fetch returns a snapshot,
    the evaluator decides [n] and the dispatcher has the channel [c]: the
    message is sent, whatever comes of the send and of the write after it. *)
Lemma decided_turn_sends (env : Env) (g : DiscordGuild) (gd : GuildData)
      (s : Subscription) (d : Details) (n : Notification) (c : Z) (w : World) :
  is_fresh env s w = false ->
  tmdb_request env (fetch_tick s w) (endpoint s) (tmdb_id s) = Ok d ->
  (forall w0, fst (_check_for_updates env s d w0) = Ok (Some n)) ->
  destination g gd = Some c ->
  adds (message_for s n c) w (snd (subscription_iteration env g gd s w)).
Proof.
  intros F Fe Ev Dst.
  remember (subscription_iteration env g gd s w) as run eqn:R.
  unfold subscription_iteration, try_except in R.
  rewrite (check_subscription_stale env g gd s w F), Fe in R.
  destruct (after_fetch_extend s w) as [ft [_ Ef]]. rewrite Ef in R.
  unfold evaluate_and_record in R. unfold bind at 1 in R.
  rewrite emit_run, extend_extend in R. cbn [app] in R.
  match type of R with
  | context [extend w ?k ?evs ?u] =>
      destruct (check_for_updates_world env s d (extend w k evs u))
        as [dt1 [_ W1]];
      pose proof (Ev (extend w k evs u)) as E1;
      unfold bind at 1 in R;
      destruct (_check_for_updates env s d (extend w k evs u)) as [r w1]
  end.
  cbn [fst snd] in W1, E1. subst r w1. rewrite extend_extend in R.
  cbn [app] in R.
  match type of R with
  | context [extend w ?k ?evs ?u] =>
      destruct (@dispatch_run_sends env g gd s n c (extend w k evs u) Dst)
        as [dt2 [e [outcome [M E2]]]]
  end.
  erewrite bind_ok in R; [|exact E2].
  rewrite record_run in R. rewrite ?extend_extend in R. cbn [app] in R.
  exists [EvFetch (sub_id s) (endpoint s) (tmdb_id s);
          EvEvaluate (sub_id s); EvDispatch (sub_id s)], e.
  destruct (db_fails env _); subst run; cbn [snd].
  - rewrite log_run. cbn [snd extend trace]. eexists. split; [exact M|].
    rewrite <- !app_assoc. cbn [app]. reflexivity.
  - cbn [write_last_checked extend trace]. eexists. split; [exact M|].
    reflexivity.
Qed.

(** X24. A notification that is decided is sent. With the database up and
    keys unique in both tables, take a subscription that is due, in a guild
    that has automatic updates enabled and that the client resolves. If TMDB
    returns a snapshot for which the evaluator decides a notification, and
    the dispatcher has a channel to post in, then the cycle sends a message
    about that subscription to that channel, with the type, the title and
    the date of the notification, whatever happens to the subscriptions and
    guilds before it. *)
Theorem decided_notification_is_sent
        (env : Env) (w : World) (gd : GuildData) (g : DiscordGuild)
        (s : Subscription) (d : Details) (n : Notification) (c : Z) :
  (forall k, db_fails env k = false) ->
  NoDup (map sub_id (subscriptions w)) ->
  NoDup (map guild_id (guilds w)) ->
  In gd (guilds w) ->
  auto_update_enabled gd = Some true ->
  get_guild env (guild_id gd) = Some g ->
  In s (subscriptions w) ->
  sub_guild_id s = guild_id gd ->
  due env s ->
  (forall k, tmdb_request env k (endpoint s) (tmdb_id s) = Ok d) ->
  (forall w0, fst (_check_for_updates env s d w0) = Ok (Some n)) ->
  destination g gd = Some c ->
  exists pre post content embed,
    trace (snd (update_check env w))
    = trace w ++ pre ++ EvSend (sub_id s) c content embed :: post
    /\ e_template embed = n_type n
    /\ e_title embed = n_title n
    /\ e_date embed = n_date n.
Proof.
  intros Db Ns Ng Ig En R Is Gs Du Fe Ev Dst.
  assert (A : adds (message_for s n c) w (snd (update_check env w))).
  { apply (@cycle_reaches_turn _ env w gd g s); auto.
    intros gd0 w0 Ig0 Eq.
    rewrite (NoDup_map_inj guild_id (guilds w) gd0 gd Ng Ig0 Ig Eq).
    apply (@decided_turn_sends env g gd s d n c w0); auto. }
  destruct A as [pre [e [post [[content [embed [-> M]]] T]]]].
  exists pre, post, content, embed. split; [exact T | exact M].
Qed.

Lemma decided_notification_is_sent_witness :
  exists pre post content embed,
    trace (snd (update_check
                  (Examples.env_home
                     Examples.mar10_noon
                     (Ok (Examples.matrix_details "2024-03-10")) true)
                  (Examples.world_of
                     [Examples.other_data (Some true);
                      Examples.home_data (Some 200) (Some true)]
                     [Examples.severance_of_other; Examples.matrix])))
    = [] ++ pre ++ EvSend 1 200 content embed :: post
    /\ e_template embed = release
    /\ e_title embed = Some "The Matrix"
    /\ e_date embed = "2024-03-10".
Proof.
  apply (@decided_notification_is_sent
           (Examples.env_home Examples.mar10_noon
                              (Ok (Examples.matrix_details "2024-03-10")) true)
           (Examples.world_of
              [Examples.other_data (Some true);
               Examples.home_data (Some 200) (Some true)]
              [Examples.severance_of_other; Examples.matrix])
           (Examples.home_data (Some 200) (Some true)) Examples.home
           Examples.matrix (Examples.matrix_details "2024-03-10")
           Examples.matrix_released 200).
  - intros k. reflexivity.
  - simpl. repeat constructor; simpl; intuition discriminate.
  - simpl. repeat constructor; simpl; intuition discriminate.
  - simpl. auto.
  - reflexivity.
  - reflexivity.
  - simpl. auto.
  - reflexivity.
  - intros w. reflexivity.
  - intros k. reflexivity.
  - intros w0. reflexivity.
  - reflexivity.
Defined.

(** ** A cycle with nothing to do *)

Lemma respects_for_each_in {X} (R : World -> World -> Prop)
      (xs : list X) (body : X -> M unit) :
  (forall w, R w w) ->
  (forall w1 w2 w3, R w1 w2 -> R w2 w3 -> R w1 w3) ->
  (forall x, In x xs -> respects R (body x)) ->
  respects R (for_each xs body).
Proof.
  intros R_refl R_trans. induction xs as [|x xs IH]; intros H; cbn [for_each].
  - apply (respects_ret _ R_refl).
  - apply (respects_bind R_trans); [apply H; left; reflexivity|].
    intros _. apply IH. intros y I. apply H. right. exact I.
Qed.

Section QuietCycle.

Variable env : Env.
Variable table : list Subscription.

(** Every row of the table is fresh whenever the clock is read. *)
Hypothesis table_fresh :
  forall s, In s table -> forall w, is_fresh env s w = true.

Lemma quiet_refl (w : World) : quiet_step table w w.
Proof.
  intros T. split; [exact T|]. split; [reflexivity|].
  exists []. rewrite app_nil_r. split; [reflexivity | constructor].
Qed.

Lemma quiet_trans (w1 w2 w3 : World) :
  quiet_step table w1 w2 -> quiet_step table w2 w3 -> quiet_step table w1 w3.
Proof.
  intros H1 H2 T. destruct (H1 T) as [T2 [U2 [n1 [E1 F1]]]].
  destruct (H2 T2) as [T3 [U3 [n2 [E2 F2]]]].
  split; [exact T3|]. split; [congruence|].
  exists (n1 ++ n2). rewrite E2, E1, app_assoc. split; [reflexivity|].
  apply Forall_app. auto.
Qed.

Lemma quiet_extend (w : World) (dt : nat) (evs : list Event) :
  Forall (fun e => event_subscription e = None) evs ->
  quiet_step table w (extend w dt evs 0).
Proof.
  intros F T. cbn. split; [exact T|]. split; [lia|]. exists evs. auto.
Qed.

Lemma quiet_log (r : LogRecord) : respects (quiet_step table) (log r).
Proof.
  intros w. rewrite log_run. apply quiet_extend. repeat constructor.
Qed.

(** The turn of a row of the table: the clock is read, nothing else. *)
Lemma quiet_turn (g : DiscordGuild) (gd : GuildData) (s : Subscription) :
  In s table -> respects (quiet_step table) (subscription_iteration env g gd s).
Proof.
  intros I w. unfold subscription_iteration, try_except.
  rewrite (check_subscription_fresh env g gd s w (table_fresh s I w)).
  cbn [snd]. intros T. cbn. split; [exact T|]. split; [reflexivity|].
  exists []. rewrite app_nil_r. split; [reflexivity | constructor].
Qed.

Lemma quiet_check_guild (gd : GuildData) :
  respects (quiet_step table) (check_guild env gd).
Proof.
  intros w. unfold check_guild.
  destruct (get_guild env (guild_id gd)) as [g|]; [|apply quiet_refl].
  destruct (db_fails env (tick w)) eqn:D.
  - unfold get_subscriptions, bind, consult, emit, raise. cbn. rewrite D. cbn.
    intros T. cbn. split; [exact T|]. split; [reflexivity|].
    eexists. split; [reflexivity | repeat constructor].
  - unfold bind at 1. rewrite (get_subscriptions_run env (guild_id gd) w D).
    intros T. rewrite T.
    assert (Sub : forall s, In s (filter (fun r => sub_guild_id r =? guild_id gd)
                                         table) -> In s table)
      by (intros s I; apply filter_In in I; tauto).
    destruct (filter (fun r => sub_guild_id r =? guild_id gd) table)
      as [|s0 rest] eqn:Fl.
    + apply (@quiet_extend w 1 [EvGetSubscriptions (guild_id gd)]);
        [repeat constructor | exact T].
    + refine (quiet_trans
                (@quiet_extend w 1 [EvGetSubscriptions (guild_id gd)] _) _ T);
        [repeat constructor|].
      apply (respects_bind quiet_trans); [apply quiet_log|]. intros _.
      apply (@respects_for_each_in _ (quiet_step table) _ _ quiet_refl
                                   quiet_trans).
      intros s I. apply quiet_turn, Sub, I.
Qed.

Lemma quiet_guild_loop (gs : list GuildData) :
  respects (quiet_step table) (for_each gs (guild_iteration env)).
Proof.
  apply (respects_for_each quiet_refl quiet_trans). intros gd.
  apply (respects_try_except quiet_trans); [apply quiet_check_guild|].
  intros e. apply quiet_log.
Qed.

End QuietCycle.

(** X25. No second notice within the interval. If every row of the
    subscription table is fresh whenever the clock is read (its
    [last_checked] is set and less than the update interval old), a cycle
    does nothing about any subscription: no fetch, no evaluation, no
    dispatch, no message and no write; the table is as it was; and the
    closing line, when there is one, says 0. *)
Theorem fresh_table_quiet_cycle (env : Env) (w : World) :
  (forall s, In s (subscriptions w) -> forall w0, is_fresh env s w0 = true) ->
  subscriptions (snd (update_check env w)) = subscriptions w
  /\ exists new,
      trace (snd (update_check env w)) = trace w ++ new
      /\ (forall e, In e new -> event_subscription e = None)
      /\ (db_fails env (tick w) = false ->
          exists body, new = body ++ [EvLog (InfoComplete 0)]).
Proof.
  intros Fr. destruct (db_fails env (tick w)) eqn:D.
  - destruct (cycle_run env w) as [[_ E]|[D' _]]; [|congruence].
    rewrite E. cbn [snd extend subscriptions trace].
    split; [reflexivity|]. eexists. split; [reflexivity|].
    split; [|discriminate]. intros x I. cbn in I.
    destruct I as [<-|[<-|[<-|[]]]]; reflexivity.
  - destruct (update_check_run env w D)
      as [gs [w2 [w3 [_ [S2 [U2 [T2 [L E]]]]]]]].
    pose proof (@quiet_guild_loop env (subscriptions w) Fr gs w2 S2) as Q.
    rewrite L in Q. cbn [snd] in Q.
    destruct Q as [S3 [U3 [new [T3 F3]]]].
    rewrite E. cbn [snd extend subscriptions trace].
    split; [exact S3|].
    exists (([EvLog InfoStarting; EvSelectGuilds] ++ new)
            ++ [EvLog (InfoComplete 0)]).
    split; [rewrite T3, T2, U3, U2, <- !app_assoc; reflexivity|].
    rewrite Forall_forall in F3. split.
    + intros e I. apply in_app_or in I. destruct I as [I|[<-|[]]];
        [|reflexivity].
      apply in_app_or in I. destruct I as [[<-|[<-|[]]]|I];
        [reflexivity | reflexivity | apply F3, I].
    + intros _. eexists. reflexivity.
Qed.

Lemma fresh_table_quiet_cycle_witness :
  subscriptions
    (snd (update_check
            (Examples.env_home Examples.mar10_noon
               (Ok (Examples.matrix_details "2024-03-10")) false)
            (Examples.world_of
               [Examples.home_data (Some 200) (Some true)]
               [with_last_checked (Some Examples.mar10_noon) Examples.matrix])))
  = [with_last_checked (Some Examples.mar10_noon) Examples.matrix]
  /\ exists new,
      trace
        (snd (update_check
                (Examples.env_home Examples.mar10_noon
                   (Ok (Examples.matrix_details "2024-03-10")) false)
                (Examples.world_of
                   [Examples.home_data (Some 200) (Some true)]
                   [with_last_checked (Some Examples.mar10_noon)
                                      Examples.matrix])))
      = [] ++ new
      /\ (forall e, In e new -> event_subscription e = None)
      /\ (false = false ->
          exists body, new = body ++ [EvLog (InfoComplete 0)]).
Proof.
  apply (@fresh_table_quiet_cycle
           (Examples.env_home Examples.mar10_noon
              (Ok (Examples.matrix_details "2024-03-10")) false)
           (Examples.world_of
              [Examples.home_data (Some 200) (Some true)]
              [with_last_checked (Some Examples.mar10_noon) Examples.matrix])).
  intros s I w0. simpl in I. destruct I as [<-|[]]. reflexivity.
Defined.

(** ** The cycle, turn by turn *)

(** A loop whose body always returns is the turns of its body. *)
Lemma for_each_is_turns {X} (body : X -> M unit) :
  (forall x w, fst (body x w) = Ok tt) ->
  forall xs w, for_each xs body w = (Ok tt, turns body xs w).
Proof.
  intros Hok. induction xs as [|x xs IH]; intros w; cbn [for_each turns].
  - reflexivity.
  - unfold bind. specialize (Hok x w).
    destruct (body x w) as [[[]|e] w1]; cbn in Hok; [|discriminate].
    cbn [snd]. apply IH.
Qed.

(** A [try] whose handler only logs: an exception of the body is logged in
    the world the body left. *)
Lemma try_except_log_raise (m : M unit) (r : Exn -> LogRecord) (w : World)
      (e : Exn) :
  fst (m w) = Raise e ->
  snd (try_except m (fun e => log (r e)) w)
  = extend (snd (m w)) 0 [EvLog (r e)] 0.
Proof.
  intros H. unfold try_except.
  destruct (m w) as [[a|e'] w']; cbn in H; [discriminate|].
  inversion H; subst e'. rewrite log_run. reflexivity.
Qed.

Lemma subscription_turn (env : Env) (g : DiscordGuild) (gd : GuildData)
      (s : Subscription) (w : World) :
  subscription_turn_survives env g gd s w.
Proof.
  split; [apply subscription_iteration_ok|]. split.
  - intros e H.
    apply (try_except_log_raise (check_subscription env g gd s)
                                (ErrorSubscription (sub_id s)) w H).
  - intros F. unfold subscription_iteration, try_except.
    rewrite (check_subscription_stale env g gd s w F).
    destruct (tmdb_request env (fetch_tick s w) (endpoint s) (tmdb_id s))
      as [d|e].
    + destruct (evaluate_and_record_run env g gd s d (after_fetch s w))
        as [dt [disp [_ [[k [_ E]]|[e E]]]]]; rewrite E.
      * eexists. cbn. rewrite <- app_assoc. reflexivity.
      * rewrite log_run. eexists. cbn. rewrite <- !app_assoc. reflexivity.
    + rewrite log_run. cbn. rewrite <- app_assoc. reflexivity.
Qed.

(** The body of the turn of a guild the client resolves, with the database
    answering the load: the turns of the subscriptions of the guild. *)
Lemma check_guild_turns (env : Env) (gd : GuildData) (g : DiscordGuild)
      (w : World) :
  get_guild env (guild_id gd) = Some g ->
  db_fails env (tick w) = false ->
  check_guild env gd w
  = (Ok tt, turns (subscription_iteration env g gd) (loaded gd w)
                  (after_load g gd w)).
Proof.
  intros R D. unfold check_guild. rewrite R. unfold bind at 1.
  rewrite (get_subscriptions_run env (guild_id gd) w D).
  unfold after_load, loaded.
  destruct (filter (fun s => sub_guild_id s =? guild_id gd) (subscriptions w))
    as [|s0 rest].
  - reflexivity.
  - unfold bind. rewrite log_run.
    apply for_each_is_turns. intros x w0. apply subscription_iteration_ok.
Qed.

Lemma guild_turn (env : Env) (gd : GuildData) (w : World) :
  guild_turn_survives env gd w.
Proof.
  split; [apply guild_iteration_ok|]. split.
  - intros e H.
    apply (try_except_log_raise (check_guild env gd)
                                (ErrorGuild (guild_id gd)) w H).
  - intros g R D. split.
    + unfold guild_iteration, try_except.
      rewrite (check_guild_turns env gd w R D). reflexivity.
    + intros pre s post _. apply subscription_turn.
Qed.

(** The cycle with the database answering the selection: the turns of the
    selected guilds, then the closing line. *)
Lemma update_check_turns (env : Env) (w : World) :
  db_fails env (tick w) = false ->
  update_check_body env w
  = (Ok tt, closing (turns (guild_iteration env) (enabled_guilds (guilds w))
                           (after_select w))).
Proof.
  intros D. pose proof (cycle_prologue env w D) as P.
  unfold update_check_body. unfold bind in P |- *.
  destruct (log InfoStarting w) as [[[]|e0] w0]; [|discriminate P].
  destruct (select_enabled_guilds env w0) as [[gs0|e1] w1]; [|discriminate P].
  destruct (set_total_updates 0 w1) as [[[]|e2] w1']; [|discriminate P].
  unfold ret in P. inversion P; subst gs0 w1'.
  change (filter _ (guilds w)) with (enabled_guilds (guilds w)).
  change {| guilds := guilds w; subscriptions := subscriptions w;
            tick := S (tick w);
            trace := trace w ++ [EvLog InfoStarting; EvSelectGuilds];
            total_updates := 0 |} with (after_select w).
  rewrite (for_each_is_turns (guild_iteration env) (guild_iteration_ok env)).
  unfold read. rewrite log_run. reflexivity.
Qed.

(** C8. Whatever the network, the database and Discord answer, from any
    world (any guild table, any subscription table):
    - [update_check] returns normally; an exception that leaves its body is
      logged by the handler at the top, in the world the body left; the
      only one there is, is the failure of the selection of the guilds;
    - when the selection answers, the cycle is the turn of every selected
      guild, in order, each from the world the turn before it left, and
      then the closing line;
    - the turn of each guild returns normally whatever happened in the
      turns before it; an exception of its body is logged; and when the
      client resolves the guild and the database answers the load, the
      turn is the turn of every subscription of the guild, in order, each
      from the world the turn before it left;
    - the turn of each subscription returns normally whatever happened in
      the turns before it; an exception of its body is logged; and when the
      subscription is due, its metadata are requested, a failure of the
      request is logged, and the metadata the request returns are
      evaluated. *)
Theorem failures_do_not_stop_the_cycle (env : Env) (w : World) :
  fst (update_check env w) = Ok tt
  /\ (forall e,
         fst (update_check_body env w) = Raise e ->
         snd (update_check env w)
         = extend (snd (update_check_body env w)) 0 [EvLog (ErrorTask e)] 0)
  /\ (db_fails env (tick w) = true ->
      snd (update_check env w)
      = extend w 1 [EvLog InfoStarting; EvSelectGuilds;
                    EvLog (ErrorTask DatabaseError)] 0)
  /\ (db_fails env (tick w) = false ->
      snd (update_check env w)
      = closing (turns (guild_iteration env) (enabled_guilds (guilds w))
                       (after_select w))
      /\ forall pre gd post,
          enabled_guilds (guilds w) = pre ++ gd :: post ->
          guild_turn_survives
            env gd (turns (guild_iteration env) pre (after_select w))).
Proof.
  split; [apply try_except_log_ok|]. split; [|split].
  - intros e H. apply (try_except_log_raise (update_check_body env) ErrorTask w H).
  - intros D. destruct (cycle_run env w) as [[_ E]|[D' _]]; [|congruence].
    rewrite E. reflexivity.
  - intros D. split.
    + unfold update_check, try_except. rewrite (update_check_turns env w D).
      reflexivity.
    + intros pre gd post _. apply guild_turn.
Qed.

Lemma failures_do_not_stop_the_cycle_witness :
  snd (update_check
         Examples.env_flaky
         (Examples.world_of
            [Examples.other_data (Some true); Examples.home_data None None;
             Examples.home_data (Some 200) (Some true)]
            [Examples.matrix; Examples.severance_of_other;
             Examples.severance]))
  = closing
      (turns (guild_iteration Examples.env_flaky)
             [Examples.other_data (Some true);
              Examples.home_data (Some 200) (Some true)]
             (after_select
                (Examples.world_of
                   [Examples.other_data (Some true);
                    Examples.home_data None None;
                    Examples.home_data (Some 200) (Some true)]
                   [Examples.matrix; Examples.severance_of_other;
                    Examples.severance])))
  /\ guild_turn_survives
       Examples.env_flaky (Examples.home_data (Some 200) (Some true))
       (turns (guild_iteration Examples.env_flaky)
              [Examples.other_data (Some true)]
              (after_select
                 (Examples.world_of
                    [Examples.other_data (Some true);
                     Examples.home_data None None;
                     Examples.home_data (Some 200) (Some true)]
                    [Examples.matrix; Examples.severance_of_other;
                     Examples.severance]))).
Proof.
  pose proof (proj2 (proj2 (proj2
                (failures_do_not_stop_the_cycle
                   Examples.env_flaky
                   (Examples.world_of
                      [Examples.other_data (Some true);
                       Examples.home_data None None;
                       Examples.home_data (Some 200) (Some true)]
                      [Examples.matrix; Examples.severance_of_other;
                       Examples.severance])))) eq_refl) as [E G].
  split; [exact E|].
  exact (G [Examples.other_data (Some true)]
           (Examples.home_data (Some 200) (Some true)) [] eq_refl).
Defined.

(** The cycle of the witness, event by event: the load for the guild 20
    fails and the turn of the guild 10 follows; in it the request for the
    subscription 1 fails and the turn of the subscription 2 follows. *)
Example cycle_after_two_failures :
  fst (update_check
         Examples.env_flaky
         (Examples.world_of
            [Examples.other_data (Some true); Examples.home_data None None;
             Examples.home_data (Some 200) (Some true)]
            [Examples.matrix; Examples.severance_of_other;
             Examples.severance])) = Ok tt
  /\ trace
       (snd (update_check
               Examples.env_flaky
               (Examples.world_of
                  [Examples.other_data (Some true);
                   Examples.home_data None None;
                   Examples.home_data (Some 200) (Some true)]
                  [Examples.matrix; Examples.severance_of_other;
                   Examples.severance])))
     = [EvLog InfoStarting; EvSelectGuilds; EvGetSubscriptions 20;
        EvLog (ErrorGuild 20 DatabaseError);
        EvGetSubscriptions 10; EvLog (InfoChecking 2 "Film Club");
        EvFetch 1 "movie" 603; EvLog (ErrorSubscription 1 ClientError);
        EvFetch 2 "tv" 95396; EvEvaluate 2; EvDispatch 2;
        EvSend 2 200 (Some 7)
               {| e_template := episode_aired;
                  e_title := Some "Severance";
                  e_date := "2024-03-10";
                  e_episode := None;
                  e_thumbnail := None;
                  e_link := ("tv", 95396);
                  e_timestamp := Examples.mar10_noon |};
        EvLog (InfoSent (Some "Severance") 10);
        EvUpdateLastChecked 2 Examples.mar10_noon; EvSleep;
        EvLog (InfoComplete 1)].
Proof. split; vm_compute; reflexivity. Qed.
